(** * IGMPv2 host engine and multicast registry of Circle: a shallow embedding

    Sources embedded here:
    - [lib/net/netconfig.cpp]   the multicast registry ([CNetConfig])
    - [lib/net/igmphandler.cpp] the IGMPv2 engine ([CIGMPHandler]) and [rand]
    - [include/circle/net/igmphandler.h] message type codes, session record

    Integers are [Z] with the C++ wrap-around written out.  The two linked
    lists (registry entries, engine sessions) live in explicit stores
    ([gmap] from addresses to nodes); a pointer is [option loc], [None]
    being the null pointer.  Every [while] loop over pointers is a
    fuel-indexed [Fixpoint] whose outcome is [Done], [Fault] (null or
    dangling dereference, division by zero) or [Timeout] (fuel used up). *)

From stdpp Require Import gmap list.
From Stdlib Require Import ZArith Lia.

Open Scope Z_scope.

(** ** Outcomes of a run *)

Inductive result (A : Type) : Type :=
  | Done (a : A)
  | Fault
  | Timeout.
Arguments Done {A} a.
Arguments Fault {A}.
Arguments Timeout {A}.

Global Instance result_bind : MBind result := λ A B k r,
  match r with
  | Done a => k a
  | Fault => Fault
  | Timeout => Timeout
  end.

(** Reading through a pointer: a null pointer and a pointer to a freed cell
    both fault. *)
Definition loc := positive.
Definition ptr := option loc.

Definition deref {N} (h : gmap loc N) (p : ptr) : result (loc * N) :=
  match p with
  | None => Fault
  | Some l => match h !! l with Some n => Done (l, n) | None => Fault end
  end.

(** [new]: some address not in use. *)
Definition alloc {N} (h : gmap loc N) : loc := fresh (dom h).

(** ** Machine integers *)

(** Arithmetic on [u32] and [u64] wraps. *)
Definition wrap32 (z : Z) : Z := z mod 2 ^ 32.
Definition wrap64 (z : Z) : Z := z mod 2 ^ 64.

Definition is_u8 (z : Z) : Prop := 0 ≤ z < 2 ^ 8.

(** ** Address value types

    [CIPAddress] holds [u8 m_Address[4]], [CMACAddress] holds six bytes;
    [operator==] compares the bytes. *)

Record CIPAddress := mkIP { ip0 : Z; ip1 : Z; ip2 : Z; ip3 : Z }.
Record CMACAddress :=
  mkMAC { mac0 : Z; mac1 : Z; mac2 : Z; mac3 : Z; mac4 : Z; mac5 : Z }.

Global Instance CIPAddress_eq_dec : EqDecision CIPAddress.
Proof. solve_decision. Defined.
Global Instance CMACAddress_eq_dec : EqDecision CMACAddress.
Proof. solve_decision. Defined.

Definition ip_eqb (a b : CIPAddress) : bool := bool_decide (a = b).
Definition mac_eqb (a b : CMACAddress) : bool := bool_decide (a = b).

Definition ip_valid (a : CIPAddress) : Prop :=
  is_u8 (ip0 a) ∧ is_u8 (ip1 a) ∧ is_u8 (ip2 a) ∧ is_u8 (ip3 a).

(** [CIPAddress::CopyTo]: the four bytes, in order. *)
Definition CopyTo (a : CIPAddress) : list Z := [ip0 a; ip1 a; ip2 a; ip3 a].

(** The address as a 32-bit number, first byte most significant. *)
Definition ip_to_Z (a : CIPAddress) : Z :=
  ip0 a * 2 ^ 24 + ip1 a * 2 ^ 16 + ip2 a * 2 ^ 8 + ip3 a.

Definition mac_to_Z (m : CMACAddress) : Z :=
  mac0 m * 2 ^ 40 + mac1 m * 2 ^ 32 + mac2 m * 2 ^ 24
  + mac3 m * 2 ^ 16 + mac4 m * 2 ^ 8 + mac5 m.

(** Modelled from the spec: [CIPAddress::IsMulticast] is not among the
    sources; the spec speaks of "addresses in the multicast range", which is
    224.0.0.0/4: the top four bits of the first byte are 1110. *)
Definition IsMulticast (a : CIPAddress) : bool :=
  Z.land (ip0 a) 240 =? 224.

(** ** The pseudo-random delay generator [rand]

    [static u32 a] is threaded explicitly: [rand a min max] gives the value
    returned and the new seed.  [max - min + 1] is computed in [u32]; when it
    wraps to 0 the [%] divides by zero. *)

Definition SEED : Z := 0xABCD1234.

Definition xorshift32 (a : Z) : Z :=
  let x := a in
  let x := Z.lxor x (wrap32 (Z.shiftl x 13)) in
  let x := Z.lxor x (Z.shiftr x 17) in
  let x := Z.lxor x (wrap32 (Z.shiftl x 5)) in
  x.

Definition rand (a min max : Z) : result (Z * Z) :=
  let a' := xorshift32 a in
  let m := wrap32 (max - min + 1) in
  if m =? 0 then Fault else Done (wrap32 (a' mod m + min), a').

(** Repeated invocations: each request is a pair [(min, max)]. *)
Fixpoint rand_calls (a : Z) (reqs : list (Z * Z)) : result (list Z * Z) :=
  match reqs with
  | [] => Done ([], a)
  | (mn, mx) :: reqs' =>
      '(v, a1) ← rand a mn mx ;
      '(vs, a2) ← rand_calls a1 reqs' ;
      Done (v :: vs, a2)
  end.

Definition in_bounds (req : Z * Z) (v : Z) : Prop := req.1 ≤ v ≤ req.2.
Definition u32_range (req : Z * Z) : Prop := 0 ≤ req.1 ∧ req.1 ≤ req.2 ∧ req.2 < 2 ^ 32.
Definition full_range (req : Z * Z) : Prop := req.1 = 0 ∧ req.2 = 2 ^ 32 - 1.

(** ** The checksum primitive *)

(** Modelled from the spec: [CChecksumCalculator::SimpleCalculate] and
    [CHECKSUM_OK] are not among the sources.  The spec calls the routine the
    "standard Internet (one's-complement) checksum over the entire message",
    valid on receipt "iff the checksum over the full buffer (including the
    received checksum field) reduces to zero".  The message is read as 16-bit
    words, an odd last byte padded with a zero byte ([sum16]); the carries
    of the sum are folded back into the low 16 bits ([fold16]: twice, which
    is enough for any buffer of a frame's size); the result is complemented
    ([SimpleCalculate]), and a message verifies when the routine gives
    [CHECKSUM_OK]. *)
Fixpoint sum16 (bs : list Z) : Z :=
  match bs with
  | hi :: lo :: rest => hi * 256 + lo + sum16 rest
  | [b] => b * 256
  | [] => 0
  end.

Definition fold16 (s : Z) : Z :=
  let s := Z.land s 0xFFFF + Z.shiftr s 16 in
  Z.land s 0xFFFF + Z.shiftr s 16.

Definition SimpleCalculate (bs : list Z) : Z :=
  Z.land (Z.lnot (fold16 (sum16 bs))) 0xFFFF.

Definition CHECKSUM_OK : Z := 0.

(** ** Singly linked lists in a store

    Both lists of the program are chains of heap nodes linked by [pNext].
    [scan] is the search loop that occurs throughout the sources:
    [while (p != 0) { if (stop (p)) break; p = p->pNext; }]; it ends with
    [p] at the first node satisfying [stop], or null. *)

Section LinkedList.
Context {N : Type} (next : N → ptr).

Fixpoint scan (fuel : nat) (h : gmap loc N) (stop : N → bool) (p : ptr)
    : result ptr :=
  match fuel with
  | O => Timeout
  | S fuel' =>
      match p with
      | None => Done None
      | Some l =>
          match h !! l with
          | None => Fault
          | Some n => if stop n then Done (Some l) else scan fuel' h stop (next n)
          end
      end
  end.

(** [chain h p ls]: from [p] the links visit exactly the cells at [ls], in
    order, and end with a null pointer. *)
Fixpoint chain (h : gmap loc N) (p : ptr) (ls : list loc) : Prop :=
  match ls with
  | [] => p = None
  | l :: ls' => p = Some l ∧ ∃ n, h !! l = Some n ∧ chain h (next n) ls'
  end.

(** The first of the cells at [ls] whose content satisfies [stop]. *)
Fixpoint first_match (h : gmap loc N) (stop : N → bool) (ls : list loc) : ptr :=
  match ls with
  | [] => None
  | l :: ls' =>
      match h !! l with
      | Some n => if stop n then Some l else first_match h stop ls'
      | None => None
      end
  end.

End LinkedList.

(** ** The multicast registry: [CNetConfig] (netconfig.cpp) *)

Module NetConfig.

(** A registry entry.  The entry owns its two address objects
    ([new CMACAddress], [new CIPAddress], deleted together with the entry),
    so they are kept by value in the cell. *)
Record MulticastGroup := mkGroup {
  pMACAddress : CMACAddress;
  pIPAddress : CIPAddress;
  pNext : ptr
}.

Definition set_pNext (g : MulticastGroup) (p : ptr) : MulticastGroup :=
  mkGroup (pMACAddress g) (pIPAddress g) p.

(** The part of [CNetConfig] the multicast functions use: the store of
    entries and the head pointer [m_pMulticastGroups]. *)
Record CNetConfig := mkConfig {
  groups : gmap loc MulticastGroup;
  m_pMulticastGroups : ptr
}.

Definition MAC_ADDRESS_SIZE : nat := 6.

(** [CMACAddress::Set] from a byte array. *)
Definition mac_of_bytes (b : list Z) : CMACAddress :=
  mkMAC (b !!! 0%nat) (b !!! 1%nat) (b !!! 2%nat)
        (b !!! 3%nat) (b !!! 4%nat) (b !!! 5%nat).

(** Lines 147-153 and 221-226: [u8 TempMACAddress[MAC_ADDRESS_SIZE]];
    [rIPAddress.CopyTo (TempMACAddress + 2)] writes the four address bytes
    to cells 2..5, then cells 0, 1 and 2 are assigned.  Every cell is
    written, so the array's initial content does not matter. *)
Definition copy_at (off : nat) (src : list Z) (dst : list Z) : list Z :=
  take off dst ++ src ++ drop (off + length src) dst.

Definition TempMACAddress (rIPAddress : CIPAddress) : list Z :=
  let t := replicate MAC_ADDRESS_SIZE 0 in
  let t := copy_at 2 (CopyTo rIPAddress) t in
  let t := <[0%nat := 0x01]> t in
  let t := <[1%nat := 0x00]> t in
  let t := <[2%nat := 0x5E]> t in
  t.

Definition derived_mac (rIPAddress : CIPAddress) : CMACAddress :=
  mac_of_bytes (TempMACAddress rIPAddress).

Definition mac_is (mac : CMACAddress) (g : MulticastGroup) : bool :=
  mac_eqb (pMACAddress g) mac.
Definition ip_is (ip : CIPAddress) (g : MulticastGroup) : bool :=
  ip_eqb (pIPAddress g) ip.
Definition is_last (g : MulticastGroup) : bool :=
  bool_decide (pNext g = None).

(** [EnableMulticastGroup] *)
Definition EnableMulticastGroup (fuel : nat) (rIPAddress : CIPAddress)
    (c : CNetConfig) : result CNetConfig :=
  if negb (IsMulticast rIPAddress) then Done c
  else
    let mac := derived_mac rIPAddress in
    (* already in the list? *)
    pGroup ← scan pNext fuel (groups c) (mac_is mac) (m_pMulticastGroups c);
    match pGroup with
    | Some _ => Done c
    | None =>
        let pNewGroup := alloc (groups c) in
        let h := <[pNewGroup := mkGroup mac rIPAddress None]> (groups c) in
        (* pointer to the last entry *)
        pLastGroup ← scan pNext fuel h is_last (m_pMulticastGroups c);
        match pLastGroup with
        | None => Done (mkConfig h (Some pNewGroup))
        | Some l =>
            '(_, g) ← deref h (Some l);
            Done (mkConfig (<[l := set_pNext g (Some pNewGroup)]> h)
                           (m_pMulticastGroups c))
        end
    end.

(** [DisableMulticastGroup]: the loop of lines 229-249, statement by
    statement.  [pPrev] and [pNext] are declared inside the body and
    initialised from [pGroup] in every iteration; the head pointer
    [m_pMulticastGroups] is not assigned anywhere. *)
Fixpoint DisableMulticastGroup_loop (fuel : nat) (mac : CMACAddress)
    (pGroup : ptr) (h : gmap loc MulticastGroup)
    : result (gmap loc MulticastGroup) :=
  match fuel with
  | O => Timeout
  | S fuel' =>
      match pGroup with
      | None => Done h
      | Some _ =>
          '(l, g) ← deref h pGroup;
          let pPrev := pGroup in
          let pNext' := pNext g in
          if mac_eqb (pMACAddress g) mac then
            (* pPrev->pNext = pNext; *)
            '(lp, gp) ← deref h pPrev;
            let h := <[lp := set_pNext gp pNext']> h in
            (* delete pGroup->pMACAddress, pGroup->pIPAddress, pGroup; break; *)
            Done (delete l h)
          else DisableMulticastGroup_loop fuel' mac pNext' h
      end
  end.

Definition DisableMulticastGroup (fuel : nat) (rIPAddress : CIPAddress)
    (c : CNetConfig) : result CNetConfig :=
  if negb (IsMulticast rIPAddress) then Done c
  else
    let mac := derived_mac rIPAddress in
    h ← DisableMulticastGroup_loop fuel mac (m_pMulticastGroups c) (groups c);
    Done (mkConfig h (m_pMulticastGroups c)).

(** [IsEnabledMulticastGroup] and [IsEnabledMulticastMAC] *)
Definition IsEnabledMulticastGroup (fuel : nat) (c : CNetConfig)
    (rIPAddress : CIPAddress) : result bool :=
  p ← scan pNext fuel (groups c) (ip_is rIPAddress) (m_pMulticastGroups c);
  Done (bool_decide (p ≠ None)).

Definition IsEnabledMulticastMAC (fuel : nat) (c : CNetConfig)
    (rMACAddress : CMACAddress) : result bool :=
  p ← scan pNext fuel (groups c) (mac_is rMACAddress) (m_pMulticastGroups c);
  Done (bool_decide (p ≠ None)).

(** A registry whose chain is intact. *)
Definition wf (c : CNetConfig) (ls : list loc) : Prop :=
  chain pNext (groups c) (m_pMulticastGroups c) ls.

Definition empty : CNetConfig := mkConfig ∅ None.

End NetConfig.


(** ** The IGMPv2 engine: [CIGMPHandler] (igmphandler.cpp, igmphandler.h) *)

Module IGMP.

Definition IGMP_TYPE_MEMBERSHIP_QUERY : Z := 0x11.
Definition IGMP_TYPE_MEMBERSHIP_REPORT_V1 : Z := 0x12.
Definition IGMP_TYPE_MEMBERSHIP_REPORT_V2 : Z := 0x16.
Definition IGMP_TYPE_MEMBERSHIP_REPORT_V3 : Z := 0x22.
Definition IGMP_TYPE_LEAVE_GROUP_V2 : Z := 0x17.

Definition INITIAL_REPORT_COUNT : Z := 2.
Definition MAX_INITIAL_REPORT_DELAY_MS : Z := 1000.

(** [sizeof (TIGMPHeader)]: type, code, checksum (2 bytes), parameter (4). *)
Definition sizeof_TIGMPHeader : nat := 8.

(** A session.  The session owns its [CIPAddress] copy, kept by value. *)
Record MulticastGroupState := mkState {
  pIPAddress : CIPAddress;
  nReportsPending : Z;
  bLeavePending : bool;
  nNextReportTime : Z;
  nLastReportTime : Z;
  pNext : ptr
}.

Definition set_bLeavePending (b : bool) (s : MulticastGroupState) :=
  mkState (pIPAddress s) (nReportsPending s) b
          (nNextReportTime s) (nLastReportTime s) (pNext s).
Definition set_pNext (p : ptr) (s : MulticastGroupState) :=
  mkState (pIPAddress s) (nReportsPending s) (bLeavePending s)
          (nNextReportTime s) (nLastReportTime s) p.
Definition set_report (n t : Z) (s : MulticastGroupState) :=
  mkState (pIPAddress s) n (bLeavePending s) t (nLastReportTime s) (pNext s).

(** What [m_pNetworkLayer->SendWithOptions (dest, buffer, length,
    IPPROTO_IGMP)] was handed: the destination and the [length] bytes. *)
Record Datagram := mkDatagram { dest : CIPAddress; payload : list Z }.

(** An entry of the receive queue: the frame and its private data. *)
Record Packet := mkPacket {
  Buffer : list Z;
  SourceAddress : CIPAddress;
  DestinationAddress : CIPAddress
}.

(** The engine's members, with the two pieces of state its code reaches
    outside the object: the [static] seed of [rand] and the messages given
    to the network layer so far (oldest first). *)
Record CIGMPHandler := mkHandler {
  states : gmap loc MulticastGroupState;
  m_pMulticastGroupStates : ptr;
  m_nTimestampMs : Z;
  m_nLastTicksMs : Z;
  rand_a : Z;
  sent : list Datagram
}.

Definition set_states (h : gmap loc MulticastGroupState) (m : CIGMPHandler) :=
  mkHandler h (m_pMulticastGroupStates m) (m_nTimestampMs m)
            (m_nLastTicksMs m) (rand_a m) (sent m).
Definition set_head (p : ptr) (m : CIGMPHandler) :=
  mkHandler (states m) p (m_nTimestampMs m) (m_nLastTicksMs m)
            (rand_a m) (sent m).
Definition set_rand_a (a : Z) (m : CIGMPHandler) :=
  mkHandler (states m) (m_pMulticastGroupStates m) (m_nTimestampMs m)
            (m_nLastTicksMs m) a (sent m).
Definition set_clock (now ticks : Z) (m : CIGMPHandler) :=
  mkHandler (states m) (m_pMulticastGroupStates m) now ticks
            (rand_a m) (sent m).
Definition SendWithOptions (d : Datagram) (m : CIGMPHandler) :=
  mkHandler (states m) (m_pMulticastGroupStates m) (m_nTimestampMs m)
            (m_nLastTicksMs m) (rand_a m) (sent m ++ [d]).

(** The engine just constructed: no session, clock at 0. *)
Definition init : CIGMPHandler := mkHandler ∅ None 0 0 SEED [].

(** *** Messages *)

(** The eight bytes of a [TIGMPHeader]; the checksum field holds the high
    byte first, the order in which [sum16] reads it back. *)
Definition TIGMPHeader (nType nCode nChecksum : Z) (Param : list Z) : list Z :=
  [nType; nCode; nChecksum / 256; nChecksum mod 256] ++ Param.

(** Lines 297-302 and 326-331: a header with code 0, checksum first 0 and
    then computed over the [sizeof (TIGMPHeader)] bytes. *)
Definition build_message (nType : Z) (ip : CIPAddress) : list Z :=
  let hdr := TIGMPHeader nType 0 0 (CopyTo ip) in
  TIGMPHeader nType 0 (SimpleCalculate hdr) (CopyTo ip).

Definition ip_is (ip : CIPAddress) (s : MulticastGroupState) : bool :=
  ip_eqb (pIPAddress s) ip.

(** *** [ProcessMulticastGroupChanges] *)

(** First loop (lines 361-368): every session gets [bLeavePending = TRUE];
    [pLastState] ends at the last session. *)
Fixpoint mark_leave_pending (fuel : nat) (h : gmap loc MulticastGroupState)
    (pState pLastState : ptr) : result (gmap loc MulticastGroupState * ptr) :=
  match fuel with
  | O => Timeout
  | S fuel' =>
      match pState with
      | None => Done (h, pLastState)
      | Some l =>
          '(_, s) ← deref h pState;
          mark_leave_pending fuel' (<[l := set_bLeavePending true s]> h)
                             (pNext s) pState
      end
  end.

(** Body of the second loop for one registry entry (lines 375-411). *)
Definition reconcile_group (k : nat) (nTimestampMs : Z)
    (g : NetConfig.MulticastGroup) (m : CIGMPHandler) (pLastState : ptr)
    : result (CIGMPHandler * ptr) :=
  pState ← scan pNext k (states m) (ip_is (NetConfig.pIPAddress g))
                (m_pMulticastGroupStates m);
  match pState with
  | None =>
      let l := alloc (states m) in
      '(r, a') ← rand (rand_a m) 0 MAX_INITIAL_REPORT_DELAY_MS;
      let s := mkState (NetConfig.pIPAddress g) INITIAL_REPORT_COUNT false
                       (wrap64 (nTimestampMs + r)) 0 None in
      let m := set_rand_a a' (set_states (<[l := s]> (states m)) m) in
      m ← match pLastState with
          | None => Done (set_head (Some l) m)
          | Some ll =>
              '(_, sl) ← deref (states m) pLastState;
              Done (set_states (<[ll := set_pNext (Some l) sl]> (states m)) m)
          end;
      Done (m, Some l)
  | Some l =>
      '(_, s) ← deref (states m) pState;
      Done (set_states (<[l := set_bLeavePending false s]> (states m)) m,
            pLastState)
  end.

(** Second loop (lines 373-414), over the registry's chain. *)
Fixpoint reconcile_groups (k fuel : nat) (nTimestampMs : Z)
    (reg : gmap loc NetConfig.MulticastGroup) (pGroup : ptr)
    (m : CIGMPHandler) (pLastState : ptr) : result CIGMPHandler :=
  match fuel with
  | O => Timeout
  | S fuel' =>
      match pGroup with
      | None => Done m
      | Some _ =>
          '(_, g) ← deref reg pGroup;
          '(m, pLastState) ← reconcile_group k nTimestampMs g m pLastState;
          reconcile_groups k fuel' nTimestampMs reg (NetConfig.pNext g)
                           m pLastState
      end
  end.

Definition ProcessMulticastGroupChanges (fuel : nat) (c : NetConfig.CNetConfig)
    (nTimestampMs : Z) (m : CIGMPHandler) : result CIGMPHandler :=
  let pGroup := NetConfig.m_pMulticastGroups c in
  let pState := m_pMulticastGroupStates m in
  '(h, pLastState) ← mark_leave_pending fuel (states m) pState pState;
  reconcile_groups fuel fuel nTimestampMs (NetConfig.groups c) pGroup
                   (set_states h m) pLastState.

(** *** [ProcessMulticastGroupReportAll] (lines 417-428)

    [pState = pState->pNext] stands inside the [if]: a session whose
    [nReportsPending] is not 0 leaves [pState] where it is. *)
Fixpoint ProcessMulticastGroupReportAll_loop (fuel : nat)
    (nTimestampMs nMaxDelay : Z) (pState : ptr) (m : CIGMPHandler)
    : result CIGMPHandler :=
  match fuel with
  | O => Timeout
  | S fuel' =>
      match pState with
      | None => Done m
      | Some l =>
          '(_, s) ← deref (states m) pState;
          if nReportsPending s =? 0 then
            '(r, a') ← rand (rand_a m) 0 nMaxDelay;
            let s' := set_report 1 (wrap64 (nTimestampMs + r)) s in
            let m := set_rand_a a' (set_states (<[l := s']> (states m)) m) in
            ProcessMulticastGroupReportAll_loop fuel' nTimestampMs nMaxDelay
                                                (pNext s') m
          else
            ProcessMulticastGroupReportAll_loop fuel' nTimestampMs nMaxDelay
                                                pState m
      end
  end.

Definition ProcessMulticastGroupReportAll (fuel : nat)
    (nTimestampMs nMaxDelay : Z) (m : CIGMPHandler) : result CIGMPHandler :=
  ProcessMulticastGroupReportAll_loop fuel nTimestampMs nMaxDelay
                                      (m_pMulticastGroupStates m) m.

(** *** [SendPendingReportsAndLeaves] (lines 288-353) *)

(** The [if / else if] of the loop body: the engine afterwards and the
    value of [pState] with which control reaches line 350. *)
Definition flush_session (nTimestampMs : Z) (l : loc)
    (s : MulticastGroupState) (pPrev : ptr) (m : CIGMPHandler)
    : result (CIGMPHandler * ptr) :=
  let pNext' := pNext s in
  if bLeavePending s then
    let m := SendWithOptions
               (mkDatagram (pIPAddress s)
                  (build_message IGMP_TYPE_LEAVE_GROUP_V2 (pIPAddress s))) m in
    m ← match pPrev with
        | None => Done (set_head pNext' m)
        | Some lp =>
            '(_, sp) ← deref (states m) pPrev;
            Done (set_states (<[lp := set_pNext pNext' sp]> (states m)) m)
        end;
    let m := set_states (delete l (states m)) m in
    Done (m, pNext')
  else if (0 <? nReportsPending s) && (nNextReportTime s <? nTimestampMs) then
    let m := SendWithOptions
               (mkDatagram (pIPAddress s)
                  (build_message IGMP_TYPE_MEMBERSHIP_REPORT_V2 (pIPAddress s))) m in
    let n := wrap32 (nReportsPending s - 1) in
    if 0 <? n then
      '(r, a') ← rand (rand_a m) 0 MAX_INITIAL_REPORT_DELAY_MS;
      let s' := set_report n (wrap64 (nTimestampMs + r)) s in
      Done (set_rand_a a' (set_states (<[l := s']> (states m)) m), Some l)
    else
      let s' := set_report n 0 s in
      Done (set_states (<[l := s']> (states m)) m, Some l)
  else Done (m, Some l).

Fixpoint SendPendingReportsAndLeaves_loop (fuel : nat) (nTimestampMs : Z)
    (pState pPrev : ptr) (m : CIGMPHandler) : result CIGMPHandler :=
  match fuel with
  | O => Timeout
  | S fuel' =>
      match pState with
      | None => Done m
      | Some l =>
          '(_, s) ← deref (states m) pState;
          '(m, pState) ← flush_session nTimestampMs l s pPrev m;
          (* pPrev = pState; pState = pState->pNext; *)
          '(_, s') ← deref (states m) pState;
          SendPendingReportsAndLeaves_loop fuel' nTimestampMs (pNext s') pState m
      end
  end.

Definition SendPendingReportsAndLeaves (fuel : nat) (nTimestampMs : Z)
    (m : CIGMPHandler) : result CIGMPHandler :=
  SendPendingReportsAndLeaves_loop fuel nTimestampMs
                                   (m_pMulticastGroupStates m) None m.

(** *** [Process] (lines 208-286) *)

(** Views of the receive buffer as a [TIGMPHeader]. *)
Definition hdr_nType (b : list Z) : Z := b !!! 0%nat.
Definition hdr_nCode (b : list Z) : Z := b !!! 1%nat.
Definition hdr_Parameter (b : list Z) : list Z := take 4 (drop 4 b).
Definition set_nType (t : Z) (b : list Z) : list Z := <[0%nat := t]> b.
Definition set_nChecksum (c : Z) (b : list Z) : list Z :=
  <[3%nat := c mod 256]> (<[2%nat := c / 256]> b).

(** [CIPAddress (const u8 *pAddress)] *)
Definition ip_of_bytes (b : list Z) : CIPAddress :=
  mkIP (b !!! 0%nat) (b !!! 1%nat) (b !!! 2%nat) (b !!! 3%nat).

Definition is_general_query (b : list Z) : bool :=
  (b !!! 4%nat =? 0) && (b !!! 5%nat =? 0)
  && (b !!! 6%nat =? 0) && (b !!! 7%nat =? 0).

(** Lines 272-278: the reply to a specific query, built in the receive
    buffer; the checksum is computed over [sizeof (TIGMPHeader)] bytes and
    [nLength] bytes are sent. *)
Definition specific_query_reply (b : list Z) : list Z :=
  let b := set_nType IGMP_TYPE_MEMBERSHIP_REPORT_V2 b in
  let b := set_nChecksum 0 b in
  set_nChecksum (SimpleCalculate (take sizeof_TIGMPHeader b)) b.

(** The sibling path: the earlier handler that the same source file also
    holds (lines 103-110) answers a query with a Version 1 report whose
    checksum is computed over [nLength] bytes, the length it sends. *)
Definition v1_query_reply (b : list Z) : list Z :=
  let b := set_nType IGMP_TYPE_MEMBERSHIP_REPORT_V1 b in
  let b := set_nChecksum 0 b in
  set_nChecksum (SimpleCalculate b) b.

(** Body of the receive loop for one dequeued frame (lines 230-281). *)
Definition handle_packet (fuel : nat) (c : NetConfig.CNetConfig)
    (pkt : Packet) (m : CIGMPHandler) : result CIGMPHandler :=
  let nLength := length (Buffer pkt) in
  let SourceIP := SourceAddress pkt in
  let DestIP := DestinationAddress pkt in
  member ← NetConfig.IsEnabledMulticastGroup fuel c DestIP;
  if negb member then Done m
  else if (nLength <? sizeof_TIGMPHeader)%nat then Done m
  else if negb (SimpleCalculate (Buffer pkt) =? CHECKSUM_OK) then Done m
  else if hdr_nType (Buffer pkt) =? IGMP_TYPE_MEMBERSHIP_QUERY then
    if is_general_query (Buffer pkt) then
      ProcessMulticastGroupReportAll fuel (m_nTimestampMs m)
        (hdr_nCode (Buffer pkt) * 100) m
    else
      named ← NetConfig.IsEnabledMulticastGroup fuel c
                (ip_of_bytes (hdr_Parameter (Buffer pkt)));
      if (named : bool) then
        Done (SendWithOptions
                (mkDatagram SourceIP (specific_query_reply (Buffer pkt))) m)
      else Done m
  else Done m.

(** The receive loop: the queue is drained, oldest frame first. *)
Fixpoint drain_queue (fuel : nat) (c : NetConfig.CNetConfig)
    (queue : list Packet) (m : CIGMPHandler) : result CIGMPHandler :=
  match queue with
  | [] => Done m
  | pkt :: queue' =>
      m ← handle_packet fuel c pkt m;
      drain_queue fuel c queue' m
  end.

(** Lines 217-220.  [HZ] (ticks per second) is a constant of the
    environment that is not among the sources and is taken as an argument;
    [ticks] is what [CTimer::Get ()->GetTicks ()] returns. *)
Definition advance_clock (HZ ticks : Z) (m : CIGMPHandler) : result CIGMPHandler :=
  if HZ =? 0 then Fault
  else
    let nTimestampDiffMs :=
      wrap32 (wrap32 (ticks - m_nLastTicksMs m) * 1000) / HZ in
    Done (set_clock (wrap64 (m_nTimestampMs m + nTimestampDiffMs)) ticks m).

Definition Process (fuel : nat) (HZ ticks : Z) (c : NetConfig.CNetConfig)
    (queue : list Packet) (m : CIGMPHandler) : result CIGMPHandler :=
  m ← advance_clock HZ ticks m;
  m ← ProcessMulticastGroupChanges fuel c (m_nTimestampMs m) m;
  m ← drain_queue fuel c queue m;
  SendPendingReportsAndLeaves fuel (m_nTimestampMs m) m.

(** A session list whose chain is intact, with its cells at [ls]. *)
Definition wf (m : CIGMPHandler) (ls : list loc) : Prop :=
  chain pNext (states m) (m_pMulticastGroupStates m) ls.

End IGMP.

(** ** The address mapping in the words of the specification

    "fixed prefix + low 23 bits of the IP address, per standard
    IPv4-multicast-to-MAC mapping": the prefix 01:00:5E in the top three
    bytes, then bit 23 clear and the low 23 bits of the IP address.  This
    definition follows the specification, not the code; the code's mapping
    is [NetConfig.derived_mac]. *)
Definition standard_multicast_mac (ip : CIPAddress) : Z :=
  0x01005E000000 + Z.land (ip_to_Z ip) (2 ^ 23 - 1).

(** ** Membership and dropped frames, as predicates *)

(** [ip] is the address of some entry of the registry's chain [ls]. *)
Definition is_member (c : NetConfig.CNetConfig) (ls : list loc) (ip : CIPAddress) : Prop :=
  ∃ l g, l ∈ ls ∧ NetConfig.groups c !! l = Some g ∧ NetConfig.pIPAddress g = ip.

(** The frames the receive loop is to discard. *)
Definition dropped (c : NetConfig.CNetConfig) (ls : list loc) (pkt : IGMP.Packet) : Prop :=
  (length (IGMP.Buffer pkt) < 8)%nat
  ∨ ¬ is_member c ls (IGMP.DestinationAddress pkt)
  ∨ SimpleCalculate (IGMP.Buffer pkt) ≠ CHECKSUM_OK.

(** ** What reconciliation may change, as predicates *)

(** [s'] has the address, report count and timestamps of [s]. *)
Definition same_session (s s' : IGMP.MulticastGroupState) : Prop :=
  IGMP.pIPAddress s' = IGMP.pIPAddress s
  ∧ IGMP.nReportsPending s' = IGMP.nReportsPending s
  ∧ IGMP.nNextReportTime s' = IGMP.nNextReportTime s
  ∧ IGMP.nLastReportTime s' = IGMP.nLastReportTime s.

(** Every cell of [h] is still there in [h'], as the same session. *)
Definition preserves (h h' : gmap loc IGMP.MulticastGroupState) : Prop :=
  ∀ l s, h !! l = Some s → ∃ s', h' !! l = Some s' ∧ same_session s s'.

(** The same, and the links are as they were. *)
Definition marks (h h' : gmap loc IGMP.MulticastGroupState) : Prop :=
  ∀ l s, h !! l = Some s →
    ∃ s', h' !! l = Some s' ∧ same_session s s' ∧ IGMP.pNext s' = IGMP.pNext s.

(** Every cell is still there as the same session, and no cleared
    [bLeavePending] is set again. *)
Definition keeps (h h' : gmap loc IGMP.MulticastGroupState) : Prop :=
  ∀ l s, h !! l = Some s →
    ∃ s', h' !! l = Some s' ∧ same_session s s'
          ∧ (IGMP.bLeavePending s = false → IGMP.bLeavePending s' = false).

(** A session as line 388-394 creates it at time [now] for address [ip]. *)
Definition new_session (now : Z) (ip : CIPAddress) (s : IGMP.MulticastGroupState) : Prop :=
  IGMP.pIPAddress s = ip
  ∧ IGMP.nReportsPending s = 2
  ∧ IGMP.bLeavePending s = false
  ∧ IGMP.nLastReportTime s = 0
  ∧ ∃ r, 0 ≤ r ≤ 1000 ∧ IGMP.nNextReportTime s = wrap64 (now + r).

(** ** Concrete scenarios *)

Definition group_A : CIPAddress := mkIP 239 1 1 1.
Definition group_B : CIPAddress := mkIP 239 2 2 2.
Definition all_hosts : CIPAddress := mkIP 224 0 0 1.
Definition querier : CIPAddress := mkIP 10 0 0 1.

Definition entry (ip : CIPAddress) (next : ptr) : NetConfig.MulticastGroup :=
  NetConfig.mkGroup (NetConfig.derived_mac ip) ip next.

(** Registries as [EnableMulticastGroup] builds them from the empty one. *)
Definition registry_A : NetConfig.CNetConfig :=
  NetConfig.mkConfig {[ 1%positive := entry group_A None ]} (Some 1%positive).
Definition registry_B : NetConfig.CNetConfig :=
  NetConfig.mkConfig {[ 1%positive := entry group_B None ]} (Some 1%positive).
Definition registry_AB : NetConfig.CNetConfig :=
  NetConfig.mkConfig
    (<[ 1%positive := entry group_A (Some 2%positive) ]>
       {[ 2%positive := entry group_B None ]})
    (Some 1%positive).
Definition registry_A_hosts : NetConfig.CNetConfig :=
  NetConfig.mkConfig
    (<[ 1%positive := entry group_A (Some 2%positive) ]>
       {[ 2%positive := entry all_hosts None ]})
    (Some 1%positive).

(** A general query (group field zero, maximum response time 10 s) and a
    12-byte query naming 239.1.1.1 (the IGMPv3 layout: four more bytes after
    the group address); both carry a valid checksum. *)
Definition general_query : IGMP.Packet :=
  IGMP.mkPacket [0x11; 100; 0xEE; 0x9B; 0; 0; 0; 0] querier all_hosts.
Definition specific_query_12 : IGMP.Packet :=
  IGMP.mkPacket [0x11; 100; 0xFC; 0x1B; 239; 1; 1; 1; 2; 125; 0; 0]
                querier group_A.

(** The engine after its first [Process] call (tick 10 at 100 ticks per
    second, empty queue) with groups A and B, with A alone, and with A and
    224.0.0.1 registered. *)
Definition engine_AB : IGMP.CIGMPHandler :=
  IGMP.mkHandler
    (<[ 1%positive := IGMP.mkState group_A 2 false 395 0 (Some 2%positive) ]>
       {[ 2%positive := IGMP.mkState group_B 2 false 492 0 None ]})
    (Some 1%positive) 100 10 764372000 [].
Definition engine_A : IGMP.CIGMPHandler :=
  IGMP.mkHandler {[ 1%positive := IGMP.mkState group_A 2 false 395 0 None ]}
                 (Some 1%positive) 100 10 955861201 [].
Definition engine_A_hosts : IGMP.CIGMPHandler :=
  IGMP.mkHandler
    (<[ 1%positive := IGMP.mkState group_A 2 false 395 0 (Some 2%positive) ]>
       {[ 2%positive := IGMP.mkState all_hosts 2 false 492 0 None ]})
    (Some 1%positive) 100 10 764372000 [].

(** The Leave message for group A, and the reply sent for
    [specific_query_12]. *)
Definition leave_A : IGMP.Datagram :=
  IGMP.mkDatagram group_A [0x17; 0; 0xF8; 0xFC; 239; 1; 1; 1].
Definition reply_12 : IGMP.Datagram :=
  IGMP.mkDatagram querier [0x16; 100; 0xF9; 0x98; 239; 1; 1; 1; 2; 125; 0; 0].

(** ** Destructors *)

(** [CNetConfig::~CNetConfig] (netconfig.cpp, lines 29-42): the entries are
    deleted one after the other, each link read before its cell is freed. *)
Fixpoint CNetConfig_destroy (fuel : nat) (pGroup : ptr)
    (h : gmap loc NetConfig.MulticastGroup)
    : result (gmap loc NetConfig.MulticastGroup) :=
  match fuel with
  | O => Timeout
  | S fuel' =>
      match pGroup with
      | None => Done h
      | Some _ =>
          '(l, g) ← deref h pGroup;
          let pNext := NetConfig.pNext g in
          CNetConfig_destroy fuel' pNext (delete l h)
      end
  end.

(** [CIGMPHandler::~CIGMPHandler] (igmphandler.cpp, lines 189-206): the head
    pointer is cleared first, then the sessions are deleted in list order. *)
Fixpoint CIGMPHandler_destroy_loop (fuel : nat) (pGroup : ptr)
    (h : gmap loc IGMP.MulticastGroupState)
    : result (gmap loc IGMP.MulticastGroupState) :=
  match fuel with
  | O => Timeout
  | S fuel' =>
      match pGroup with
      | None => Done h
      | Some _ =>
          '(l, s) ← deref h pGroup;
          let pNext := IGMP.pNext s in
          CIGMPHandler_destroy_loop fuel' pNext (delete l h)
      end
  end.

Definition CIGMPHandler_destroy (fuel : nat) (m : IGMP.CIGMPHandler)
    : result IGMP.CIGMPHandler :=
  let pGroup := IGMP.m_pMulticastGroupStates m in
  let m := IGMP.set_head None m in
  h ← CIGMPHandler_destroy_loop fuel pGroup (IGMP.states m);
  Done (IGMP.set_states h m).

(** ** Registry predicates *)

(** Some entry of the chain [ls] has hardware address [mac]. *)
Definition has_mac (c : NetConfig.CNetConfig) (ls : list loc) (mac : CMACAddress) : Prop :=
  ∃ l g, l ∈ ls ∧ NetConfig.groups c !! l = Some g ∧ NetConfig.pMACAddress g = mac.

(** What [EnableMulticastGroup] establishes for each entry, and between
    entries: the entry's address is multicast, its hardware address is the
    one derived from it, and no two entries share a hardware address. *)
Definition registry_inv (c : NetConfig.CNetConfig) (ls : list loc) : Prop :=
  (∀ l g, l ∈ ls → NetConfig.groups c !! l = Some g →
     IsMulticast (NetConfig.pIPAddress g) = true
     ∧ NetConfig.pMACAddress g = NetConfig.derived_mac (NetConfig.pIPAddress g))
  ∧ (∀ l1 l2 g1 g2, l1 ∈ ls → l2 ∈ ls →
       NetConfig.groups c !! l1 = Some g1 → NetConfig.groups c !! l2 = Some g2 →
       NetConfig.pMACAddress g1 = NetConfig.pMACAddress g2 → l1 = l2).

(** ** The timer flush, as predicates *)

(** The condition of line 323, and the Report of lines 326-335. *)
Definition is_due (now : Z) (s : IGMP.MulticastGroupState) : bool :=
  (0 <? IGMP.nReportsPending s) && (IGMP.nNextReportTime s <? now).

Definition report_for (s : IGMP.MulticastGroupState) : IGMP.Datagram :=
  IGMP.mkDatagram (IGMP.pIPAddress s)
    (IGMP.build_message IGMP.IGMP_TYPE_MEMBERSHIP_REPORT_V2 (IGMP.pIPAddress s)).

Definition leave_for (s : IGMP.MulticastGroupState) : IGMP.Datagram :=
  IGMP.mkDatagram (IGMP.pIPAddress s)
    (IGMP.build_message IGMP.IGMP_TYPE_LEAVE_GROUP_V2 (IGMP.pIPAddress s)).

(** What the flush makes of a session [s] that is not leave-pending. *)
Definition flushed (now : Z) (s s' : IGMP.MulticastGroupState) : Prop :=
  IGMP.pIPAddress s' = IGMP.pIPAddress s
  ∧ IGMP.bLeavePending s' = IGMP.bLeavePending s
  ∧ IGMP.nLastReportTime s' = IGMP.nLastReportTime s
  ∧ IGMP.pNext s' = IGMP.pNext s
  ∧ if is_due now s
    then IGMP.nReportsPending s' = IGMP.nReportsPending s - 1
         ∧ (if decide (IGMP.nReportsPending s = 1)
            then IGMP.nNextReportTime s' = 0
            else now ≤ IGMP.nNextReportTime s' ≤ now + 1000)
    else s' = s.

(** ** More concrete scenarios *)

(** Both sessions idle, five seconds after start. *)
Definition engine_idle : IGMP.CIGMPHandler :=
  IGMP.mkHandler
    (<[ 1%positive := IGMP.mkState group_A 0 false 0 0 (Some 2%positive) ]>
       {[ 2%positive := IGMP.mkState group_B 0 false 0 0 None ]})
    (Some 1%positive) 5000 500 SEED [].

(** ** Reconciliation, as predicates *)

(** No two sessions of the list [ls] have the same group address. *)
Definition distinct_addresses (h : gmap loc IGMP.MulticastGroupState)
    (ls : list loc) : Prop :=
  ∀ l1 l2 s1 s2, l1 ∈ ls → l2 ∈ ls → h !! l1 = Some s1 → h !! l2 = Some s2 →
    IGMP.pIPAddress s1 = IGMP.pIPAddress s2 → l1 = l2.

(** Some session of the list [ls] has the group address [ip]. *)
Definition has_session (h : gmap loc IGMP.MulticastGroupState)
    (ls : list loc) (ip : CIPAddress) : Prop :=
  ∃ l s, l ∈ ls ∧ h !! l = Some s ∧ IGMP.pIPAddress s = ip.

(** Registry and session list name the same groups. *)
Definition in_sync (c : NetConfig.CNetConfig) (gls : list loc)
    (m : IGMP.CIGMPHandler) (ls : list loc) : Prop :=
  (∀ lg g, lg ∈ gls → NetConfig.groups c !! lg = Some g →
     has_session (IGMP.states m) ls (NetConfig.pIPAddress g))
  ∧ (∀ l s, l ∈ ls → IGMP.states m !! l = Some s →
       is_member c gls (IGMP.pIPAddress s)).

(** Every session of the list has sent its reports and is not leaving. *)
Definition all_idle (m : IGMP.CIGMPHandler) (ls : list loc) : Prop :=
  ∀ l s, l ∈ ls → IGMP.states m !! l = Some s →
    IGMP.bLeavePending s = false ∧ IGMP.nReportsPending s = 0.



(** ** The receive loop, as predicates *)

(** The frames the receive loop answers at once (lines 270-279): not
    discarded, of type Membership Query, and naming a member group. *)
Definition answered (c : NetConfig.CNetConfig) (ls : list loc)
    (pkt : IGMP.Packet) : Prop :=
  ¬ dropped c ls pkt
  ∧ IGMP.hdr_nType (IGMP.Buffer pkt) = IGMP.IGMP_TYPE_MEMBERSHIP_QUERY
  ∧ is_member c ls (IGMP.ip_of_bytes (IGMP.hdr_Parameter (IGMP.Buffer pkt))).

(** The reply of lines 272-278 to the frame [pkt]. *)
Definition reply_to (pkt : IGMP.Packet) : IGMP.Datagram :=
  IGMP.mkDatagram (IGMP.SourceAddress pkt)
                  (IGMP.specific_query_reply (IGMP.Buffer pkt)).

(** A frame that does not reach the report-all pass of line 266. *)
Definition not_general (pkt : IGMP.Packet) : Prop :=
  IGMP.hdr_nType (IGMP.Buffer pkt) ≠ IGMP.IGMP_TYPE_MEMBERSHIP_QUERY
  ∨ IGMP.is_general_query (IGMP.Buffer pkt) = false.

(** [msgs] holds the replies to the answered frames of [queue], in the
    order of the queue. *)
Fixpoint replies_to (c : NetConfig.CNetConfig) (ls : list loc)
    (queue : list IGMP.Packet) (msgs : list IGMP.Datagram) : Prop :=
  match queue with
  | [] => msgs = []
  | pkt :: queue' =>
      (answered c ls pkt
       ∧ ∃ msgs', msgs = reply_to pkt :: msgs' ∧ replies_to c ls queue' msgs')
      ∨ (¬ answered c ls pkt ∧ replies_to c ls queue' msgs)
  end.

(** A report of another host for group A, with a valid checksum. *)
Definition foreign_report : IGMP.Packet :=
  IGMP.mkPacket [0x16; 0; 0xF9; 0xFC; 239; 1; 1; 1] querier group_A.

(** * Properties *)

(** ** Stores and chains *)

Lemma alloc_fresh {N} (h : gmap loc N) : h !! alloc h = None.
Proof. apply not_elem_of_dom, is_fresh. Qed.

Lemma deref_Some {N} (h : gmap loc N) l n :
  h !! l = Some n → deref h (Some l) = Done (l, n).
Proof. intros H. unfold deref. by rewrite H. Qed.

Section ChainFacts.
Context {N : Type} (next : N → ptr).
Implicit Types (h : gmap loc N) (p : ptr) (ls : list loc).

(** A chain depends only on the links of its own cells. *)
Lemma chain_ext h h' p ls :
  chain next h p ls →
  (∀ l, l ∈ ls → next <$> h' !! l = next <$> h !! l) →
  chain next h' p ls.
Proof.
  revert p. induction ls as [|l ls IH]; simpl; intros p; [done|].
  intros (-> & n & Hl & Hc) Hsame. split; [done|].
  pose proof (Hsame l ltac:(left)) as Hn. rewrite Hl in Hn.
  destruct (h' !! l) as [n'|] eqn:Hl'; simpl in Hn; [|done].
  injection Hn as Hn.
  exists n'. split; [done|]. rewrite Hn. apply IH; [done|].
  intros l0 Hin. apply Hsame. by right.
Qed.

Lemma chain_lookup h p ls l :
  chain next h p ls → l ∈ ls → is_Some (h !! l).
Proof.
  revert p. induction ls as [|l0 ls IH]; simpl; intros p Hc Hin.
  - by apply elem_of_nil in Hin.
  - destruct Hc as (-> & n & Hl & Hc).
    apply elem_of_cons in Hin as [->|Hin]; eauto.
Qed.

Lemma chain_inj h p ls ls' :
  chain next h p ls → chain next h p ls' → ls = ls'.
Proof.
  revert p ls'. induction ls as [|l ls IH]; intros p [|l' ls']; simpl.
  - done.
  - by intros -> [? _].
  - by intros [-> _] ?.
  - intros (-> & n & Hl & Hc) ([= <-] & n' & Hl' & Hc'). simplify_eq.
    f_equal. eauto.
Qed.

Lemma chain_suffix h p ls1 ls2 :
  chain next h p (ls1 ++ ls2) → ∃ q, chain next h q ls2.
Proof.
  revert p. induction ls1 as [|l ls1 IH]; simpl; intros p; [eauto|].
  intros (_ & n & _ & Hc). eauto.
Qed.

(** A chain that reaches null passes through no cell twice. *)
Lemma chain_NoDup h p ls : chain next h p ls → NoDup ls.
Proof.
  revert p. induction ls as [|l ls IH]; simpl; intros p; [constructor|].
  intros (-> & n & Hl & Hc). constructor; [|eauto].
  intros (ls1 & ls2 & ->)%list_elem_of_split.
  destruct (chain_suffix _ _ _ _ Hc) as (q & Hq). simpl in Hq.
  destruct Hq as (-> & n' & Hl' & Hc'). simplify_eq.
  pose proof (chain_inj _ _ _ _ Hc Hc') as Heq.
  apply (f_equal length) in Heq. rewrite length_app in Heq. simpl in Heq. lia.
Qed.

(** The last cell of a chain links to null. *)
Lemma chain_last h p ls l :
  chain next h p ls → last ls = Some l → ∃ n, h !! l = Some n ∧ next n = None.
Proof.
  revert p. induction ls as [|l0 ls IH]; simpl; intros p; [done|].
  intros (-> & n & Hl & Hc). destruct ls as [|l1 ls].
  - intros [= <-]. simpl in Hc. eauto.
  - intros Hlast. eapply IH; eauto.
Qed.

(** Linking a new cell behind the last one. *)
Lemma chain_snoc h p ls ll nl nl' l n :
  chain next h p ls → last ls = Some ll → h !! ll = Some nl →
  l ∉ ls → next nl' = Some l → next n = None →
  chain next (<[ll := nl']> (<[l := n]> h)) p (ls ++ [l]).
Proof.
  intros Hc. pose proof (chain_NoDup _ _ _ Hc) as Hnd. revert p Hc Hnd.
  induction ls as [|l0 ls IH]; simpl; intros p; [done|].
  intros (-> & n0 & Hl0 & Hc) Hnd Hlast Hll Hnin Hnl' Hn.
  apply NoDup_cons in Hnd as [Hl0nin Hnd].
  apply not_elem_of_cons in Hnin as [Hne Hnin].
  split; [done|]. destruct ls as [|l1 ls].
  - simplify_eq/=. exists nl'. rewrite lookup_insert_eq. split; [done|].
    rewrite Hnl'. split; [done|]. exists n.
    rewrite lookup_insert_ne, lookup_insert_eq by done. by rewrite Hn.
  - assert (ll ≠ l0) as Hne'.
    { intros ->. apply Hl0nin. change (last (l1 :: ls) = Some l0) in Hlast.
      rewrite last_lookup in Hlast. apply list_elem_of_lookup. eauto. }
    exists n0. rewrite !lookup_insert_ne by done. split; [done|].
    apply IH; done.
Qed.

Lemma scan_chain fuel h stop p ls :
  chain next h p ls → (length ls < fuel)%nat →
  scan next fuel h stop p = Done (first_match h stop ls).
Proof.
  revert p ls. induction fuel as [|fuel IH]; intros p ls Hc Hlen; [lia|].
  destruct ls as [|l ls]; simpl in *.
  - by subst.
  - destruct Hc as (-> & n & Hl & Hc). rewrite Hl.
    destruct (stop n); [done|]. apply IH; [done|lia].
Qed.

Lemma first_match_Some h stop ls l :
  first_match h stop ls = Some l →
  l ∈ ls ∧ ∃ n, h !! l = Some n ∧ stop n = true.
Proof.
  induction ls as [|l0 ls IH]; simpl; [done|].
  destruct (h !! l0) as [n|] eqn:Hl0; [|done].
  destruct (stop n) eqn:Hs.
  - intros [= <-]. split; [left|eauto].
  - intros [Hin ?]%IH. split; [by right|done].
Qed.

Lemma first_match_None h stop p ls l n :
  chain next h p ls → first_match h stop ls = None →
  l ∈ ls → h !! l = Some n → stop n = false.
Proof.
  revert p. induction ls as [|l0 ls IH]; simpl; intros p Hc Hf Hin Hl.
  - by apply elem_of_nil in Hin.
  - destruct Hc as (-> & n0 & Hl0 & Hc). rewrite Hl0 in Hf.
    destruct (stop n0) eqn:Hs; [done|].
    apply elem_of_cons in Hin as [->|Hin]; [by simplify_eq|eauto].
Qed.

End ChainFacts.

(** ** The delay generator *)

Lemma rand_Done a mn mx v a' :
  rand a mn mx = Done (v, a') →
  wrap32 (mx - mn + 1) ≠ 0 ∧
  v = wrap32 (xorshift32 a mod wrap32 (mx - mn + 1) + mn) ∧ a' = xorshift32 a.
Proof.
  unfold rand. destruct (Z.eqb_spec (wrap32 (mx - mn + 1)) 0) as [E|E]; [done|].
  intros [= <- <-]. done.
Qed.

Lemma rand_value_in_bounds a mn mx v a' :
  0 ≤ mn → mn ≤ mx → mx < 2 ^ 32 →
  rand a mn mx = Done (v, a') → mn ≤ v ≤ mx.
Proof.
  intros H0 H1 H2 (Hm & -> & _)%rand_Done. unfold wrap32 in *.
  assert (Hpos : 0 < (mx - mn + 1) mod 2 ^ 32).
  { pose proof (Z.mod_pos_bound (mx - mn + 1) (2 ^ 32)). lia. }
  assert (Hle : (mx - mn + 1) mod 2 ^ 32 ≤ mx - mn + 1).
  { apply Z.mod_le; lia. }
  pose proof (Z.mod_pos_bound (xorshift32 a) _ Hpos) as Hr.
  rewrite Z.mod_small; lia.
Qed.

Lemma rand_total a mn mx :
  0 ≤ mn → mn ≤ mx → mx < 2 ^ 32 → ¬ (mn = 0 ∧ mx = 2 ^ 32 - 1) →
  ∃ v, rand a mn mx = Done (v, xorshift32 a).
Proof.
  intros H0 H1 H2 Hfull. unfold rand, wrap32.
  rewrite Z.mod_small by lia.
  destruct (Z.eqb_spec (mx - mn + 1) 0); [lia|]. eauto.
Qed.

(** C9.  For requests [(min, max)] with [min <= max] (both [u32]), served one
    after the other from any seed: every value that [rand] returns lies in
    its request's [min .. max]; and unless a request is the full range
    [(0, 2^32 - 1)], for which [max - min + 1] wraps to 0, every call does
    return a value. *)
Theorem rand_within_bounds (a : Z) (reqs : list (Z * Z)) :
  Forall u32_range reqs →
  (∀ vs a', rand_calls a reqs = Done (vs, a') → Forall2 in_bounds reqs vs) ∧
  (Forall (λ req, ¬ full_range req) reqs →
   ∃ vs a', rand_calls a reqs = Done (vs, a')).
Proof.
  intros Hreqs. revert a.
  induction Hreqs as [|[mn mx] reqs (H0 & H1 & H2) _ IH]; intros a; simpl in *.
  - split; [intros vs a' [= <- <-]; constructor | eauto].
  - split.
    + intros vs a'.
      destruct (rand a mn mx) as [[v a1]| |] eqn:Er; try done. simpl.
      destruct (rand_calls a1 reqs) as [[vs1 a2]| |] eqn:Ec; try done. simpl.
      intros [= <- <-]. constructor.
      * apply (rand_value_in_bounds a mn mx v a1); done.
      * by apply (proj1 (IH a1) vs1 a2).
    + intros Hnf. apply Forall_cons in Hnf as [Hnf1 Hnf].
      destruct (rand_total a mn mx) as [v ->]; try done. simpl.
      destruct (IH (xorshift32 a)) as [_ IHt].
      destruct (IHt Hnf) as (vs & a' & ->). simpl. eauto.
Qed.

Lemma rand_within_bounds_witness :
  Forall2 in_bounds [(0, 1000); (5, 5); (0, 25500)] [295; 5; 24959].
Proof.
  refine (proj1 (rand_within_bounds SEED [(0, 1000); (5, 5); (0, 25500)] _)
                [295; 5; 24959] 3765145605 _).
  - repeat constructor; unfold u32_range; simpl; lia.
  - vm_compute. reflexivity.
Defined.

(** ** The registry *)

Lemma derived_mac_bytes ip :
  NetConfig.derived_mac ip = mkMAC 0x01 0x00 0x5E (ip1 ip) (ip2 ip) (ip3 ip).
Proof. by destruct ip. Qed.

(** What the code derives: the prefix and the low 24 bits of the address. *)
Lemma derived_mac_low_24_bits ip :
  ip_valid ip →
  mac_to_Z (NetConfig.derived_mac ip)
  = 0x01005E000000 + Z.land (ip_to_Z ip) (2 ^ 24 - 1).
Proof.
  intros (H0 & H1 & H2 & H3). rewrite derived_mac_bytes.
  unfold mac_to_Z, ip_to_Z, is_u8 in *. simpl.
  change (2 ^ 24 - 1) with (Z.ones 24). rewrite Z.land_ones by lia.
  replace (ip0 ip * 2 ^ 24 + ip1 ip * 2 ^ 16 + ip2 ip * 2 ^ 8 + ip3 ip)
    with ((ip1 ip * 2 ^ 16 + ip2 ip * 2 ^ 8 + ip3 ip) + ip0 ip * 2 ^ 24) by lia.
  rewrite Z.mod_add by lia. rewrite Z.mod_small by lia. lia.
Qed.

(** C5.  Evaluation at the multicast address 239.129.1.1: the array built
    by Enable and Disable is 01:00:5E:81:01:01, bit 23 of the address still
    set, where the standard mapping gives 01:00:5E:01:01:01. *)
Theorem derived_mac_keeps_bit_23 :
  IsMulticast (mkIP 239 129 1 1) = true
  ∧ NetConfig.TempMACAddress (mkIP 239 129 1 1) = [0x01; 0x00; 0x5E; 0x81; 0x01; 0x01]
  ∧ mac_to_Z (NetConfig.derived_mac (mkIP 239 129 1 1)) = 0x01005E810101
  ∧ standard_multicast_mac (mkIP 239 129 1 1) = 0x01005E010101.
Proof. repeat split; vm_compute; reflexivity. Qed.

Lemma Disable_not_multicast fuel ip c :
  IsMulticast ip = false → NetConfig.DisableMulticastGroup fuel ip c = Done c.
Proof. intros H. unfold NetConfig.DisableMulticastGroup. by rewrite H. Qed.

(** On an intact chain the loop of Disable frees the first cell with the
    hardware address and changes nothing else. *)
Lemma DisableMulticastGroup_loop_spec fuel mac h p ls :
  chain NetConfig.pNext h p ls → (length ls < fuel)%nat →
  NetConfig.DisableMulticastGroup_loop fuel mac p h
  = Done (match first_match h (NetConfig.mac_is mac) ls with
          | Some l => delete l h
          | None => h
          end).
Proof.
  revert p ls. induction fuel as [|fuel IH]; intros p ls Hc Hlen; [lia|].
  destruct ls as [|l ls]; simpl in Hc.
  - by subst.
  - destruct Hc as (-> & g & Hl & Hc). cbn [NetConfig.DisableMulticastGroup_loop].
    rewrite (deref_Some _ _ _ Hl). cbn [mbind result_bind first_match].
    rewrite Hl. unfold NetConfig.mac_is.
    destruct (mac_eqb (NetConfig.pMACAddress g) mac).
    + cbn [mbind result_bind]. by rewrite delete_insert_eq.
    + apply IH; [done|simpl in Hlen; lia].
Qed.

(** On an intact registry, Disable frees the first entry with the derived
    hardware address and assigns neither the head pointer nor any other
    entry. *)
Lemma Disable_frees_without_unlinking fuel ip c ls l :
  NetConfig.wf c ls → (length ls < fuel)%nat → IsMulticast ip = true →
  first_match (NetConfig.groups c) (NetConfig.mac_is (NetConfig.derived_mac ip)) ls
  = Some l →
  NetConfig.DisableMulticastGroup fuel ip c
  = Done (NetConfig.mkConfig (delete l (NetConfig.groups c))
                             (NetConfig.m_pMulticastGroups c)).
Proof.
  intros Hwf Hlen Hm Hf. unfold NetConfig.DisableMulticastGroup.
  rewrite Hm. simpl.
  by rewrite (DisableMulticastGroup_loop_spec _ _ _ _ ls Hwf Hlen), Hf.
Qed.

Lemma IsEnabledMulticastGroup_wf fuel c ls ip :
  NetConfig.wf c ls → (length ls < fuel)%nat →
  NetConfig.IsEnabledMulticastGroup fuel c ip
  = Done (bool_decide
            (first_match (NetConfig.groups c) (NetConfig.ip_is ip) ls ≠ None)).
Proof.
  intros Hwf Hlen. unfold NetConfig.IsEnabledMulticastGroup.
  by rewrite (scan_chain _ _ _ _ _ ls Hwf Hlen).
Qed.

(** C4.  Evaluation on the registry that holds 239.1.1.1 alone, as Enable
    builds it: Disable (239.1.1.1) frees the entry's cell, and the head
    pointer still holds the cell's address, so the list still leads to the
    entry and a later membership test reads the freed cell. *)
Theorem Disable_leaves_entry_linked :
  ∃ c c',
    NetConfig.EnableMulticastGroup 1 (mkIP 239 1 1 1) NetConfig.empty = Done c
    ∧ NetConfig.wf c [1%positive]
    ∧ NetConfig.IsEnabledMulticastGroup 2 c (mkIP 239 1 1 1) = Done true
    ∧ NetConfig.DisableMulticastGroup 2 (mkIP 239 1 1 1) c = Done c'
    ∧ NetConfig.m_pMulticastGroups c' = Some 1%positive
    ∧ NetConfig.groups c' !! 1%positive = None
    ∧ ∀ fuel,
        NetConfig.IsEnabledMulticastGroup (S fuel) c' (mkIP 239 1 1 1) = Fault
        ∧ NetConfig.IsEnabledMulticastMAC (S fuel) c'
            (NetConfig.derived_mac (mkIP 239 1 1 1)) = Fault.
Proof.
  eexists _, _. split; [vm_compute; reflexivity|].
  split; [vm_compute; eauto|].
  split; [vm_compute; reflexivity|].
  split; [vm_compute; reflexivity|].
  split; [reflexivity|]. split; [reflexivity|].
  intros fuel. split; reflexivity.
Qed.

(** ** The receive loop *)

Lemma first_match_ip_member c ls p ip :
  chain NetConfig.pNext (NetConfig.groups c) p ls →
  first_match (NetConfig.groups c) (NetConfig.ip_is ip) ls ≠ None
  ↔ is_member c ls ip.
Proof.
  intros Hc. split.
  - destruct (first_match _ _ ls) as [l|] eqn:Hf; [|done]. intros _.
    apply first_match_Some in Hf as (Hin & g & Hg & Hip).
    exists l, g. split_and!; try done.
    unfold NetConfig.ip_is, ip_eqb in Hip. by apply bool_decide_eq_true in Hip.
  - intros (l & g & Hin & Hg & Hip) Hf.
    pose proof (first_match_None _ _ _ _ _ _ g Hc Hf Hin Hg) as Hs.
    unfold NetConfig.ip_is, ip_eqb in Hs. by apply bool_decide_eq_false in Hs.
Qed.

Lemma IsEnabledMulticastGroup_member fuel c ls ip :
  NetConfig.wf c ls → (length ls < fuel)%nat →
  ∃ b, NetConfig.IsEnabledMulticastGroup fuel c ip = Done b
       ∧ (b = true ↔ is_member c ls ip).
Proof.
  intros Hwf Hlen. eexists. split; [by apply IsEnabledMulticastGroup_wf|].
  rewrite bool_decide_eq_true. by eapply first_match_ip_member.
Qed.

(** C8.  With the registry's chain intact, a frame that is shorter than the
    8-byte header, or whose destination is not a member group, or whose
    checksum does not validate, leaves the engine exactly as it was (no
    session touched, nothing sent), and the loop goes on with the rest of
    the queue. *)
Theorem dropped_frame_is_ignored (fuel : nat) (c : NetConfig.CNetConfig)
    (ls : list loc) (pkt : IGMP.Packet) (m : IGMP.CIGMPHandler) :
  NetConfig.wf c ls → (length ls < fuel)%nat → dropped c ls pkt →
  IGMP.handle_packet fuel c pkt m = Done m
  ∧ ∀ queue, IGMP.drain_queue fuel c (pkt :: queue) m
             = IGMP.drain_queue fuel c queue m.
Proof.
  intros Hwf Hlen Hdrop.
  assert (IGMP.handle_packet fuel c pkt m = Done m) as Hh.
  { unfold IGMP.handle_packet.
    destruct (IsEnabledMulticastGroup_member fuel c ls
                (IGMP.DestinationAddress pkt) Hwf Hlen) as (b & -> & Hb).
    simpl. destruct b; simpl; [|done].
    destruct (Nat.ltb_spec (length (IGMP.Buffer pkt)) IGMP.sizeof_TIGMPHeader)
      as [Hlt|Hge]; [done|].
    destruct (Z.eqb_spec (SimpleCalculate (IGMP.Buffer pkt)) CHECKSUM_OK)
      as [Hck|Hck]; simpl; [|done].
    destruct Hdrop as [Hshort|[Hnm|Hbad]].
    - unfold IGMP.sizeof_TIGMPHeader in Hge. lia.
    - destruct Hnm. by apply Hb.
    - done. }
  split; [done|]. intros queue. simpl. by rewrite Hh.
Qed.

Lemma dropped_frame_is_ignored_witness :
  IGMP.handle_packet 2 registry_A
    (IGMP.mkPacket [0x11; 100; 0; 0; 239; 1; 1; 1] querier group_A) IGMP.init
  = Done IGMP.init
  ∧ ∀ queue,
      IGMP.drain_queue 2 registry_A
        (IGMP.mkPacket [0x11; 100; 0; 0; 239; 1; 1; 1] querier group_A :: queue)
        IGMP.init
      = IGMP.drain_queue 2 registry_A queue IGMP.init.
Proof.
  apply (dropped_frame_is_ignored 2 registry_A [1%positive]).
  - vm_compute. eauto.
  - simpl. lia.
  - right. right. vm_compute. discriminate.
Defined.

(** ** The checksum *)

Lemma land_FFFF x : Z.land x 0xFFFF = x mod 65536.
Proof. change 0xFFFF with (Z.ones 16). by rewrite Z.land_ones. Qed.

Lemma shiftr_16 x : Z.shiftr x 16 = x / 65536.
Proof. by rewrite Z.shiftr_div_pow2. Qed.

Lemma fold16_spec s :
  0 ≤ s < 2 ^ 32 →
  0 ≤ fold16 s ≤ 0xFFFF ∧ (∃ k, 0 ≤ k ∧ s = fold16 s + 0xFFFF * k)
  ∧ (0 < s → 0 < fold16 s).
Proof.
  intros Hs. unfold fold16. rewrite !land_FFFF, !shiftr_16.
  change 0xFFFF with 65535.
  change (2 ^ 32) with 4294967296 in Hs.
  set (s1 := s mod 65536 + s / 65536).
  split_and!.
  - subst s1. Z.div_mod_to_equations. lia.
  - subst s1. Z.div_mod_to_equations. lia.
  - exists (s / 65536 + s1 / 65536). subst s1. Z.div_mod_to_equations. lia.
  - intros Hpos. subst s1. Z.div_mod_to_equations. lia.
Qed.

Lemma complement16 f :
  0 ≤ f ≤ 0xFFFF → Z.land (Z.lnot f) 0xFFFF = 0xFFFF - f.
Proof.
  intros Hf. rewrite land_FFFF. unfold Z.lnot.
  change 0xFFFF with 65535 in *.
  Z.div_mod_to_equations. lia.
Qed.

(** Adding the complemented sum to the words makes the whole verify. *)
Lemma checksum_complement s :
  0 < s < 2 ^ 31 →
  Z.land (Z.lnot (fold16 (s + Z.land (Z.lnot (fold16 s)) 0xFFFF))) 0xFFFF = 0.
Proof.
  intros Hs. change (2 ^ 31) with 2147483648 in Hs.
  destruct (fold16_spec s) as (Hf & (k & Hk & Hsk) & Hfpos);
    [change (2 ^ 32) with 4294967296; lia|].
  rewrite (complement16 (fold16 s)) by done.
  change 0xFFFF with 65535 in *.
  destruct (fold16_spec (s + (65535 - fold16 s))) as (Hf' & (k' & Hk' & Hsk') & Hfpos');
    [change (2 ^ 32) with 4294967296; lia|].
  change 0xFFFF with 65535 in *.
  rewrite (complement16 _) by done. change 0xFFFF with 65535 in *. lia.
Qed.

(** For a query of exactly header size the immediate reply verifies. *)
Lemma reply_to_8_byte_query_verifies b :
  length b = 8%nat → Forall is_u8 b →
  SimpleCalculate (IGMP.specific_query_reply b) = CHECKSUM_OK.
Proof.
  intros Hlen Hb.
  do 8 (destruct b as [|? b]; [done|]). destruct b; [|done].
  repeat match goal with H : Forall _ (_ :: _) |- _ =>
    apply Forall_cons in H as [? H] end.
  unfold is_u8 in *. change (2 ^ 8) with 256 in *.
  unfold IGMP.specific_query_reply, IGMP.set_nChecksum, IGMP.set_nType,
    IGMP.sizeof_TIGMPHeader, IGMP.IGMP_TYPE_MEMBERSHIP_REPORT_V2, CHECKSUM_OK.
  cbn [take list_insert insert]. change (0 / 256) with 0. change (0 mod 256) with 0.
  unfold SimpleCalculate at 1. unfold SimpleCalculate. cbn [sum16].
  set (s := 22 * 256 + z0 + (0 * 256 + 0 + (z3 * 256 + z4 + (z5 * 256 + z6 + 0)))).
  set (c := Z.land (Z.lnot (fold16 s)) 65535).
  replace (22 * 256 + z0 + (c / 256 * 256 + c mod 256 + (z3 * 256 + z4 + (z5 * 256 + z6 + 0))))
    with (s + c) by (subst s; Z.div_mod_to_equations; lia).
  subst c. apply checksum_complement. subst s. lia.
Qed.

(** ** Reconciliation *)

Import IGMP.

#[local] Arguments rand : simpl never.
#[local] Arguments alloc : simpl never.

Lemma same_session_refl s : same_session s s.
Proof. by repeat split. Qed.

Lemma same_session_trans s1 s2 s3 :
  same_session s1 s2 → same_session s2 s3 → same_session s1 s3.
Proof. unfold same_session. intros (?&?&?&?) (?&?&?&?). split_and!; congruence. Qed.

Lemma keeps_refl h : keeps h h.
Proof. intros l s Hl. exists s. split_and!; auto using same_session_refl. Qed.

Lemma keeps_trans h1 h2 h3 : keeps h1 h2 → keeps h2 h3 → keeps h1 h3.
Proof.
  intros H12 H23 l s Hl. destruct (H12 l s Hl) as (s2 & Hl2 & Hs2 & Hb2).
  destruct (H23 l s2 Hl2) as (s3 & Hl3 & Hs3 & Hb3).
  exists s3. split_and!; eauto using same_session_trans.
Qed.

Lemma keeps_preserves h h' : keeps h h' → preserves h h'.
Proof. intros Hk l s Hl. destruct (Hk l s Hl) as (s' & ? & ? & _). eauto. Qed.

Lemma preserves_trans h1 h2 h3 :
  preserves h1 h2 → preserves h2 h3 → preserves h1 h3.
Proof.
  intros H12 H23 l s Hl. destruct (H12 l s Hl) as (s2 & Hl2 & Hs2).
  destruct (H23 l s2 Hl2) as (s3 & Hl3 & Hs3).
  eauto using same_session_trans.
Qed.

Lemma preserves_None h h' l : preserves h h' → h' !! l = None → h !! l = None.
Proof.
  intros Hp Hl'. destruct (h !! l) as [s|] eqn:Hl; [|done].
  destruct (Hp l s Hl) as (s' & ? & _). congruence.
Qed.

Lemma new_session_keeps h h' l now ip s s' :
  keeps h h' → h !! l = Some s → h' !! l = Some s' →
  new_session now ip s → new_session now ip s'.
Proof.
  intros Hk Hl Hl' (Hip & Hn & Hb & Hlast & r & Hr & Hnext).
  destruct (Hk l s Hl) as (s2 & Hl2 & (?&?&?&?) & Hb2). simplify_eq.
  split_and!; try congruence; [by apply Hb2|].
  exists r. split; [done|congruence].
Qed.

Lemma marks_refl h : marks h h.
Proof. intros l s Hl. exists s. split_and!; auto using same_session_refl. Qed.

Lemma marks_trans h1 h2 h3 : marks h1 h2 → marks h2 h3 → marks h1 h3.
Proof.
  intros H12 H23 l s Hl. destruct (H12 l s Hl) as (s2 & Hl2 & Hs2 & Hn2).
  destruct (H23 l s2 Hl2) as (s3 & Hl3 & Hs3 & Hn3).
  exists s3. split_and!; [done|eauto using same_session_trans|congruence].
Qed.

Lemma marks_preserves h h' : marks h h' → preserves h h'.
Proof. intros Hk l s Hl. destruct (Hk l s Hl) as (s' & ? & ? & _). eauto. Qed.

Lemma chain_marks h h' p ls :
  marks h h' → chain pNext h p ls → chain pNext h' p ls.
Proof.
  intros Hm Hc. eapply chain_ext; [exact Hc|]. intros l Hin.
  destruct (chain_lookup _ _ _ _ _ Hc Hin) as [s Hl].
  destruct (Hm l s Hl) as (s' & Hl' & _ & Hn). rewrite Hl, Hl'. simpl. by rewrite Hn.
Qed.

Lemma marks_set_bLeavePending h l s b :
  h !! l = Some s → marks h (<[l := set_bLeavePending b s]> h).
Proof.
  intros Hl l0 s0 Hl0. destruct (decide (l0 = l)) as [->|Hne].
  - simplify_eq. rewrite lookup_insert_eq. eexists. split_and!; [done| |done].
    by repeat split.
  - rewrite lookup_insert_ne by done. eauto using same_session_refl.
Qed.

(** The first loop: the sessions of the chain are marked; addresses, counts,
    timestamps and links stay as they are. *)
Lemma mark_leave_pending_spec fuel h p pl ls :
  chain pNext h p ls → (length ls < fuel)%nat →
  ∃ h', mark_leave_pending fuel h p pl
        = Done (h', match last ls with Some l => Some l | None => pl end)
        ∧ marks h h'.
Proof.
  revert h p pl ls. induction fuel as [|fuel IH]; intros h p pl ls Hc Hlen; [lia|].
  destruct ls as [|l ls]; simpl in Hc.
  - subst. exists h. split; [done|apply marks_refl].
  - destruct Hc as (-> & s & Hl & Hc). simpl. rewrite Hl. simpl.
    pose proof (marks_set_bLeavePending h l s true Hl) as Hm1.
    destruct (IH _ (pNext s) (Some l) ls (chain_marks _ _ _ _ Hm1 Hc)
                 ltac:(simpl in Hlen; lia)) as (h' & Heq & Hm').
    exists h'. split; [|by eapply marks_trans].
    rewrite Heq. do 2 f_equal. destruct ls as [|l1 ls]; [done|].
    rewrite last_cons_cons. destruct (last (l1 :: ls)) eqn:E; [done|].
    by apply last_None in E.
Qed.

Lemma rand_delay a :
  ∃ r a', rand a 0 MAX_INITIAL_REPORT_DELAY_MS = Done (r, a') ∧ 0 ≤ r ≤ 1000.
Proof.
  unfold MAX_INITIAL_REPORT_DELAY_MS.
  destruct (rand_total a 0 1000) as [v Hv]; [lia..|].
  exists v, (xorshift32 a). split; [done|].
  eapply (rand_value_in_bounds a 0 1000); [lia..|done].
Qed.

Lemma keeps_insert_same h l s s' :
  h !! l = Some s → same_session s s' →
  (bLeavePending s = false → bLeavePending s' = false) →
  keeps h (<[l := s']> h).
Proof.
  intros Hl Hs Hb l0 s0 Hl0. destruct (decide (l0 = l)) as [->|Hne].
  - simplify_eq. rewrite lookup_insert_eq. eauto.
  - rewrite lookup_insert_ne by done. exists s0.
    split_and!; auto using same_session_refl.
Qed.

Lemma keeps_insert_fresh h l s : h !! l = None → keeps h (<[l := s]> h).
Proof.
  intros Hl l0 s0 Hl0. rewrite lookup_insert_ne by congruence.
  exists s0. split_and!; auto using same_session_refl.
Qed.

(** The body of the second loop, on an intact session list. *)
Lemma reconcile_group_spec k now g m ls :
  chain pNext (states m) (m_pMulticastGroupStates m) ls → (length ls < k)%nat →
  ∃ m' ls_new,
    reconcile_group k now g m (last ls) = Done (m', last (ls ++ ls_new))
    ∧ chain pNext (states m') (m_pMulticastGroupStates m') (ls ++ ls_new)
    ∧ keeps (states m) (states m')
    ∧ (length ls_new ≤ 1)%nat
    ∧ (∀ l, l ∈ ls_new →
         states m !! l = None
         ∧ ∃ s, states m' !! l = Some s
                ∧ new_session now (NetConfig.pIPAddress g) s)
    ∧ (∃ l s, l ∈ ls ++ ls_new ∧ states m' !! l = Some s
              ∧ pIPAddress s = NetConfig.pIPAddress g
              ∧ bLeavePending s = false).
Proof.
  intros Hc Hlen. unfold reconcile_group.
  rewrite (scan_chain _ _ _ _ _ ls Hc Hlen). cbn.
  destruct (first_match (states m) (ip_is (NetConfig.pIPAddress g)) ls)
    as [l|] eqn:Hf.
  - (* a session for the group exists *)
    apply first_match_Some in Hf as (Hin & s & Hl & Hip).
    unfold ip_is, ip_eqb in Hip. apply bool_decide_eq_true in Hip.
    rewrite (deref_Some _ _ _ Hl). simpl.
    exists (set_states (<[l := set_bLeavePending false s]> (states m)) m), [].
    rewrite app_nil_r. simpl. split_and!.
    + done.
    + eapply chain_marks; [by apply marks_set_bLeavePending|done].
    + eapply keeps_insert_same; [done|by repeat split|done].
    + lia.
    + intros l0 Hin0. by apply elem_of_nil in Hin0.
    + exists l, (set_bLeavePending false s). rewrite lookup_insert_eq. done.
  - (* no session: create one and link it behind the last *)
    destruct (rand_delay (rand_a m)) as (r & a' & -> & Hr). simpl.
    set (l := alloc (states m)).
    set (s := mkState (NetConfig.pIPAddress g) INITIAL_REPORT_COUNT false
                      (wrap64 (now + r)) 0 None).
    assert (states m !! l = None) as Hfresh by apply alloc_fresh.
    assert (l ∉ ls) as Hnin.
    { intros Hin. destruct (chain_lookup _ _ _ _ _ Hc Hin). congruence. }
    assert (new_session now (NetConfig.pIPAddress g) s) as Hnew.
    { split_and!; try done. eauto. }
    destruct (last ls) as [ll|] eqn:Hlast.
    + destruct (chain_last _ _ _ _ _ Hc Hlast) as (sl & Hll & Hnext).
      assert (ll ≠ l) as Hne by congruence.
      rewrite (deref_Some _ ll sl) by (by simpl; rewrite lookup_insert_ne). simpl.
      eexists _, [l]. rewrite last_snoc. split; [done|]. simpl. split_and!.
      * eapply chain_snoc; eauto.
      * eapply keeps_trans; [by apply keeps_insert_fresh|].
        eapply keeps_insert_same; [by rewrite lookup_insert_ne|by repeat split|done].
      * lia.
      * intros l0 ->%list_elem_of_singleton. split; [done|]. exists s.
        by rewrite lookup_insert_ne, lookup_insert_eq.
      * exists l, s. rewrite lookup_insert_ne, lookup_insert_eq by done.
        split_and!; try done. apply elem_of_app. right. by left.
    + apply last_None in Hlast. subst ls. simpl in Hc.
      eexists _, [l]. split; [done|]. simpl. split_and!.
      * done.
      * exists s. by rewrite lookup_insert_eq.
      * by apply keeps_insert_fresh.
      * lia.
      * intros l0 ->%list_elem_of_singleton. split; [done|]. exists s.
        by rewrite lookup_insert_eq.
      * exists l, s. rewrite lookup_insert_eq. split_and!; try done. by left.
Qed.

(** The second loop, over an intact registry chain [gls]. *)
Lemma reconcile_groups_spec k now reg gls :
  ∀ fuel pGroup m ls,
  chain NetConfig.pNext reg pGroup gls → (length gls < fuel)%nat →
  chain pNext (states m) (m_pMulticastGroupStates m) ls →
  (length ls + length gls < k)%nat →
  ∃ m' ls_new,
    reconcile_groups k fuel now reg pGroup m (last ls) = Done m'
    ∧ chain pNext (states m') (m_pMulticastGroupStates m') (ls ++ ls_new)
    ∧ keeps (states m) (states m')
    ∧ (∀ l, l ∈ ls_new →
         states m !! l = None
         ∧ ∃ s ip, states m' !! l = Some s ∧ new_session now ip s)
    ∧ (∀ lg g, lg ∈ gls → reg !! lg = Some g →
         ∃ l s, l ∈ ls ++ ls_new ∧ states m' !! l = Some s
                ∧ pIPAddress s = NetConfig.pIPAddress g
                ∧ bLeavePending s = false).
Proof.
  induction gls as [|lg gls IH]; intros fuel pGroup m ls Hg Hfuel Hc Hk;
    (destruct fuel as [|fuel]; [simpl in Hfuel; lia|]); simpl in Hg.
  - subst pGroup. exists m, []. rewrite app_nil_r. simpl. split_and!.
    + done.
    + done.
    + apply keeps_refl.
    + intros l Hin. by apply elem_of_nil in Hin.
    + intros lg g Hin. by apply elem_of_nil in Hin.
  - destruct Hg as (-> & g & Hlg & Hg). simpl in Hfuel, Hk.
    cbn [reconcile_groups]. rewrite (deref_Some _ _ _ Hlg). cbn [mbind result_bind].
    destruct (reconcile_group_spec k now g m ls Hc ltac:(lia))
      as (m1 & new1 & -> & Hc1 & Hk1 & Hlen1 & Hnew1 & (l1 & s1 & Hin1 & Hl1 & Hip1 & Hb1)).
    cbn [mbind result_bind].
    destruct (IH fuel (NetConfig.pNext g) m1 (ls ++ new1) Hg ltac:(lia) Hc1)
      as (m' & new2 & -> & Hc' & Hk' & Hnew2 & Hgroups).
    { rewrite length_app. lia. }
    exists m', (new1 ++ new2). rewrite app_assoc. split_and!.
    + done.
    + done.
    + by eapply keeps_trans.
    + intros l [Hin|Hin]%elem_of_app.
      * destruct (Hnew1 l Hin) as (Hnone & s & Hs & Hns). split; [done|].
        destruct (Hk' l s Hs) as (s' & Hs' & _).
        exists s', (NetConfig.pIPAddress g). split; [done|].
        by eapply new_session_keeps.
      * destruct (Hnew2 l Hin) as (Hnone & Hs). split; [|done].
        eapply preserves_None; [by apply keeps_preserves|done].
    + intros lg0 g0 [->|Hin]%elem_of_cons Hlg0.
      * simplify_eq. destruct (Hk' l1 s1 Hl1) as (s' & Hs' & (Hip' & _) & Hb').
        exists l1, s'. split_and!; [|done|congruence|by apply Hb'].
        apply elem_of_app. by left.
      * by apply (Hgroups lg0).
Qed.

(** [ProcessMulticastGroupChanges] on an intact session list [ls] and an
    intact registry [gls]: it completes; the list is [ls] followed by the
    sessions it created; what was in the store is still there as the same
    session; each created session is as lines 388-394 make it; every
    registry entry has a session with [bLeavePending] clear. *)
Lemma ProcessMulticastGroupChanges_spec fuel c gls now m ls :
  IGMP.wf m ls → NetConfig.wf c gls → (length ls + length gls < fuel)%nat →
  ∃ m' ls_new,
    ProcessMulticastGroupChanges fuel c now m = Done m'
    ∧ IGMP.wf m' (ls ++ ls_new)
    ∧ preserves (states m) (states m')
    ∧ (∀ l, l ∈ ls_new →
         states m !! l = None
         ∧ ∃ s ip, states m' !! l = Some s ∧ new_session now ip s)
    ∧ (∀ lg g, lg ∈ gls → NetConfig.groups c !! lg = Some g →
         ∃ l s, l ∈ ls ++ ls_new ∧ states m' !! l = Some s
                ∧ pIPAddress s = NetConfig.pIPAddress g
                ∧ bLeavePending s = false).
Proof.
  intros Hwf Hreg Hfuel. unfold ProcessMulticastGroupChanges.
  destruct (mark_leave_pending_spec fuel (states m) (m_pMulticastGroupStates m)
              (m_pMulticastGroupStates m) ls Hwf ltac:(lia)) as (h1 & -> & Hm1).
  cbn [mbind result_bind].
  assert (match last ls with Some l => Some l | None => m_pMulticastGroupStates m end
          = last ls) as ->.
  { destruct (last ls) eqn:E; [done|]. apply last_None in E. by subst. }
  destruct (reconcile_groups_spec fuel now (NetConfig.groups c) gls fuel
              (NetConfig.m_pMulticastGroups c) (set_states h1 m) ls Hreg
              ltac:(lia)) as (m' & ls_new & -> & Hc' & Hk' & Hnew & Hgroups).
  { simpl. by eapply chain_marks. }
  { lia. }
  simpl in *. exists m', ls_new. split_and!; try done.
  - eapply preserves_trans; [by apply marks_preserves|by apply keeps_preserves].
  - intros l Hin. destruct (Hnew l Hin) as (Hnone & Hs). split; [|done].
    eapply preserves_None; [by apply marks_preserves|done].
Qed.

(** C7.  On an intact engine and registry, for a registry entry [g] whose
    address no session of the list has, the reconciliation step completes
    and has created a session for [g]: a cell that was not in the store
    before, placed in the list behind all the sessions that were there, with
    [nReportsPending = 2], [bLeavePending = FALSE], [nLastReportTime = 0]
    and, the clock being short of wrapping, [nNextReportTime] in
    [now .. now + 1000]. *)
Theorem new_group_gets_session (fuel : nat) (c : NetConfig.CNetConfig)
    (gls : list loc) (now : Z) (m : CIGMPHandler) (ls : list loc)
    (lg : loc) (g : NetConfig.MulticastGroup) :
  IGMP.wf m ls → NetConfig.wf c gls → (length ls + length gls < fuel)%nat →
  lg ∈ gls → NetConfig.groups c !! lg = Some g →
  (∀ l s, l ∈ ls → states m !! l = Some s →
          pIPAddress s ≠ NetConfig.pIPAddress g) →
  0 ≤ now → now + 1000 < 2 ^ 64 →
  ∃ m' ls_new l s,
    ProcessMulticastGroupChanges fuel c now m = Done m'
    ∧ IGMP.wf m' (ls ++ ls_new)
    ∧ l ∈ ls_new ∧ states m !! l = None ∧ states m' !! l = Some s
    ∧ pIPAddress s = NetConfig.pIPAddress g
    ∧ nReportsPending s = 2
    ∧ bLeavePending s = false
    ∧ nLastReportTime s = 0
    ∧ now ≤ nNextReportTime s ≤ now + 1000.
Proof.
  intros Hwf Hreg Hfuel Hlg Hg Habsent Hnow Hnowrap.
  destruct (ProcessMulticastGroupChanges_spec fuel c gls now m ls Hwf Hreg Hfuel)
    as (m' & ls_new & Heq & Hwf' & Hpres & Hnew & Hgroups).
  destruct (Hgroups lg g Hlg Hg) as (l & s & Hin & Hs & Hip & Hb).
  apply elem_of_app in Hin as [Hin|Hin].
  - (* an old cell cannot carry the address *)
    destruct (chain_lookup _ _ _ _ _ Hwf Hin) as [s0 Hs0].
    destruct (Hpres l s0 Hs0) as (s' & Hs' & (Hip' & _)). simplify_eq.
    destruct (Habsent l s0 Hin Hs0). congruence.
  - destruct (Hnew l Hin) as (Hnone & s' & ip & Hs' & (_ & Hn & _ & Hlast & r & Hr & Hnext)).
    assert (s' = s) as -> by congruence.
    exists m', ls_new, l, s. split_and!; try done.
    + rewrite Hnext. unfold wrap64. rewrite Z.mod_small; lia.
    + rewrite Hnext. unfold wrap64. rewrite Z.mod_small; lia.
Qed.

Lemma new_group_gets_session_witness :
  ∃ m' ls_new l s,
    ProcessMulticastGroupChanges 2 registry_A 100 init = Done m'
    ∧ IGMP.wf m' ([] ++ ls_new)
    ∧ l ∈ ls_new ∧ states init !! l = None ∧ states m' !! l = Some s
    ∧ pIPAddress s = NetConfig.pIPAddress (entry group_A None)
    ∧ nReportsPending s = 2
    ∧ bLeavePending s = false
    ∧ nLastReportTime s = 0
    ∧ 100 ≤ nNextReportTime s ≤ 100 + 1000.
Proof.
  apply (new_group_gets_session 2 registry_A [1%positive] 100 init []
           1%positive (entry group_A None)).
  - reflexivity.
  - vm_compute. eauto.
  - simpl. lia.
  - by left.
  - reflexivity.
  - intros l s Hin. by apply elem_of_nil in Hin.
  - lia.
  - reflexivity.
Defined.

(** C10.  On an intact engine and registry the reconciliation step
    completes, and every session cell that was in the store before it is
    still there with the same group address, [nReportsPending],
    [nNextReportTime] and [nLastReportTime], whether or not the registry has
    its group. *)
Theorem reconciliation_keeps_session_fields (fuel : nat)
    (c : NetConfig.CNetConfig) (gls : list loc) (now : Z)
    (m : CIGMPHandler) (ls : list loc) :
  IGMP.wf m ls → NetConfig.wf c gls → (length ls + length gls < fuel)%nat →
  ∃ m',
    ProcessMulticastGroupChanges fuel c now m = Done m'
    ∧ ∀ l s, states m !! l = Some s →
        ∃ s', states m' !! l = Some s'
              ∧ pIPAddress s' = pIPAddress s
              ∧ nReportsPending s' = nReportsPending s
              ∧ nNextReportTime s' = nNextReportTime s
              ∧ nLastReportTime s' = nLastReportTime s.
Proof.
  intros Hwf Hreg Hfuel.
  destruct (ProcessMulticastGroupChanges_spec fuel c gls now m ls Hwf Hreg Hfuel)
    as (m' & ls_new & Heq & _ & Hpres & _).
  exists m'. split; [done|]. exact Hpres.
Qed.

Lemma reconciliation_keeps_session_fields_witness :
  ∃ m',
    ProcessMulticastGroupChanges 4 registry_A 200 engine_AB = Done m'
    ∧ ∀ l s, states engine_AB !! l = Some s →
        ∃ s', states m' !! l = Some s'
              ∧ pIPAddress s' = pIPAddress s
              ∧ nReportsPending s' = nReportsPending s
              ∧ nNextReportTime s' = nNextReportTime s
              ∧ nLastReportTime s' = nLastReportTime s.
Proof.
  apply (reconciliation_keeps_session_fields 4 registry_A [1%positive] 200
           engine_AB [1%positive; 2%positive]).
  - vm_compute. eauto 10.
  - vm_compute. eauto.
  - simpl. lia.
Defined.

(** ** Fuel

    A run that has ended (in [Done] or in [Fault]) ends the same way with
    more fuel. *)

Lemma bind_mono {A B} (r r' : result A) (k k' : A → result B) :
  (r ≠ Timeout → r' = r) →
  (∀ a, r = Done a → k a ≠ Timeout → k' a = k a) →
  r ≫= k ≠ Timeout → r' ≫= k' = r ≫= k.
Proof.
  intros Hr Hk Hnt. destruct r as [a| |]; [| |done].
  - rewrite Hr by done. simpl in *. by apply Hk.
  - by rewrite Hr.
Qed.

Lemma scan_mono {N} (next : N → ptr) fuel fuel' h stop p :
  (fuel ≤ fuel')%nat → scan next fuel h stop p ≠ Timeout →
  scan next fuel' h stop p = scan next fuel h stop p.
Proof.
  revert fuel' p. induction fuel as [|fuel IH]; intros fuel' p Hle Hnt; [done|].
  destruct fuel' as [|fuel']; [lia|]. simpl in *.
  destruct p as [l|]; [|done]. destruct (h !! l) as [n|]; [|done].
  destruct (stop n); [done|]. apply IH; [lia|done].
Qed.

Lemma IsEnabledMulticastGroup_mono fuel fuel' c ip :
  (fuel ≤ fuel')%nat → NetConfig.IsEnabledMulticastGroup fuel c ip ≠ Timeout →
  NetConfig.IsEnabledMulticastGroup fuel' c ip
  = NetConfig.IsEnabledMulticastGroup fuel c ip.
Proof.
  intros Hle. unfold NetConfig.IsEnabledMulticastGroup.
  apply bind_mono; [by apply scan_mono|done].
Qed.

Lemma mark_leave_pending_mono fuel fuel' h p pl :
  (fuel ≤ fuel')%nat → mark_leave_pending fuel h p pl ≠ Timeout →
  mark_leave_pending fuel' h p pl = mark_leave_pending fuel h p pl.
Proof.
  revert fuel' h p pl.
  induction fuel as [|fuel IH]; intros fuel' h p pl Hle Hnt; [done|].
  destruct fuel' as [|fuel']; [lia|]. simpl in *.
  destruct p as [l|]; [|done]. revert Hnt.
  apply bind_mono; [done|]. intros [? s] _. apply IH. lia.
Qed.

Lemma reconcile_group_mono k k' now g m pl :
  (k ≤ k')%nat → reconcile_group k now g m pl ≠ Timeout →
  reconcile_group k' now g m pl = reconcile_group k now g m pl.
Proof.
  intros Hle. unfold reconcile_group.
  apply bind_mono; [by apply scan_mono|done].
Qed.

Lemma reconcile_groups_mono k k' fuel fuel' now reg p m pl :
  (k ≤ k')%nat → (fuel ≤ fuel')%nat →
  reconcile_groups k fuel now reg p m pl ≠ Timeout →
  reconcile_groups k' fuel' now reg p m pl
  = reconcile_groups k fuel now reg p m pl.
Proof.
  intros Hk. revert fuel' p m pl.
  induction fuel as [|fuel IH]; intros fuel' p m pl Hle Hnt; [done|].
  destruct fuel' as [|fuel']; [lia|]. simpl in *.
  destruct p as [l|]; [|done]. revert Hnt.
  apply bind_mono; [done|]. intros [? g] _.
  apply bind_mono; [by apply reconcile_group_mono|].
  intros [m1 pl1] _. apply IH. lia.
Qed.

Lemma ProcessMulticastGroupChanges_mono fuel fuel' c now m :
  (fuel ≤ fuel')%nat → ProcessMulticastGroupChanges fuel c now m ≠ Timeout →
  ProcessMulticastGroupChanges fuel' c now m
  = ProcessMulticastGroupChanges fuel c now m.
Proof.
  intros Hle. unfold ProcessMulticastGroupChanges.
  apply bind_mono; [by apply mark_leave_pending_mono|].
  intros [h pl] _. by apply reconcile_groups_mono.
Qed.

Lemma ProcessMulticastGroupReportAll_loop_mono fuel fuel' now d p m :
  (fuel ≤ fuel')%nat →
  ProcessMulticastGroupReportAll_loop fuel now d p m ≠ Timeout →
  ProcessMulticastGroupReportAll_loop fuel' now d p m
  = ProcessMulticastGroupReportAll_loop fuel now d p m.
Proof.
  revert fuel' p m.
  induction fuel as [|fuel IH]; intros fuel' p m Hle Hnt; [done|].
  destruct fuel' as [|fuel']; [lia|]. simpl in *.
  destruct p as [l|]; [|done]. revert Hnt.
  apply bind_mono; [done|]. intros [? s] _.
  destruct (nReportsPending s =? 0).
  - apply bind_mono; [done|]. intros [r a'] _. apply IH. lia.
  - apply IH. lia.
Qed.

Lemma handle_packet_mono fuel fuel' c pkt m :
  (fuel ≤ fuel')%nat → handle_packet fuel c pkt m ≠ Timeout →
  handle_packet fuel' c pkt m = handle_packet fuel c pkt m.
Proof.
  intros Hle. unfold handle_packet.
  apply bind_mono; [by apply IsEnabledMulticastGroup_mono|].
  intros member _.
  repeat match goal with |- context [if ?b then _ else _] => destruct b end;
    try done.
  - by apply ProcessMulticastGroupReportAll_loop_mono.
  - apply bind_mono; [by apply IsEnabledMulticastGroup_mono|done].
Qed.

Lemma drain_queue_mono fuel fuel' c queue m :
  (fuel ≤ fuel')%nat → drain_queue fuel c queue m ≠ Timeout →
  drain_queue fuel' c queue m = drain_queue fuel c queue m.
Proof.
  intros Hle. revert m. induction queue as [|pkt queue IH]; intros m; [done|].
  simpl. apply bind_mono; [by apply handle_packet_mono|]. intros m1 _. apply IH.
Qed.

Lemma SendPendingReportsAndLeaves_loop_mono fuel fuel' now p pp m :
  (fuel ≤ fuel')%nat →
  SendPendingReportsAndLeaves_loop fuel now p pp m ≠ Timeout →
  SendPendingReportsAndLeaves_loop fuel' now p pp m
  = SendPendingReportsAndLeaves_loop fuel now p pp m.
Proof.
  revert fuel' p pp m.
  induction fuel as [|fuel IH]; intros fuel' p pp m Hle Hnt; [done|].
  destruct fuel' as [|fuel']; [lia|]. simpl in *.
  destruct p as [l|]; [|done]. revert Hnt.
  apply bind_mono; [done|]. intros [? s] _.
  apply bind_mono; [done|]. intros [m1 p1] _.
  apply bind_mono; [done|]. intros [? s1] _. apply IH. lia.
Qed.

Lemma Process_mono fuel fuel' HZ ticks c queue m :
  (fuel ≤ fuel')%nat → Process fuel HZ ticks c queue m ≠ Timeout →
  Process fuel' HZ ticks c queue m = Process fuel HZ ticks c queue m.
Proof.
  intros Hle. unfold Process.
  apply bind_mono; [done|]. intros m0 _.
  apply bind_mono; [by apply ProcessMulticastGroupChanges_mono|]. intros m1 _.
  apply bind_mono; [by apply drain_queue_mono|]. intros m2 _.
  by apply SendPendingReportsAndLeaves_loop_mono.
Qed.

(** ** Scenarios *)

Lemma first_Process_AB : Process 3 100 10 registry_AB [] init = Done engine_AB.
Proof. vm_compute. reflexivity. Qed.

Lemma first_Process_A : Process 2 100 10 registry_A [] init = Done engine_A.
Proof. vm_compute. reflexivity. Qed.

Lemma first_Process_A_hosts :
  Process 3 100 10 registry_A_hosts [] init = Done engine_A_hosts.
Proof. vm_compute. reflexivity. Qed.

Lemma registries_from_Enable :
  NetConfig.EnableMulticastGroup 1 group_A NetConfig.empty = Done registry_A
  ∧ NetConfig.EnableMulticastGroup 2 group_B registry_A = Done registry_AB
  ∧ NetConfig.EnableMulticastGroup 2 all_hosts registry_A = Done registry_A_hosts.
Proof. repeat split; vm_compute; reflexivity. Qed.

(** *** The report-all pass *)

(** A session with reports still owed holds the pass where it is. *)
Lemma ProcessMulticastGroupReportAll_loop_stuck fuel now d l s m :
  states m !! l = Some s → nReportsPending s ≠ 0 →
  ProcessMulticastGroupReportAll_loop fuel now d (Some l) m = Timeout.
Proof.
  intros Hl Hn. induction fuel as [|fuel IH]; [done|].
  simpl. rewrite Hl. simpl.
  destruct (Z.eqb_spec (nReportsPending s) 0); [done|]. exact IH.
Qed.

Lemma handle_packet_general_query fuel c pkt m :
  NetConfig.IsEnabledMulticastGroup fuel c (DestinationAddress pkt) = Done true →
  (length (Buffer pkt) <? sizeof_TIGMPHeader)%nat = false →
  SimpleCalculate (Buffer pkt) = CHECKSUM_OK →
  hdr_nType (Buffer pkt) = IGMP_TYPE_MEMBERSHIP_QUERY →
  is_general_query (Buffer pkt) = true →
  handle_packet fuel c pkt m
  = ProcessMulticastGroupReportAll fuel (m_nTimestampMs m)
      (hdr_nCode (Buffer pkt) * 100) m.
Proof.
  intros Hmem Hlen Hck Hty Hgq. unfold handle_packet.
  rewrite Hmem. cbn [mbind result_bind negb]. rewrite Hlen, Hck, Hty, Hgq.
  done.
Qed.

(** C1.  Evaluation from the engine as constructed, with 239.1.1.1 and
    224.0.0.1 registered and one valid general query in the queue: the
    reconciliation step creates the sessions with [nReportsPending = 2], the
    report-all pass stays at the first of them, and [Process] does not end
    with any amount of fuel. *)
Theorem general_query_never_completes :
  ∀ fuel, Process fuel 100 10 registry_A_hosts [general_query] init = Timeout.
Proof.
  intros fuel. destruct (decide (fuel < 3)%nat) as [Hlt|Hge].
  - do 3 (destruct fuel as [|fuel]; [vm_compute; reflexivity|]). lia.
  - unfold Process.
    change (advance_clock 100 10 init) with (Done (set_clock 100 10 init)).
    cbn [mbind result_bind].
    change (m_nTimestampMs (set_clock 100 10 init)) with 100.
    assert (ProcessMulticastGroupChanges 3 registry_A_hosts 100
              (set_clock 100 10 init) = Done engine_A_hosts) as Hrec
      by (vm_compute; reflexivity).
    rewrite (ProcessMulticastGroupChanges_mono 3 fuel)
      by (lia || by rewrite Hrec).
    rewrite Hrec. cbn [mbind result_bind drain_queue].
    rewrite handle_packet_general_query.
    + unfold ProcessMulticastGroupReportAll.
      by rewrite (ProcessMulticastGroupReportAll_loop_stuck _ _ _ 1%positive
                    (mkState group_A 2 false 395 0 (Some 2%positive))).
    + rewrite (IsEnabledMulticastGroup_mono 3 fuel) by (lia || done).
      vm_compute. reflexivity.
    + reflexivity.
    + reflexivity.
    + reflexivity.
    + reflexivity.
Qed.

(** *** The timer flush *)

(** After a Leave, line 321 sets [pState] to the successor and line 351
    steps once more: the successor's cell is read only for its link, and the
    loop goes on behind it. *)
Lemma flush_passes_over_successor fuel now l1 s1 l2 s2 m :
  states m !! l1 = Some s1 → bLeavePending s1 = true →
  pNext s1 = Some l2 → l2 ≠ l1 → states m !! l2 = Some s2 →
  SendPendingReportsAndLeaves_loop (S fuel) now (Some l1) None m
  = SendPendingReportsAndLeaves_loop fuel now (pNext s2) (Some l2)
      (set_states (delete l1 (states m))
         (set_head (Some l2)
            (SendWithOptions
               (mkDatagram (pIPAddress s1)
                  (build_message IGMP_TYPE_LEAVE_GROUP_V2 (pIPAddress s1))) m))).
Proof.
  intros Hl1 Hb Hn Hne Hl2. cbn [SendPendingReportsAndLeaves_loop].
  rewrite (deref_Some _ _ _ Hl1). cbn [mbind result_bind].
  unfold flush_session. rewrite Hb, Hn. cbn [mbind result_bind].
  rewrite (deref_Some _ l2 s2); [done|].
  simpl. by rewrite lookup_delete_ne.
Qed.

(** A leave-pending session without successor: after its removal line 351
    reads through the null pointer. *)
Lemma flush_faults_at_last_leave fuel now l s m :
  states m !! l = Some s → bLeavePending s = true → pNext s = None →
  SendPendingReportsAndLeaves_loop (S fuel) now (Some l) None m = Fault.
Proof.
  intros Hl Hb Hn. cbn [SendPendingReportsAndLeaves_loop].
  rewrite (deref_Some _ _ _ Hl). cbn [mbind result_bind].
  unfold flush_session. rewrite Hb, Hn. done.
Qed.

(** C2.  Evaluation on the engine holding sessions for 239.1.1.1 and
    239.2.2.2, both removed from the registry (tick 20, 200 ms): [Process]
    ends having sent the Leave of 239.1.1.1 alone; the session of 239.2.2.2,
    next in the list, was passed over: no Leave for it, and it is still in
    the list with [bLeavePending] set. *)
Theorem flush_skips_session_after_leave :
  ∀ fuel,
    Process (3 + fuel) 100 20 NetConfig.empty [] engine_AB
    = Done (mkHandler {[ 2%positive := mkState group_B 2 true 492 0 None ]}
                      (Some 2%positive) 200 20 764372000 [leave_A]).
Proof.
  intros fuel. rewrite (Process_mono 3 (3 + fuel)); [|lia|];
    vm_compute; [reflexivity|discriminate].
Qed.

(** C3.  Evaluation on the engine holding sessions for 239.1.1.1 and
    239.2.2.2 with 239.2.2.2 removed from the registry, and on the engine
    holding the session of 239.1.1.1 alone with the registry empty: the last
    session of the list is leave-pending, and [Process] faults (never ends
    in [Done]) once the flush reaches it. *)
Theorem leave_of_last_session_faults :
  ∀ fuel,
    Process (3 + fuel) 100 20 registry_A [] engine_AB = Fault
    ∧ Process (2 + fuel) 100 20 NetConfig.empty [] engine_A = Fault.
Proof.
  intros fuel. split.
  - rewrite (Process_mono 3 (3 + fuel)); [|lia|];
      vm_compute; [reflexivity|discriminate].
  - rewrite (Process_mono 2 (2 + fuel)); [|lia|];
      vm_compute; [reflexivity|discriminate].
Qed.

(** *** The reply to a specific query *)

(** A valid query naming a registered group is answered with one message,
    to the query's source, of the length received. *)
Lemma handle_packet_specific_query fuel c pkt m :
  NetConfig.IsEnabledMulticastGroup fuel c (DestinationAddress pkt) = Done true →
  (length (Buffer pkt) <? sizeof_TIGMPHeader)%nat = false →
  SimpleCalculate (Buffer pkt) = CHECKSUM_OK →
  hdr_nType (Buffer pkt) = IGMP_TYPE_MEMBERSHIP_QUERY →
  is_general_query (Buffer pkt) = false →
  NetConfig.IsEnabledMulticastGroup fuel c
    (ip_of_bytes (hdr_Parameter (Buffer pkt))) = Done true →
  handle_packet fuel c pkt m
  = Done (SendWithOptions
            (mkDatagram (SourceAddress pkt) (specific_query_reply (Buffer pkt))) m)
  ∧ length (specific_query_reply (Buffer pkt)) = length (Buffer pkt).
Proof.
  intros Hmem Hlen Hck Hty Hgq Hnamed. split.
  - unfold handle_packet.
    rewrite Hmem. cbn [mbind result_bind negb]. rewrite Hlen, Hck, Hty, Hgq.
    cbn [Z.eqb negb]. rewrite Z.eqb_refl, Hnamed. done.
  - unfold specific_query_reply, set_nChecksum, set_nType.
    by rewrite !length_insert.
Qed.

(** The earlier handler's reply to the same 12-byte query does verify. *)
Lemma v1_reply_verifies :
  SimpleCalculate (v1_query_reply (Buffer specific_query_12)) = CHECKSUM_OK.
Proof. vm_compute. reflexivity. Qed.

(** C6.  Evaluation on a valid 12-byte query naming the registered group
    239.1.1.1: [Process] sends one message, to the query's source, of 12
    bytes; its checksum field was computed over the first 8 bytes, and the
    checksum routine over the 12 bytes sent gives 0xFD82, not 0. *)
Theorem specific_query_reply_fails_verification :
  ∀ fuel,
    SimpleCalculate (Buffer specific_query_12) = CHECKSUM_OK
    ∧ Process (2 + fuel) 100 10 registry_A [specific_query_12] init
      = Done (SendWithOptions reply_12 engine_A)
    ∧ dest reply_12 = SourceAddress specific_query_12
    ∧ length (payload reply_12) = length (Buffer specific_query_12)
    ∧ SimpleCalculate (take 8 (payload reply_12)) = CHECKSUM_OK
    ∧ SimpleCalculate (payload reply_12) = 0xFD82.
Proof.
  intros fuel. split_and!; try (vm_compute; reflexivity).
Qed.

(** * Further properties of the registry *)

Section MoreChainFacts.
Context {N : Type} (next : N → ptr).
Implicit Types (h : gmap loc N) (p : ptr) (ls : list loc).

Lemma first_match_is_Some h stop p ls :
  chain next h p ls →
  first_match h stop ls ≠ None
  ↔ ∃ l n, l ∈ ls ∧ h !! l = Some n ∧ stop n = true.
Proof.
  intros Hc. split.
  - destruct (first_match h stop ls) as [l|] eqn:Hf; [|done]. intros _.
    apply first_match_Some in Hf as (? & n & ? & ?). eauto.
  - intros (l & n & Hin & Hl & Hs) Hf.
    pose proof (first_match_None next _ _ _ _ _ n Hc Hf Hin Hl). congruence.
Qed.

(** The first cell without successor is the last cell of the chain. *)
Lemma first_match_last h p ls :
  chain next h p ls →
  first_match h (λ n, bool_decide (next n = None)) ls = last ls.
Proof.
  revert p. induction ls as [|l ls IH]; simpl; intros p; [done|].
  intros (-> & n & Hl & Hc). rewrite Hl. destruct ls as [|l1 ls].
  - simpl in Hc. by rewrite bool_decide_eq_true_2.
  - rewrite bool_decide_eq_false_2.
    + rewrite (IH _ Hc). by rewrite last_cons_cons.
    + simpl in Hc. destruct Hc as [-> _]. done.
Qed.

Lemma chain_insert_fresh h p ls l n :
  chain next h p ls → h !! l = None → chain next (<[l := n]> h) p ls.
Proof.
  intros Hc Hl. eapply chain_ext; [exact Hc|]. intros l0 Hin.
  rewrite lookup_insert_ne; [done|]. intros ->.
  destruct (chain_lookup next _ _ _ _ Hc Hin). congruence.
Qed.

(** Deleting the cells of a chain in order. *)
Lemma chain_delete_tail h p l ls :
  chain next h p ls → l ∉ ls → chain next (delete l h) p ls.
Proof.
  intros Hc Hnin. eapply chain_ext; [exact Hc|]. intros l0 Hin.
  rewrite lookup_delete_ne; [done|]. by intros ->.
Qed.

End MoreChainFacts.

Lemma first_match_mac_has_mac c ls p mac :
  chain NetConfig.pNext (NetConfig.groups c) p ls →
  first_match (NetConfig.groups c) (NetConfig.mac_is mac) ls ≠ None
  ↔ has_mac c ls mac.
Proof.
  intros Hc. rewrite (first_match_is_Some _ _ _ _ _ Hc). unfold has_mac.
  split; intros (l & g & Hin & Hg & Hs); exists l, g; split_and!; try done.
  - unfold NetConfig.mac_is, mac_eqb in Hs. by apply bool_decide_eq_true in Hs.
  - unfold NetConfig.mac_is, mac_eqb. by apply bool_decide_eq_true.
Qed.

Lemma IsEnabledMulticastMAC_has_mac fuel c ls mac :
  NetConfig.wf c ls → (length ls < fuel)%nat →
  ∃ b, NetConfig.IsEnabledMulticastMAC fuel c mac = Done b
       ∧ (b = true ↔ has_mac c ls mac).
Proof.
  intros Hwf Hlen. unfold NetConfig.IsEnabledMulticastMAC.
  rewrite (scan_chain _ _ _ _ _ ls Hwf Hlen). eexists. split; [done|].
  rewrite bool_decide_eq_true. by eapply first_match_mac_has_mac.
Qed.

(** Enable of a multicast address whose derived hardware address no entry
    has: a new cell is linked behind the last entry. *)
Lemma Enable_appends fuel ip c ls :
  NetConfig.wf c ls → (length ls < fuel)%nat → IsMulticast ip = true →
  ¬ has_mac c ls (NetConfig.derived_mac ip) →
  ∃ c' l,
    NetConfig.EnableMulticastGroup fuel ip c = Done c'
    ∧ NetConfig.groups c !! l = None
    ∧ NetConfig.wf c' (ls ++ [l])
    ∧ NetConfig.groups c' !! l
      = Some (NetConfig.mkGroup (NetConfig.derived_mac ip) ip None)
    ∧ ∀ l0 g0, NetConfig.groups c !! l0 = Some g0 →
        ∃ g0', NetConfig.groups c' !! l0 = Some g0'
               ∧ NetConfig.pMACAddress g0' = NetConfig.pMACAddress g0
               ∧ NetConfig.pIPAddress g0' = NetConfig.pIPAddress g0.
Proof.
  intros Hwf Hlen Hm Hnew. unfold NetConfig.EnableMulticastGroup.
  rewrite Hm. cbn [negb].
  rewrite (scan_chain _ _ _ _ _ ls Hwf Hlen).
  destruct (first_match (NetConfig.groups c)
              (NetConfig.mac_is (NetConfig.derived_mac ip)) ls) eqn:Hf.
  { destruct Hnew. eapply first_match_mac_has_mac; [exact Hwf|]. by rewrite Hf. }
  cbn [mbind result_bind].
  set (l := alloc (NetConfig.groups c)).
  set (g := NetConfig.mkGroup (NetConfig.derived_mac ip) ip None).
  assert (NetConfig.groups c !! l = None) as Hfresh by apply alloc_fresh.
  assert (l ∉ ls) as Hnin.
  { intros Hin. destruct (chain_lookup _ _ _ _ _ Hwf Hin). congruence. }
  pose proof (chain_insert_fresh _ _ _ _ l g Hwf Hfresh) as Hwf1.
  rewrite (scan_chain _ _ _ _ _ ls Hwf1 Hlen).
  unfold NetConfig.is_last. rewrite (first_match_last _ _ _ _ Hwf1).
  destruct (last ls) as [ll|] eqn:Hlast; cbn [mbind result_bind].
  - destruct (chain_last _ _ _ _ _ Hwf Hlast) as (gl & Hll & Hnext).
    assert (ll ≠ l) as Hne by congruence.
    rewrite (deref_Some _ ll gl) by (by rewrite lookup_insert_ne).
    cbn [mbind result_bind]. eexists _, l. split; [done|]. split; [done|].
    unfold NetConfig.wf. simpl. split_and!.
    + eapply chain_snoc; eauto.
    + by rewrite lookup_insert_ne, lookup_insert_eq.
    + intros l0 g0 Hl0. destruct (decide (l0 = ll)) as [->|Hne0].
      * simplify_eq. rewrite lookup_insert_eq. eauto.
      * rewrite !lookup_insert_ne by congruence. eauto.
  - apply last_None in Hlast. subst ls. unfold NetConfig.wf in *. simpl in Hwf.
    eexists _, l. split; [done|]. split; [done|]. simpl. split_and!.
    + done.
    + exists g. by rewrite lookup_insert_eq.
    + by rewrite lookup_insert_eq.
    + intros l0 g0 Hl0. rewrite lookup_insert_ne by congruence. eauto.
Qed.

(** X1.  On an intact registry, Enable of a multicast address whose derived
    hardware address no entry has completes and appends one entry, in a cell
    that was free: the list is the old one followed by the new entry, which
    holds the address and its derived hardware address; every old entry
    keeps its two addresses; and both membership tests now answer TRUE for
    the address. *)
Theorem Enable_registers_group (fuel : nat) (ip : CIPAddress)
    (c : NetConfig.CNetConfig) (ls : list loc) :
  NetConfig.wf c ls → (length ls + 1 < fuel)%nat → IsMulticast ip = true →
  ¬ has_mac c ls (NetConfig.derived_mac ip) →
  ∃ c' l,
    NetConfig.EnableMulticastGroup fuel ip c = Done c'
    ∧ NetConfig.groups c !! l = None
    ∧ NetConfig.wf c' (ls ++ [l])
    ∧ NetConfig.groups c' !! l
      = Some (NetConfig.mkGroup (NetConfig.derived_mac ip) ip None)
    ∧ (∀ l0 g0, NetConfig.groups c !! l0 = Some g0 →
        ∃ g0', NetConfig.groups c' !! l0 = Some g0'
               ∧ NetConfig.pMACAddress g0' = NetConfig.pMACAddress g0
               ∧ NetConfig.pIPAddress g0' = NetConfig.pIPAddress g0)
    ∧ NetConfig.IsEnabledMulticastGroup fuel c' ip = Done true
    ∧ NetConfig.IsEnabledMulticastMAC fuel c' (NetConfig.derived_mac ip) = Done true.
Proof.
  intros Hwf Hlen Hm Hnew.
  destruct (Enable_appends fuel ip c ls Hwf ltac:(lia) Hm Hnew)
    as (c' & l & Heq & Hfresh & Hwf' & Hl & Hold).
  assert (length (ls ++ [l]) < fuel)%nat as Hlen' by (rewrite length_app; simpl; lia).
  assert (l ∈ ls ++ [l]) as Hin by (apply elem_of_app; right; by left).
  exists c', l. split_and!; try done.
  - destruct (IsEnabledMulticastGroup_member fuel c' _ ip Hwf' Hlen') as (b & -> & Hb).
    f_equal. apply Hb. by exists l, (NetConfig.mkGroup (NetConfig.derived_mac ip) ip None).
  - destruct (IsEnabledMulticastMAC_has_mac fuel c' _ (NetConfig.derived_mac ip) Hwf' Hlen')
      as (b & -> & Hb).
    f_equal. apply Hb. by exists l, (NetConfig.mkGroup (NetConfig.derived_mac ip) ip None).
Qed.

Lemma Enable_registers_group_witness :
  ∃ c' l,
    NetConfig.EnableMulticastGroup 3 group_B registry_A = Done c'
    ∧ NetConfig.groups registry_A !! l = None
    ∧ NetConfig.wf c' ([1%positive] ++ [l])
    ∧ NetConfig.groups c' !! l
      = Some (NetConfig.mkGroup (NetConfig.derived_mac group_B) group_B None)
    ∧ (∀ l0 g0, NetConfig.groups registry_A !! l0 = Some g0 →
        ∃ g0', NetConfig.groups c' !! l0 = Some g0'
               ∧ NetConfig.pMACAddress g0' = NetConfig.pMACAddress g0
               ∧ NetConfig.pIPAddress g0' = NetConfig.pIPAddress g0)
    ∧ NetConfig.IsEnabledMulticastGroup 3 c' group_B = Done true
    ∧ NetConfig.IsEnabledMulticastMAC 3 c' (NetConfig.derived_mac group_B) = Done true.
Proof.
  apply (Enable_registers_group 3 group_B registry_A [1%positive]).
  - vm_compute. eauto.
  - simpl. lia.
  - reflexivity.
  - intros (l & g & Hin & Hg & Hmac).
    apply list_elem_of_singleton in Hin as ->.
    vm_compute in Hg. injection Hg as <-. vm_compute in Hmac. discriminate.
Defined.

Lemma Enable_noop fuel ip c ls :
  NetConfig.wf c ls → (length ls < fuel)%nat →
  IsMulticast ip = false ∨ has_mac c ls (NetConfig.derived_mac ip) →
  NetConfig.EnableMulticastGroup fuel ip c = Done c.
Proof.
  intros Hwf Hlen Hcase. unfold NetConfig.EnableMulticastGroup.
  destruct (IsMulticast ip) eqn:Hm; [|done]. cbn [negb].
  destruct Hcase as [?|Hmac]; [done|].
  rewrite (scan_chain _ _ _ _ _ ls Hwf Hlen).
  apply (first_match_mac_has_mac c ls _ _ Hwf) in Hmac.
  by destruct (first_match _ _ ls).
Qed.

(** X2.  Enable is a no-op when the address is not multicast, and, on an
    intact registry, when some entry already has the derived hardware
    address (whatever that entry's IP address is): the registry is returned
    as it was. *)
Theorem Enable_dedups_by_hardware_address (fuel : nat) (ip : CIPAddress)
    (c : NetConfig.CNetConfig) (ls : list loc) :
  NetConfig.wf c ls → (length ls < fuel)%nat →
  IsMulticast ip = false ∨ has_mac c ls (NetConfig.derived_mac ip) →
  NetConfig.EnableMulticastGroup fuel ip c = Done c.
Proof. apply Enable_noop. Qed.

Lemma Enable_dedups_by_hardware_address_witness :
  NetConfig.EnableMulticastGroup 2 (mkIP 224 1 1 1) registry_A = Done registry_A.
Proof.
  apply (Enable_dedups_by_hardware_address 2 (mkIP 224 1 1 1) registry_A [1%positive]).
  - vm_compute. eauto.
  - simpl. lia.
  - right. exists 1%positive, (entry group_A None). split_and!; [by left|done|done].
Defined.

(** X3.  Two addresses with the same derived hardware address shadow each
    other: on an intact registry where an entry has the hardware address
    derived from [ip] but no entry has the address [ip] itself, Enable ([ip])
    changes nothing and [IsEnabledMulticastGroup (ip)] is still FALSE
    afterwards. *)
Theorem Enable_shadowed_by_collision (fuel : nat) (ip : CIPAddress)
    (c : NetConfig.CNetConfig) (ls : list loc) :
  NetConfig.wf c ls → (length ls < fuel)%nat →
  has_mac c ls (NetConfig.derived_mac ip) → ¬ is_member c ls ip →
  NetConfig.EnableMulticastGroup fuel ip c = Done c
  ∧ NetConfig.IsEnabledMulticastGroup fuel c ip = Done false.
Proof.
  intros Hwf Hlen Hmac Hnm. split.
  - apply (Enable_noop fuel ip c ls); auto.
  - destruct (IsEnabledMulticastGroup_member fuel c ls ip Hwf Hlen) as (b & -> & Hb).
    f_equal. destruct b; [|done]. destruct Hnm. by apply Hb.
Qed.

Lemma Enable_shadowed_by_collision_witness :
  NetConfig.EnableMulticastGroup 2 (mkIP 224 1 1 1) registry_A = Done registry_A
  ∧ NetConfig.IsEnabledMulticastGroup 2 registry_A (mkIP 224 1 1 1) = Done false.
Proof.
  apply (Enable_shadowed_by_collision 2 (mkIP 224 1 1 1) registry_A [1%positive]).
  - vm_compute. eauto.
  - simpl. lia.
  - exists 1%positive, (entry group_A None). split_and!; [by left|done|done].
  - intros (l & g & Hin & Hg & Hip).
    apply list_elem_of_singleton in Hin as ->.
    vm_compute in Hg. injection Hg as <-. discriminate.
Defined.

(** X4.  Enable keeps the registry's invariant: if the list is intact, every
    entry's address is multicast with its hardware address derived from it,
    and no two entries share a hardware address, then the same holds after
    Enable of any address, and the list is the old one or the old one with
    one entry appended. *)
Theorem Enable_keeps_registry_invariant (fuel : nat) (ip : CIPAddress)
    (c : NetConfig.CNetConfig) (ls : list loc) :
  NetConfig.wf c ls → registry_inv c ls → (length ls < fuel)%nat →
  ∃ c' ls',
    NetConfig.EnableMulticastGroup fuel ip c = Done c'
    ∧ NetConfig.wf c' ls' ∧ registry_inv c' ls'
    ∧ (ls' = ls ∨ ∃ l, ls' = ls ++ [l]).
Proof.
  intros Hwf [Hderived Huniq] Hlen.
  destruct (IsMulticast ip) eqn:Hm.
  2:{ exists c, ls. split_and!; [|done|done|by left].
      apply (Enable_noop fuel ip c ls); auto. }
  destruct (first_match (NetConfig.groups c)
              (NetConfig.mac_is (NetConfig.derived_mac ip)) ls) as [lm|] eqn:Hf.
  { exists c, ls. split_and!; [|done|done|by left].
    apply (Enable_noop fuel ip c ls); auto. right.
    eapply first_match_mac_has_mac; [exact Hwf|]. by rewrite Hf. }
  assert (¬ has_mac c ls (NetConfig.derived_mac ip)) as Hnew.
  { intros Hmac. apply (first_match_mac_has_mac c ls _ _ Hwf) in Hmac. congruence. }
  destruct (Enable_appends fuel ip c ls Hwf Hlen Hm Hnew)
    as (c' & l & Heq & Hfresh & Hwf' & Hl & Hold).
  assert (∀ l0 g0', l0 ∈ ls → NetConfig.groups c' !! l0 = Some g0' →
            ∃ g0, NetConfig.groups c !! l0 = Some g0
                  ∧ NetConfig.pMACAddress g0' = NetConfig.pMACAddress g0
                  ∧ NetConfig.pIPAddress g0' = NetConfig.pIPAddress g0) as Hback.
  { intros l0 g0' Hin Hl0'. destruct (chain_lookup _ _ _ _ _ Hwf Hin) as [g0 Hl0].
    destruct (Hold l0 g0 Hl0) as (g1 & Hl1 & ? & ?). simplify_eq. eauto. }
  exists c', (ls ++ [l]). split_and!; [done|done| |eauto]. split.
  - intros l0 g0' [Hin|Hin]%elem_of_app Hl0'.
    + destruct (Hback l0 g0' Hin Hl0') as (g0 & Hl0 & -> & ->). eauto.
    + apply list_elem_of_singleton in Hin as ->. by simplify_eq.
  - intros l1 l2 g1 g2 Hin1 Hin2 Hl1 Hl2 Heqmac.
    apply elem_of_app in Hin1 as [Hin1|Hin1]; apply elem_of_app in Hin2 as [Hin2|Hin2].
    + destruct (Hback _ _ Hin1 Hl1) as (g1' & ? & Hm1 & _).
      destruct (Hback _ _ Hin2 Hl2) as (g2' & ? & Hm2 & _).
      eapply Huniq; eauto. congruence.
    + apply list_elem_of_singleton in Hin2 as ->. simplify_eq. simpl in Heqmac.
      destruct (Hback _ _ Hin1 Hl1) as (g1' & ? & Hm1 & _).
      destruct Hnew. exists l1, g1'. split_and!; [done|done|congruence].
    + apply list_elem_of_singleton in Hin1 as ->. simplify_eq. simpl in Heqmac.
      destruct (Hback _ _ Hin2 Hl2) as (g2' & ? & Hm2 & _).
      destruct Hnew. exists l2, g2'. split_and!; [done|done|congruence].
    + apply list_elem_of_singleton in Hin1 as ->.
      by apply list_elem_of_singleton in Hin2 as ->.
Qed.

Lemma registry_inv_A : registry_inv registry_A [1%positive].
Proof.
  split.
  - intros l g ->%list_elem_of_singleton Hg. vm_compute in Hg.
    injection Hg as <-. split; reflexivity.
  - intros l1 l2 g1 g2 ->%list_elem_of_singleton ->%list_elem_of_singleton. done.
Qed.

Lemma Enable_keeps_registry_invariant_witness :
  ∃ c' ls',
    NetConfig.EnableMulticastGroup 2 group_B registry_A = Done c'
    ∧ NetConfig.wf c' ls' ∧ registry_inv c' ls'
    ∧ (ls' = [1%positive] ∨ ∃ l, ls' = [1%positive] ++ [l]).
Proof.
  apply (Enable_keeps_registry_invariant 2 group_B registry_A [1%positive]).
  - vm_compute. eauto.
  - exact registry_inv_A.
  - simpl. lia.
Defined.

(** X5.  On a registry that satisfies the invariant, a group that
    [IsEnabledMulticastGroup] reports enabled is also accepted by
    [IsEnabledMulticastMAC] under its derived hardware address. *)
Theorem enabled_group_has_enabled_mac (fuel : nat) (ip : CIPAddress)
    (c : NetConfig.CNetConfig) (ls : list loc) :
  NetConfig.wf c ls → registry_inv c ls → (length ls < fuel)%nat →
  NetConfig.IsEnabledMulticastGroup fuel c ip = Done true →
  NetConfig.IsEnabledMulticastMAC fuel c (NetConfig.derived_mac ip) = Done true.
Proof.
  intros Hwf [Hderived _] Hlen Hen.
  destruct (IsEnabledMulticastGroup_member fuel c ls ip Hwf Hlen) as (b & Hb & Hiff).
  rewrite Hen in Hb. injection Hb as <-.
  destruct (proj1 Hiff eq_refl) as (l & g & Hin & Hg & Hip).
  destruct (IsEnabledMulticastMAC_has_mac fuel c ls (NetConfig.derived_mac ip) Hwf Hlen)
    as (b & -> & Hb).
  f_equal. apply Hb. exists l, g. split_and!; [done|done|].
  destruct (Hderived l g Hin Hg) as [_ ->]. by rewrite Hip.
Qed.

Lemma enabled_group_has_enabled_mac_witness :
  NetConfig.IsEnabledMulticastMAC 2 registry_A (NetConfig.derived_mac group_A)
  = Done true.
Proof.
  apply (enabled_group_has_enabled_mac 2 group_A registry_A [1%positive]).
  - vm_compute. eauto.
  - exact registry_inv_A.
  - simpl. lia.
  - vm_compute. reflexivity.
Defined.



(** X7.  Disable of an address whose derived hardware address no entry has
    (in particular on the empty registry) returns the registry as it was. *)
Theorem Disable_without_match_is_noop (fuel : nat) (ip : CIPAddress)
    (c : NetConfig.CNetConfig) (ls : list loc) :
  NetConfig.wf c ls → (length ls < fuel)%nat →
  ¬ has_mac c ls (NetConfig.derived_mac ip) →
  NetConfig.DisableMulticastGroup fuel ip c = Done c.
Proof.
  intros Hwf Hlen Hnew. unfold NetConfig.DisableMulticastGroup.
  destruct (IsMulticast ip); [|done]. cbn [negb].
  rewrite (DisableMulticastGroup_loop_spec _ _ _ _ ls Hwf Hlen).
  destruct (first_match (NetConfig.groups c)
              (NetConfig.mac_is (NetConfig.derived_mac ip)) ls) eqn:Hf.
  { destruct Hnew. eapply first_match_mac_has_mac; [exact Hwf|]. by rewrite Hf. }
  by destruct c.
Qed.

Lemma Disable_without_match_is_noop_witness :
  NetConfig.DisableMulticastGroup 2 group_B registry_A = Done registry_A.
Proof.
  apply (Disable_without_match_is_noop 2 group_B registry_A [1%positive]).
  - vm_compute. eauto.
  - simpl. lia.
  - intros (l & g & Hin & Hg & Hmac).
    apply list_elem_of_singleton in Hin as ->.
    vm_compute in Hg. injection Hg as <-. vm_compute in Hmac. discriminate.
Defined.

(** * The destructors *)

(** X8.  On an intact registry the destructor's loop completes; afterwards
    every cell of the list is freed and every other cell of the store is as
    it was. *)
Theorem CNetConfig_destroy_frees_entries (fuel : nat)
    (h : gmap loc NetConfig.MulticastGroup) (p : ptr) (ls : list loc) :
  chain NetConfig.pNext h p ls → (length ls < fuel)%nat →
  ∃ h', CNetConfig_destroy fuel p h = Done h'
        ∧ (∀ l, l ∈ ls → h' !! l = None)
        ∧ (∀ l, l ∉ ls → h' !! l = h !! l).
Proof.
  revert h p ls. induction fuel as [|fuel IH]; intros h p ls Hc Hlen; [lia|].
  destruct ls as [|l ls]; simpl in Hc.
  - subst. exists h. split_and!; [done| |done].
    intros l Hin. by apply elem_of_nil in Hin.
  - destruct Hc as (-> & g & Hl & Hc). cbn [CNetConfig_destroy].
    rewrite (deref_Some _ _ _ Hl). cbn [mbind result_bind].
    pose proof (chain_NoDup _ _ _ _ (conj eq_refl (ex_intro _ g (conj Hl Hc))
                  : chain NetConfig.pNext h (Some l) (l :: ls))) as Hnd.
    apply NoDup_cons in Hnd as [Hnin _].
    destruct (IH (delete l h) (NetConfig.pNext g) ls
                (chain_delete_tail _ _ _ _ _ Hc Hnin) ltac:(simpl in Hlen; lia))
      as (h' & -> & Hin' & Hout').
    exists h'. split_and!; [done| |].
    + intros l0 [->|Hin]%elem_of_cons; [|by apply Hin'].
      rewrite Hout' by done. apply lookup_delete_eq.
    + intros l0 [Hne Hnin0]%not_elem_of_cons.
      rewrite Hout' by done. by rewrite lookup_delete_ne.
Qed.

Lemma CNetConfig_destroy_frees_entries_witness :
  ∃ h', CNetConfig_destroy 3 (NetConfig.m_pMulticastGroups registry_AB)
          (NetConfig.groups registry_AB) = Done h'
        ∧ (∀ l, l ∈ [1%positive; 2%positive] → h' !! l = None)
        ∧ (∀ l, l ∉ [1%positive; 2%positive] →
             h' !! l = NetConfig.groups registry_AB !! l).
Proof.
  apply (CNetConfig_destroy_frees_entries 3 _ _ [1%positive; 2%positive]).
  - vm_compute. eauto 10.
  - simpl. lia.
Defined.

Lemma CIGMPHandler_destroy_loop_spec fuel h p ls :
  chain pNext h p ls → (length ls < fuel)%nat →
  ∃ h', CIGMPHandler_destroy_loop fuel p h = Done h'
        ∧ (∀ l, l ∈ ls → h' !! l = None)
        ∧ (∀ l, l ∉ ls → h' !! l = h !! l).
Proof.
  revert h p ls. induction fuel as [|fuel IH]; intros h p ls Hc Hlen; [lia|].
  destruct ls as [|l ls]; simpl in Hc.
  - subst. exists h. split_and!; [done| |done].
    intros l Hin. by apply elem_of_nil in Hin.
  - destruct Hc as (-> & s & Hl & Hc). cbn [CIGMPHandler_destroy_loop].
    rewrite (deref_Some _ _ _ Hl). cbn [mbind result_bind].
    pose proof (chain_NoDup _ _ _ _ (conj eq_refl (ex_intro _ s (conj Hl Hc))
                  : chain pNext h (Some l) (l :: ls))) as Hnd.
    apply NoDup_cons in Hnd as [Hnin _].
    destruct (IH (delete l h) (pNext s) ls
                (chain_delete_tail _ _ _ _ _ Hc Hnin) ltac:(simpl in Hlen; lia))
      as (h' & -> & Hin' & Hout').
    exists h'. split_and!; [done| |].
    + intros l0 [->|Hin]%elem_of_cons; [|by apply Hin'].
      rewrite Hout' by done. apply lookup_delete_eq.
    + intros l0 [Hne Hnin0]%not_elem_of_cons.
      rewrite Hout' by done. by rewrite lookup_delete_ne.
Qed.

(** X9.  On an engine whose session list is intact the destructor
    completes: the head pointer is null, every session of the list is freed,
    and no other cell of the store is touched. *)
Theorem CIGMPHandler_destroy_frees_sessions (fuel : nat) (m : CIGMPHandler)
    (ls : list loc) :
  IGMP.wf m ls → (length ls < fuel)%nat →
  ∃ m', CIGMPHandler_destroy fuel m = Done m'
        ∧ m_pMulticastGroupStates m' = None
        ∧ IGMP.wf m' []
        ∧ (∀ l, l ∈ ls → states m' !! l = None)
        ∧ (∀ l, l ∉ ls → states m' !! l = states m !! l).
Proof.
  intros Hwf Hlen. unfold CIGMPHandler_destroy.
  destruct (CIGMPHandler_destroy_loop_spec fuel (states m)
              (m_pMulticastGroupStates m) ls Hwf Hlen) as (h' & Heq & Hin & Hout).
  simpl. rewrite Heq. cbn [mbind result_bind]. eexists. split; [done|].
  simpl. done.
Qed.

Lemma CIGMPHandler_destroy_frees_sessions_witness :
  ∃ m', CIGMPHandler_destroy 3 engine_AB = Done m'
        ∧ m_pMulticastGroupStates m' = None
        ∧ IGMP.wf m' []
        ∧ (∀ l, l ∈ [1%positive; 2%positive] → states m' !! l = None)
        ∧ (∀ l, l ∉ [1%positive; 2%positive] →
             states m' !! l = states engine_AB !! l).
Proof.
  apply (CIGMPHandler_destroy_frees_sessions 3 engine_AB [1%positive; 2%positive]).
  - vm_compute. eauto 10.
  - simpl. lia.
Defined.

(** * The generator's state *)

Lemma lxor_u32 a b :
  0 ≤ a < 2 ^ 32 → 0 ≤ b < 2 ^ 32 → 0 ≤ Z.lxor a b < 2 ^ 32.
Proof.
  intros Ha Hb. assert (0 ≤ Z.lxor a b) as Hnn by (apply Z.lxor_nonneg; lia).
  split; [done|]. destruct (decide (Z.lxor a b = 0)) as [->|Hnz]; [done|].
  apply Z.log2_lt_pow2; [lia|].
  pose proof (Z.log2_lxor a b ltac:(lia) ltac:(lia)) as Hlog.
  assert (Z.log2 a < 32) by (destruct (decide (a = 0)) as [->|?];
    [done|apply Z.log2_lt_pow2; lia]).
  assert (Z.log2 b < 32) by (destruct (decide (b = 0)) as [->|?];
    [done|apply Z.log2_lt_pow2; lia]).
  lia.
Qed.

Lemma eq_shl_wrap_zero x k :
  0 ≤ x < 2 ^ 32 → 0 < k → x = wrap32 (Z.shiftl x k) → x = 0.
Proof.
  intros Hx Hk Heq. apply Z.bits_inj_0. intros n.
  destruct (decide (n < 0)) as [Hneg|Hn%Z.nlt_ge]; [by apply Z.testbit_neg_r|].
  revert n Hn. apply (Zlt_0_ind (λ n, Z.testbit x n = false)).
  intros n IH Hn. destruct (decide (32 ≤ n)) as [Hbig|Hsmall].
  - destruct (decide (x = 0)) as [->|Hnz]; [apply Z.bits_0|].
    apply Z.bits_above_log2; [lia|].
    assert (Z.log2 x < 32) by (apply Z.log2_lt_pow2; lia). lia.
  - rewrite Heq. unfold wrap32. rewrite Z.mod_pow2_bits_low by lia.
    rewrite Z.shiftl_spec by lia.
    destruct (decide (n < k)) as [Hlt|Hge]; [apply Z.testbit_neg_r; lia|].
    apply IH. lia.
Qed.

Lemma eq_shr_zero x k : 0 ≤ x → 0 < k → x = Z.shiftr x k → x = 0.
Proof.
  intros Hx Hk Heq. rewrite Z.shiftr_div_pow2 in Heq by lia.
  assert (2 ≤ 2 ^ k) by (change 2 with (2 ^ 1) at 1; apply Z.pow_le_mono_r; lia).
  destruct (decide (x = 0)) as [|Hnz]; [done|].
  assert (x / 2 ^ k < x) by (apply Z.div_lt; lia). lia.
Qed.

Lemma xorshift32_nonzero a : 0 < a < 2 ^ 32 → 0 < xorshift32 a < 2 ^ 32.
Proof.
  intros Ha. unfold xorshift32. cbv zeta.
  assert (∀ z, 0 ≤ wrap32 z < 2 ^ 32) as Hw
    by (intros z; unfold wrap32; apply Z.mod_pos_bound; lia).
  set (x1 := Z.lxor a (wrap32 (Z.shiftl a 13))).
  assert (0 < x1 < 2 ^ 32) as H1.
  { pose proof (lxor_u32 a _ ltac:(lia) (Hw (Z.shiftl a 13))) as Hr.
    destruct (decide (x1 = 0)) as [Hz|]; [|subst x1; lia].
    apply Z.lxor_eq in Hz. apply eq_shl_wrap_zero in Hz; lia. }
  set (x2 := Z.lxor x1 (Z.shiftr x1 17)).
  assert (0 ≤ Z.shiftr x1 17 < 2 ^ 32) as Hs.
  { rewrite Z.shiftr_div_pow2 by lia. split; [apply Z.div_pos; lia|].
    apply Z.div_lt_upper_bound; lia. }
  assert (0 < x2 < 2 ^ 32) as H2.
  { pose proof (lxor_u32 x1 _ ltac:(lia) Hs) as Hr.
    destruct (decide (x2 = 0)) as [Hz|]; [|subst x2; lia].
    apply Z.lxor_eq in Hz. apply eq_shr_zero in Hz; lia. }
  pose proof (lxor_u32 x2 _ ltac:(lia) (Hw (Z.shiftl x2 5))) as Hr.
  destruct (decide (Z.lxor x2 (wrap32 (Z.shiftl x2 5)) = 0)) as [Hz|]; [|lia].
  apply Z.lxor_eq in Hz. apply eq_shl_wrap_zero in Hz; lia.
Qed.

(** X10.  The generator's state never becomes zero: from a non-zero [u32]
    seed (as the initial 0xABCD1234 is), after any sequence of calls that
    return, the state is again a non-zero [u32]. *)
Theorem rand_state_never_zero (a : Z) (reqs : list (Z * Z)) (vs : list Z) (a' : Z) :
  0 < a < 2 ^ 32 → rand_calls a reqs = Done (vs, a') → 0 < a' < 2 ^ 32.
Proof.
  revert a vs. induction reqs as [|[mn mx] reqs IH]; intros a vs Ha; simpl.
  - by intros [= _ <-].
  - destruct (rand a mn mx) as [[v a1]| |] eqn:Er; try done. simpl.
    destruct (rand_calls a1 reqs) as [[vs1 a2]| |] eqn:Ec; try done. simpl.
    intros [= _ <-]. apply rand_Done in Er as (_ & _ & ->).
    eapply IH; [|exact Ec]. by apply xorshift32_nonzero.
Qed.

Lemma rand_state_never_zero_witness : 0 < 3765145605 < 2 ^ 32.
Proof.
  apply (rand_state_never_zero SEED [(0, 1000); (5, 5); (0, 25500)] [295; 5; 24959]).
  - unfold SEED. lia.
  - vm_compute. reflexivity.
Defined.

(** X11.  Zero is a fixed point of the generator: with the state at 0 every
    call returns [min] and leaves the state at 0 (for [min <= max] short of
    the full [u32] range). *)
Theorem rand_zero_state_returns_min (mn mx : Z) :
  0 ≤ mn → mn ≤ mx → mx < 2 ^ 32 → ¬ (mn = 0 ∧ mx = 2 ^ 32 - 1) →
  rand 0 mn mx = Done (mn, 0).
Proof.
  intros H0 H1 H2 Hfull. destruct (rand_total 0 mn mx) as [v Hv]; try done.
  rewrite Hv. apply rand_Done in Hv as (_ & -> & _).
  change (xorshift32 0) with 0. rewrite Z.mod_0_l.
  - unfold wrap32. by rewrite Z.mod_small by lia.
  - unfold wrap32. rewrite Z.mod_small by lia. lia.
Qed.

Lemma rand_zero_state_returns_min_witness : rand 0 0 1000 = Done (0, 0).
Proof. apply (rand_zero_state_returns_min 0 1000); lia. Defined.

(** * The report-all pass on idle sessions *)

Lemma rand_bounded a d :
  0 ≤ d < 2 ^ 32 - 1 →
  ∃ r, rand a 0 d = Done (r, xorshift32 a) ∧ 0 ≤ r ≤ d.
Proof.
  intros Hd. destruct (rand_total a 0 d) as [v Hv]; [lia..|].
  exists v. split; [done|]. eapply (rand_value_in_bounds a 0 d); [lia..|done].
Qed.

Lemma ReportAll_loop_idle now d :
  0 ≤ d < 2 ^ 32 - 1 → 0 ≤ now → now + d < 2 ^ 64 →
  ∀ ls fuel p m,
  chain pNext (states m) p ls → (length ls < fuel)%nat →
  (∀ l s, l ∈ ls → states m !! l = Some s → nReportsPending s = 0) →
  ∃ m',
    ProcessMulticastGroupReportAll_loop fuel now d p m = Done m'
    ∧ chain pNext (states m') p ls
    ∧ m_pMulticastGroupStates m' = m_pMulticastGroupStates m
    ∧ sent m' = sent m
    ∧ m_nTimestampMs m' = m_nTimestampMs m
    ∧ (∀ l s, l ∈ ls → states m !! l = Some s →
         ∃ s', states m' !! l = Some s'
               ∧ nReportsPending s' = 1
               ∧ now ≤ nNextReportTime s' ≤ now + d
               ∧ pIPAddress s' = pIPAddress s
               ∧ bLeavePending s' = bLeavePending s
               ∧ nLastReportTime s' = nLastReportTime s)
    ∧ (∀ l, l ∉ ls → states m' !! l = states m !! l).
Proof.
  intros Hd Hnow Hwrap.
  induction ls as [|l ls IH]; intros fuel p m Hc Hlen Hidle;
    (destruct fuel as [|fuel]; [simpl in Hlen; lia|]).
  - simpl in Hc. subst p. exists m. split_and!; try done.
    intros l s Hin. by apply elem_of_nil in Hin.
  - pose proof (chain_NoDup _ _ _ _ Hc) as Hnd.
    apply NoDup_cons in Hnd as [Hnin _].
    simpl in Hc. destruct Hc as (-> & s & Hl & Hc).
    cbn [ProcessMulticastGroupReportAll_loop].
    rewrite (deref_Some _ _ _ Hl). cbn [mbind result_bind].
    rewrite (Hidle l s ltac:(left) Hl). cbn [Z.eqb].
    destruct (rand_bounded (rand_a m) d Hd) as (r & -> & Hr).
    cbn [mbind result_bind].
    set (s' := set_report 1 (wrap64 (now + r)) s).
    set (m1 := set_rand_a (xorshift32 (rand_a m))
                 (set_states (<[l := s']> (states m)) m)).
    assert (∀ l0, l0 ≠ l → states m1 !! l0 = states m !! l0) as Hother.
    { intros l0 Hne. subst m1. simpl. by rewrite lookup_insert_ne. }
    assert (chain pNext (states m1) (pNext s') ls) as Hc1.
    { eapply chain_ext; [exact Hc|]. intros l0 Hin.
      rewrite Hother; [done|]. by intros ->. }
    destruct (IH fuel (pNext s') m1 Hc1 ltac:(simpl in Hlen; lia))
      as (m' & -> & Hc' & Hhead & Hsent & Hclock & Hin' & Hout').
    { intros l0 s0 Hin Hl0. apply (Hidle l0 s0); [by right|].
      rewrite <- Hother; [done|]. by intros ->. }
    exists m'. split_and!; try done.
    + simpl. split; [done|]. exists s'. split; [|done].
      rewrite Hout' by done. subst m1. simpl. by rewrite lookup_insert_eq.
    + intros l0 s0 [->|Hin]%elem_of_cons Hl0.
      * simplify_eq. exists s'. split_and!; try done.
        -- rewrite Hout' by done. subst m1. simpl. by rewrite lookup_insert_eq.
        -- simpl. unfold wrap64. rewrite Z.mod_small; lia.
        -- simpl. unfold wrap64. rewrite Z.mod_small; lia.
      * apply (Hin' l0 s0 Hin). rewrite Hother; [done|]. by intros ->.
    + intros l0 [Hne Hnin0]%not_elem_of_cons. rewrite Hout' by done.
      by apply Hother.
Qed.

(** X12.  When every session of an intact list is idle ([nReportsPending]
    0), [ProcessMulticastGroupReportAll] completes: every session then has
    [nReportsPending = 1] and [nNextReportTime] in [now .. now + nMaxDelay]
    (clock short of wrapping), with its address, leave flag and last-report
    time as before; the list, the rest of the store, the clock and the
    messages sent are unchanged. *)
Theorem ReportAll_schedules_idle_sessions (fuel : nat) (now d : Z)
    (m : CIGMPHandler) (ls : list loc) :
  IGMP.wf m ls → (length ls < fuel)%nat →
  (∀ l s, l ∈ ls → states m !! l = Some s → nReportsPending s = 0) →
  0 ≤ d < 2 ^ 32 - 1 → 0 ≤ now → now + d < 2 ^ 64 →
  ∃ m',
    ProcessMulticastGroupReportAll fuel now d m = Done m'
    ∧ IGMP.wf m' ls
    ∧ sent m' = sent m
    ∧ m_nTimestampMs m' = m_nTimestampMs m
    ∧ (∀ l s, l ∈ ls → states m !! l = Some s →
         ∃ s', states m' !! l = Some s'
               ∧ nReportsPending s' = 1
               ∧ now ≤ nNextReportTime s' ≤ now + d
               ∧ pIPAddress s' = pIPAddress s
               ∧ bLeavePending s' = bLeavePending s
               ∧ nLastReportTime s' = nLastReportTime s)
    ∧ (∀ l, l ∉ ls → states m' !! l = states m !! l).
Proof.
  intros Hwf Hlen Hidle Hd Hnow Hwrap.
  destruct (ReportAll_loop_idle now d Hd Hnow Hwrap ls fuel _ m Hwf Hlen Hidle)
    as (m' & Heq & Hc' & Hhead & Hsent & Hclock & Hin' & Hout').
  exists m'. split_and!; try done. unfold IGMP.wf. by rewrite Hhead.
Qed.

Ltac cells :=
  repeat match goal with
  | H : _ ∈ _ :: _ |- _ => apply elem_of_cons in H as [->|H]
  | H : _ ∈ [] |- _ => by apply elem_of_nil in H
  end.

Lemma ReportAll_schedules_idle_sessions_witness :
  ∃ m',
    ProcessMulticastGroupReportAll 3 5000 10000 engine_idle = Done m'
    ∧ IGMP.wf m' [1%positive; 2%positive]
    ∧ sent m' = sent engine_idle
    ∧ m_nTimestampMs m' = m_nTimestampMs engine_idle
    ∧ (∀ l s, l ∈ [1%positive; 2%positive] → states engine_idle !! l = Some s →
         ∃ s', states m' !! l = Some s'
               ∧ nReportsPending s' = 1
               ∧ 5000 ≤ nNextReportTime s' ≤ 5000 + 10000
               ∧ pIPAddress s' = pIPAddress s
               ∧ bLeavePending s' = bLeavePending s
               ∧ nLastReportTime s' = nLastReportTime s)
    ∧ (∀ l, l ∉ [1%positive; 2%positive] → states m' !! l = states engine_idle !! l).
Proof.
  apply (ReportAll_schedules_idle_sessions 3 5000 10000 engine_idle
           [1%positive; 2%positive]).
  - vm_compute. eauto 10.
  - simpl. lia.
  - intros l s Hin Hl. cells; vm_compute in Hl; by injection Hl as <-.
  - lia.
  - lia.
  - reflexivity.
Defined.

(** * The timer flush without removals *)

Lemma flush_session_no_leave now l s pPrev m :
  states m !! l = Some s → bLeavePending s = false →
  0 ≤ nReportsPending s < 2 ^ 32 → 0 ≤ now → now + 1000 < 2 ^ 64 →
  ∃ m1 s1,
    flush_session now l s pPrev m = Done (m1, Some l)
    ∧ states m1 = <[l := s1]> (states m)
    ∧ flushed now s s1
    ∧ m_pMulticastGroupStates m1 = m_pMulticastGroupStates m
    ∧ m_nTimestampMs m1 = m_nTimestampMs m
    ∧ m_nLastTicksMs m1 = m_nLastTicksMs m
    ∧ sent m1 = sent m ++ (if is_due now s then [report_for s] else [])
    ∧ (is_due now s = false → rand_a m1 = rand_a m).
Proof.
  intros Hl Hb Hn Hnow Hwrap. unfold flush_session, flushed, is_due. rewrite Hb.
  destruct ((0 <? nReportsPending s) && (nNextReportTime s <? now)) eqn:Hdue.
  - apply andb_prop in Hdue as [Hpos%Z.ltb_lt _].
    assert (wrap32 (nReportsPending s - 1) = nReportsPending s - 1) as Hw
      by (unfold wrap32; apply Z.mod_small; lia).
    rewrite Hw. destruct (Z.ltb_spec 0 (nReportsPending s - 1)) as [Hmore|Hlast].
    + destruct (rand_delay (rand_a (SendWithOptions (report_for s) m)))
        as (r & a' & Hrand & Hr).
      unfold report_for in Hrand. rewrite Hrand. cbn [mbind result_bind].
      eexists _, _. split; [done|]. simpl. split_and!; try done.
      rewrite decide_False by lia. unfold set_report, wrap64. simpl.
      rewrite Z.mod_small; lia.
    + eexists _, _. split; [done|]. simpl. split_and!; try done.
      by rewrite decide_True by lia.
  - exists m, s. split; [done|]. split_and!; try done.
    + by rewrite insert_id.
    + by rewrite app_nil_r.
Qed.

Lemma Forall2_lookup_ext {N} (h h' : gmap loc N) ls ns :
  Forall2 (λ l n, h !! l = Some n) ls ns →
  (∀ l, l ∈ ls → h' !! l = h !! l) →
  Forall2 (λ l n, h' !! l = Some n) ls ns.
Proof.
  induction 1 as [|l n ls ns Hl _ IH]; intros Hsame; constructor.
  - rewrite Hsame; [done|by left].
  - apply IH. intros l0 Hin. apply Hsame. by right.
Qed.

Lemma flush_loop_no_leave now :
  0 ≤ now → now + 1000 < 2 ^ 64 →
  ∀ ls ss fuel p pPrev m,
  chain pNext (states m) p ls → (length ls < fuel)%nat →
  Forall2 (λ l s, states m !! l = Some s) ls ss →
  Forall (λ s, bLeavePending s = false ∧ 0 ≤ nReportsPending s < 2 ^ 32) ss →
  ∃ m',
    SendPendingReportsAndLeaves_loop fuel now p pPrev m = Done m'
    ∧ chain pNext (states m') p ls
    ∧ m_pMulticastGroupStates m' = m_pMulticastGroupStates m
    ∧ m_nTimestampMs m' = m_nTimestampMs m
    ∧ m_nLastTicksMs m' = m_nLastTicksMs m
    ∧ sent m' = sent m ++ map report_for (List.filter (is_due now) ss)
    ∧ Forall2 (λ l s, ∃ s', states m' !! l = Some s' ∧ flushed now s s') ls ss
    ∧ (∀ l, l ∉ ls → states m' !! l = states m !! l)
    ∧ (Forall (λ s, is_due now s = false) ss → rand_a m' = rand_a m).
Proof.
  intros Hnow Hwrap.
  induction ls as [|l ls IH]; intros ss fuel p pPrev m Hc Hlen Hss Hok;
    (destruct fuel as [|fuel]; [simpl in Hlen; lia|]).
  - apply Forall2_nil_inv_l in Hss as ->. simpl in Hc. subst p.
    exists m. simpl. rewrite app_nil_r. split_and!; try done.
  - apply Forall2_cons_inv_l in Hss as (s & ss' & Hl & Hss & ->).
    apply Forall_cons in Hok as [[Hb Hn] Hok].
    pose proof (chain_NoDup _ _ _ _ Hc) as Hnd.
    apply NoDup_cons in Hnd as [Hnin _].
    simpl in Hc. destruct Hc as (-> & s0 & Hl0 & Hc).
    assert (s0 = s) as -> by congruence. clear Hl0.
    cbn [SendPendingReportsAndLeaves_loop].
    rewrite (deref_Some _ _ _ Hl). cbn [mbind result_bind].
    destruct (flush_session_no_leave now l s pPrev m Hl Hb Hn Hnow Hwrap)
      as (m1 & s1 & -> & Hst1 & Hfl & Hhead1 & Hclock1 & Hticks1 & Hsent1 & Hra1).
    cbn [mbind result_bind].
    assert (states m1 !! l = Some s1) as Hl1 by (by rewrite Hst1, lookup_insert_eq).
    rewrite (deref_Some _ _ _ Hl1). cbn [mbind result_bind].
    assert (∀ l0, l0 ≠ l → states m1 !! l0 = states m !! l0) as Hother.
    { intros l0 Hne. by rewrite Hst1, lookup_insert_ne. }
    assert (pNext s1 = pNext s) as Hnext by apply Hfl.
    assert (chain pNext (states m1) (pNext s1) ls) as Hc1.
    { rewrite Hnext. eapply chain_ext; [exact Hc|]. intros l0 Hin.
      rewrite Hother; [done|]. by intros ->. }
    destruct (IH ss' fuel (pNext s1) (Some l) m1 Hc1 ltac:(simpl in Hlen; lia))
      as (m' & -> & Hc' & Hhead & Hclock & Hticks & Hsent & Hin' & Hout' & Hra');
      [|done|].
    { eapply Forall2_lookup_ext; [exact Hss|]. intros l0 Hin.
      apply Hother. by intros ->. }
    exists m'. split_and!; try congruence.
    + simpl. split; [done|]. exists s1. split; [by rewrite Hout'|done].
    + rewrite Hsent, Hsent1. cbn [List.filter].
      destruct (is_due now s); simpl; by rewrite <- ?app_assoc.
    + constructor; [|done]. exists s1. split; [by rewrite Hout'|done].
    + intros l0 [Hne Hnin0]%not_elem_of_cons. rewrite Hout' by done.
      by apply Hother.
    + intros [Hnd1 Hnd]%Forall_cons. rewrite Hra', Hra1; done.
Qed.

(** X13.  When no session of an intact list is leave-pending, the timer
    flush completes and visits every session once, in list order: the
    messages sent are the Reports of the sessions that are due
    ([nReportsPending > 0] and [now > nNextReportTime]), one each, in list
    order; a due session's count is decremented, and its next report time is
    0 when the count reaches 0 and lies in [now .. now + 1000] otherwise; a
    session that is not due is unchanged; the list, the rest of the store
    and the clock are unchanged. *)
Theorem flush_reports_due_sessions (fuel : nat) (now : Z) (m : CIGMPHandler)
    (ls : list loc) (ss : list MulticastGroupState) :
  IGMP.wf m ls → (length ls < fuel)%nat →
  Forall2 (λ l s, states m !! l = Some s) ls ss →
  Forall (λ s, bLeavePending s = false ∧ 0 ≤ nReportsPending s < 2 ^ 32) ss →
  0 ≤ now → now + 1000 < 2 ^ 64 →
  ∃ m',
    SendPendingReportsAndLeaves fuel now m = Done m'
    ∧ IGMP.wf m' ls
    ∧ m_nTimestampMs m' = m_nTimestampMs m
    ∧ sent m' = sent m ++ map report_for (List.filter (is_due now) ss)
    ∧ Forall2 (λ l s, ∃ s', states m' !! l = Some s' ∧ flushed now s s') ls ss
    ∧ (∀ l, l ∉ ls → states m' !! l = states m !! l).
Proof.
  intros Hwf Hlen Hss Hok Hnow Hwrap.
  destruct (flush_loop_no_leave now Hnow Hwrap ls ss fuel _ None m Hwf Hlen Hss Hok)
    as (m' & Heq & Hc' & Hhead & Hclock & _ & Hsent & Hin' & Hout' & _).
  exists m'. split_and!; try done. unfold IGMP.wf. by rewrite Hhead.
Qed.

Lemma flush_reports_due_sessions_witness :
  ∃ m',
    SendPendingReportsAndLeaves 3 450 engine_AB = Done m'
    ∧ IGMP.wf m' [1%positive; 2%positive]
    ∧ m_nTimestampMs m' = m_nTimestampMs engine_AB
    ∧ sent m' = sent engine_AB
                ++ map report_for
                     (List.filter (is_due 450)
                        [mkState group_A 2 false 395 0 (Some 2%positive);
                         mkState group_B 2 false 492 0 None])
    ∧ Forall2 (λ l s, ∃ s', states m' !! l = Some s' ∧ flushed 450 s s')
        [1%positive; 2%positive]
        [mkState group_A 2 false 395 0 (Some 2%positive);
         mkState group_B 2 false 492 0 None]
    ∧ (∀ l, l ∉ [1%positive; 2%positive] → states m' !! l = states engine_AB !! l).
Proof.
  apply (flush_reports_due_sessions 3 450 engine_AB [1%positive; 2%positive]).
  - vm_compute. eauto 10.
  - simpl. lia.
  - repeat constructor.
  - repeat constructor; simpl; lia.
  - lia.
  - reflexivity.
Defined.

(** * Reconciliation: flags, uniqueness, creation *)

Lemma mark_leave_pending_sets fuel h p pl ls :
  chain pNext h p ls → (length ls < fuel)%nat →
  ∃ h', mark_leave_pending fuel h p pl
        = Done (h', match last ls with Some l => Some l | None => pl end)
        ∧ marks h h'
        ∧ (∀ l s', l ∈ ls → h' !! l = Some s' → bLeavePending s' = true)
        ∧ (∀ l, l ∉ ls → h' !! l = h !! l).
Proof.
  revert h p pl ls. induction fuel as [|fuel IH]; intros h p pl ls Hc Hlen; [lia|].
  destruct ls as [|l ls].
  - simpl in Hc. subst. exists h. split_and!; [done|apply marks_refl| |done].
    intros l s' Hin. by apply elem_of_nil in Hin.
  - pose proof (chain_NoDup _ _ _ _ Hc) as Hnd.
    apply NoDup_cons in Hnd as [Hnin _].
    simpl in Hc. destruct Hc as (-> & s & Hl & Hc).
    cbn [mark_leave_pending]. rewrite (deref_Some _ _ _ Hl). cbn [mbind result_bind].
    pose proof (marks_set_bLeavePending h l s true Hl) as Hm1.
    destruct (IH _ (pNext s) (Some l) ls (chain_marks _ _ _ _ Hm1 Hc)
                 ltac:(simpl in Hlen; lia)) as (h' & Heq & Hm' & Hset & Hout).
    exists h'. split_and!.
    + rewrite Heq. do 2 f_equal. destruct ls as [|l1 ls]; [done|].
      rewrite last_cons_cons. destruct (last (l1 :: ls)) eqn:E; [done|].
      by apply last_None in E.
    + by eapply marks_trans.
    + intros l0 s' [->|Hin]%elem_of_cons Hl0; [|by eapply Hset].
      rewrite Hout, lookup_insert_eq in Hl0 by done. by injection Hl0 as <-.
    + intros l0 [Hne Hnin0]%not_elem_of_cons.
      rewrite Hout by done. by rewrite lookup_insert_ne.
Qed.

Lemma distinct_addresses_marks h h' ls :
  marks h h' → (∀ l, l ∈ ls → is_Some (h !! l)) →
  distinct_addresses h ls → distinct_addresses h' ls.
Proof.
  intros Hm Hex Hd l1 l2 s1' s2' Hin1 Hin2 Hl1 Hl2 Hip.
  destruct (Hex l1 Hin1) as [s1 Hs1]. destruct (Hex l2 Hin2) as [s2 Hs2].
  destruct (Hm l1 s1 Hs1) as (x1 & Hx1 & (Hip1 & _) & _).
  destruct (Hm l2 s2 Hs2) as (x2 & Hx2 & (Hip2 & _) & _).
  simplify_eq. eapply Hd; eauto. congruence.
Qed.

(** The body of the second loop, with what it does to the flags. *)
Lemma reconcile_group_flags k now g m ls :
  chain pNext (states m) (m_pMulticastGroupStates m) ls → (length ls < k)%nat →
  distinct_addresses (states m) ls →
  ∃ m' ls_new,
    reconcile_group k now g m (last ls) = Done (m', last (ls ++ ls_new))
    ∧ chain pNext (states m') (m_pMulticastGroupStates m') (ls ++ ls_new)
    ∧ distinct_addresses (states m') (ls ++ ls_new)
    ∧ sent m' = sent m
    ∧ m_nTimestampMs m' = m_nTimestampMs m
    ∧ m_nLastTicksMs m' = m_nLastTicksMs m
    ∧ (length ls_new ≤ 1)%nat
    ∧ (has_session (states m) ls (NetConfig.pIPAddress g) →
         ls_new = [] ∧ rand_a m' = rand_a m)
    ∧ (∀ l s, l ∈ ls → states m !! l = Some s →
         ∃ s', states m' !! l = Some s' ∧ same_session s s'
               ∧ bLeavePending s'
                 = if decide (pIPAddress s = NetConfig.pIPAddress g)
                   then false else bLeavePending s)
    ∧ (∀ l, l ∈ ls_new →
         states m !! l = None
         ∧ ∃ s', states m' !! l = Some s'
                 ∧ new_session now (NetConfig.pIPAddress g) s')
    ∧ (∀ l, l ∉ ls ++ ls_new → states m' !! l = states m !! l).
Proof.
  intros Hc Hlen Hd. unfold reconcile_group.
  rewrite (scan_chain _ _ _ _ _ ls Hc Hlen). cbn.
  destruct (first_match (states m) (ip_is (NetConfig.pIPAddress g)) ls)
    as [lf|] eqn:Hf.
  - apply first_match_Some in Hf as (Hinf & sf & Hlf & Hip).
    unfold ip_is, ip_eqb in Hip. apply bool_decide_eq_true in Hip.
    rewrite (deref_Some _ _ _ Hlf). simpl.
    exists (set_states (<[lf := set_bLeavePending false sf]> (states m)) m), [].
    rewrite app_nil_r. simpl.
    pose proof (marks_set_bLeavePending (states m) lf sf false Hlf) as Hmk.
    split_and!; try done.
    + by eapply chain_marks.
    + eapply distinct_addresses_marks; [exact Hmk| |done].
      intros l Hin. by eapply chain_lookup.
    + lia.
    + intros l s Hin Hl. destruct (decide (l = lf)) as [->|Hne].
      * simplify_eq. rewrite lookup_insert_eq. eexists. split; [done|].
        split; [by repeat split|]. simpl. by rewrite decide_True.
      * rewrite lookup_insert_ne by done. exists s.
        split; [done|]. split; [apply same_session_refl|].
        rewrite decide_False; [done|]. intros Heq. apply Hne.
        eapply Hd; eauto. congruence.
    + intros l Hin. by apply elem_of_nil in Hin.
    + intros l Hnin. rewrite lookup_insert_ne; [done|]. by intros ->.
  - assert (∀ l s, l ∈ ls → states m !! l = Some s →
              pIPAddress s ≠ NetConfig.pIPAddress g) as Hnone.
    { intros l s Hin Hl Heq.
      pose proof (first_match_None _ _ _ _ _ _ s Hc Hf Hin Hl) as Hs.
      unfold ip_is, ip_eqb in Hs. by apply bool_decide_eq_false in Hs. }
    destruct (rand_delay (rand_a m)) as (r & a' & -> & Hr). simpl.
    set (l := alloc (states m)).
    set (s := mkState (NetConfig.pIPAddress g) INITIAL_REPORT_COUNT false
                      (wrap64 (now + r)) 0 None).
    assert (states m !! l = None) as Hfresh by apply alloc_fresh.
    assert (l ∉ ls) as Hnin.
    { intros Hin. destruct (chain_lookup _ _ _ _ _ Hc Hin). congruence. }
    assert (new_session now (NetConfig.pIPAddress g) s) as Hnew.
    { split_and!; try done. eauto. }
    assert (∀ (h' : gmap loc MulticastGroupState),
              h' !! l = Some s →
              (∀ l0 s0, l0 ∈ ls → states m !! l0 = Some s0 →
                 ∃ s0', h' !! l0 = Some s0' ∧ same_session s0 s0'
                        ∧ bLeavePending s0' = bLeavePending s0) →
              distinct_addresses h' (ls ++ [l])) as Hdist.
    { intros h' Hl' Hold l1 l2 s1 s2 Hin1 Hin2 Hl1 Hl2 Heq.
      apply elem_of_app in Hin1 as [Hin1|Hin1];
        apply elem_of_app in Hin2 as [Hin2|Hin2];
        try apply list_elem_of_singleton in Hin1 as ->;
        try apply list_elem_of_singleton in Hin2 as ->; [| | |done].
      - destruct (chain_lookup _ _ _ _ _ Hc Hin1) as [x1 Hx1].
        destruct (chain_lookup _ _ _ _ _ Hc Hin2) as [x2 Hx2].
        destruct (Hold _ _ Hin1 Hx1) as (y1 & Hy1 & (Hip1 & _) & _).
        destruct (Hold _ _ Hin2 Hx2) as (y2 & Hy2 & (Hip2 & _) & _).
        simplify_eq. eapply Hd; eauto. congruence.
      - destruct (chain_lookup _ _ _ _ _ Hc Hin1) as [x1 Hx1].
        destruct (Hold _ _ Hin1 Hx1) as (y1 & Hy1 & (Hip1 & _) & _).
        simplify_eq. destruct (Hnone _ _ Hin1 Hx1). simpl in Heq. congruence.
      - destruct (chain_lookup _ _ _ _ _ Hc Hin2) as [x2 Hx2].
        destruct (Hold _ _ Hin2 Hx2) as (y2 & Hy2 & (Hip2 & _) & _).
        simplify_eq. destruct (Hnone _ _ Hin2 Hx2). simpl in Heq. congruence. }
    assert (¬ has_session (states m) ls (NetConfig.pIPAddress g)) as Hnohas.
    { intros (l0 & s0 & Hin0 & Hl0 & Hip0). by destruct (Hnone _ _ Hin0 Hl0). }
    destruct (last ls) as [ll|] eqn:Hlast.
    + destruct (chain_last _ _ _ _ _ Hc Hlast) as (sl & Hll & Hnext).
      assert (ll ≠ l) as Hne by congruence.
      rewrite (deref_Some _ ll sl) by (by simpl; rewrite lookup_insert_ne). simpl.
      eexists _, [l]. rewrite last_snoc. split; [done|]. simpl.
      assert (∀ l0 s0, l0 ∈ ls → states m !! l0 = Some s0 →
                ∃ s0', <[ll := set_pNext (Some l) sl]> (<[l := s]> (states m)) !! l0
                       = Some s0' ∧ same_session s0 s0'
                       ∧ bLeavePending s0' = bLeavePending s0) as Hold.
      { intros l0 s0 Hin0 Hl0. destruct (decide (l0 = ll)) as [->|Hne0].
        - simplify_eq. rewrite lookup_insert_eq. eexists. split; [done|].
          split; [by repeat split|done].
        - rewrite !lookup_insert_ne by congruence. exists s0.
          split; [done|]. split; [apply same_session_refl|done]. }
      split_and!; try done.
      * eapply chain_snoc; eauto.
      * apply Hdist; [by rewrite lookup_insert_ne, lookup_insert_eq|done].
      * intros l0 s0 Hin0 Hl0. destruct (Hold l0 s0 Hin0 Hl0) as (s0' & ? & ? & Hb0).
        exists s0'. split_and!; try done.
        rewrite decide_False; [done|]. by eapply Hnone.
      * intros l0 ->%list_elem_of_singleton. split; [done|]. exists s.
        by rewrite lookup_insert_ne, lookup_insert_eq.
      * intros l0 [Hn1 Hn2%not_elem_of_cons]%not_elem_of_app.
        destruct Hn2 as [Hn2 _]. rewrite !lookup_insert_ne; [done|done|].
        intros ->. apply Hn1. by eapply last_Some_elem_of.
    + apply last_None in Hlast. subst ls. simpl in Hc.
      eexists _, [l]. split; [done|]. simpl. split_and!; try done.
      * exists s. by rewrite lookup_insert_eq.
      * apply (Hdist (<[l := s]> (states m))); [by rewrite lookup_insert_eq|].
        intros l0 s0 Hin0. by apply elem_of_nil in Hin0.
      * intros l0 s0 Hin0. by apply elem_of_nil in Hin0.
      * intros l0 ->%list_elem_of_singleton. split; [done|]. exists s.
        by rewrite lookup_insert_eq.
      * intros l0 [Hn2 _]%not_elem_of_cons. by rewrite lookup_insert_ne.
Qed.

Lemma has_session_same h h' ls ip :
  (∀ l s, l ∈ ls → h !! l = Some s →
     ∃ s', h' !! l = Some s' ∧ pIPAddress s' = pIPAddress s) →
  has_session h ls ip → has_session h' ls ip.
Proof.
  intros Hsame (l & s & Hin & Hl & Hip).
  destruct (Hsame l s Hin Hl) as (s' & Hl' & Hip').
  exists l, s'. split_and!; [done|done|congruence].
Qed.

(** The second loop, with what it does to the flags. *)
Lemma reconcile_groups_flags k now c :
  ∀ gls fuel pGroup m ls,
  chain NetConfig.pNext (NetConfig.groups c) pGroup gls → (length gls < fuel)%nat →
  chain pNext (states m) (m_pMulticastGroupStates m) ls →
  (length ls + length gls < k)%nat →
  distinct_addresses (states m) ls →
  ∃ m' ls_new,
    reconcile_groups k fuel now (NetConfig.groups c) pGroup m (last ls) = Done m'
    ∧ chain pNext (states m') (m_pMulticastGroupStates m') (ls ++ ls_new)
    ∧ distinct_addresses (states m') (ls ++ ls_new)
    ∧ sent m' = sent m
    ∧ m_nTimestampMs m' = m_nTimestampMs m
    ∧ m_nLastTicksMs m' = m_nLastTicksMs m
    ∧ (length ls_new ≤ length gls)%nat
    ∧ ((∀ lg g, lg ∈ gls → NetConfig.groups c !! lg = Some g →
          has_session (states m) ls (NetConfig.pIPAddress g)) →
         ls_new = [] ∧ rand_a m' = rand_a m)
    ∧ (∀ l s, l ∈ ls → states m !! l = Some s →
         ∃ s', states m' !! l = Some s' ∧ same_session s s'
               ∧ ((is_member c gls (pIPAddress s) ∧ bLeavePending s' = false)
                  ∨ (¬ is_member c gls (pIPAddress s)
                     ∧ bLeavePending s' = bLeavePending s)))
    ∧ (∀ l, l ∈ ls_new →
         states m !! l = None
         ∧ ∃ s', states m' !! l = Some s'
                 ∧ is_member c gls (pIPAddress s')
                 ∧ new_session now (pIPAddress s') s')
    ∧ (∀ l, l ∉ ls ++ ls_new → states m' !! l = states m !! l).
Proof.
  induction gls as [|lg gls IH]; intros fuel pGroup m ls Hg Hfuel Hc Hk Hd;
    (destruct fuel as [|fuel]; [simpl in Hfuel; lia|]); simpl in Hg.
  - subst pGroup. exists m, []. rewrite app_nil_r. simpl. split_and!; try done.
    + intros l s Hin Hl. exists s. split; [done|]. split; [apply same_session_refl|].
      right. split; [|done]. intros (l0 & g0 & Hin0 & _). by apply elem_of_nil in Hin0.
    + intros l Hin. by apply elem_of_nil in Hin.
  - destruct Hg as (-> & g & Hlg & Hg). simpl in Hfuel, Hk.
    cbn [reconcile_groups]. rewrite (deref_Some _ _ _ Hlg). cbn [mbind result_bind].
    destruct (reconcile_group_flags k now g m ls Hc ltac:(lia) Hd)
      as (m1 & new1 & -> & Hc1 & Hd1 & Hsent1 & Hclk1 & Htk1 & Hlen1 & Hnone1
          & Hold1 & Hnew1 & Hout1).
    cbn [mbind result_bind].
    destruct (IH fuel (NetConfig.pNext g) m1 (ls ++ new1) Hg ltac:(lia) Hc1)
      as (m' & new2 & -> & Hc' & Hd' & Hsent' & Hclk' & Htk' & Hlen' & Hnone'
          & Hold' & Hnew' & Hout'); [rewrite length_app; lia|done|].
    assert (∀ ip, is_member c gls ip → is_member c (lg :: gls) ip) as Hmono.
    { intros ip (l0 & g0 & Hin0 & ? & ?). exists l0, g0. split_and!; [by right|done|done]. }
    assert (is_member c (lg :: gls) (NetConfig.pIPAddress g)) as Hmem_g.
    { exists lg, g. split_and!; [by left|done|done]. }
    exists m', (new1 ++ new2). rewrite app_assoc. split_and!; try congruence.
    + done.
    + rewrite length_app. simpl. lia.
    + intros Hall.
      destruct Hnone1 as [-> Hra1]; [apply (Hall lg g); [by left|done]|].
      rewrite app_nil_r in *. destruct Hnone' as [-> Hra']; [|by rewrite Hra', Hra1].
      intros lg0 g0 Hin0 Hlg0.
      eapply has_session_same; [|apply (Hall lg0 g0); [by right|done]].
      intros l s Hin Hl. destruct (Hold1 l s Hin Hl) as (s1 & ? & (? & _) & _). eauto.
    + intros l s Hin Hl.
      destruct (Hold1 l s Hin Hl) as (s1 & Hl1 & Hs1 & Hb1).
      destruct (Hold' l s1 ltac:(apply elem_of_app; by left) Hl1)
        as (s' & Hl' & Hs' & Hb').
      assert (pIPAddress s1 = pIPAddress s) as Hip1 by apply Hs1.
      exists s'. split; [done|]. split; [by eapply same_session_trans|].
      rewrite Hip1 in Hb'. destruct Hb' as [[Hm Hb']|[Hnm Hb']]; [left; auto|].
      rewrite Hb', Hb1.
      destruct (decide (pIPAddress s = NetConfig.pIPAddress g)) as [Heq|Hneq].
      * left. split; [by rewrite Heq|done].
      * right. split; [|done]. intros (l0 & g0 & Hin0 & Hl0 & Hip0).
        apply elem_of_cons in Hin0 as [->|Hin0].
        -- by simplify_eq.
        -- apply Hnm. by exists l0, g0.
    + intros l [Hin|Hin]%elem_of_app.
      * destruct (Hnew1 l Hin) as (Hnone & s1 & Hl1 & Hns1).
        split; [done|].
        destruct (Hold' l s1 ltac:(apply elem_of_app; by right) Hl1)
          as (s' & Hl' & Hs' & Hb').
        assert (pIPAddress s' = NetConfig.pIPAddress g) as Hip'.
        { destruct Hs' as (-> & _). apply Hns1. }
        exists s'. split; [done|]. split; [by rewrite Hip'|].
        destruct Hns1 as (Hip1 & Hn1 & Hb1 & Hlast1 & r & Hr & Hnext1).
        destruct Hs' as (_ & Hn' & Hnext' & Hlast').
        split_and!; try congruence.
        -- destruct Hb' as [[_ ->]|[_ ->]]; done.
        -- exists r. split; [done|congruence].
      * destruct (Hnew' l Hin) as (Hnone & s' & Hl' & Hm' & Hns').
        split; [|eauto].
        rewrite <- Hout1; [done|]. intros Hin1.
        destruct (chain_lookup _ _ _ _ _ Hc1 Hin1). congruence.
    + intros l Hnin. rewrite Hout' by done. apply Hout1.
      intros Hin. apply Hnin. apply elem_of_app. by left.
Qed.

Lemma ProcessMulticastGroupChanges_flags fuel c gls now m ls :
  IGMP.wf m ls → NetConfig.wf c gls → (length ls + length gls < fuel)%nat →
  distinct_addresses (states m) ls →
  ∃ m' ls_new,
    ProcessMulticastGroupChanges fuel c now m = Done m'
    ∧ IGMP.wf m' (ls ++ ls_new)
    ∧ distinct_addresses (states m') (ls ++ ls_new)
    ∧ sent m' = sent m
    ∧ m_nTimestampMs m' = m_nTimestampMs m
    ∧ m_nLastTicksMs m' = m_nLastTicksMs m
    ∧ (length ls_new ≤ length gls)%nat
    ∧ ((∀ lg g, lg ∈ gls → NetConfig.groups c !! lg = Some g →
          has_session (states m) ls (NetConfig.pIPAddress g)) →
         ls_new = [] ∧ rand_a m' = rand_a m)
    ∧ (∀ l s, l ∈ ls → states m !! l = Some s →
         ∃ s', states m' !! l = Some s' ∧ same_session s s'
               ∧ (bLeavePending s' = true ↔ ¬ is_member c gls (pIPAddress s)))
    ∧ (∀ l, l ∈ ls_new →
         states m !! l = None
         ∧ ∃ s', states m' !! l = Some s'
                 ∧ is_member c gls (pIPAddress s')
                 ∧ new_session now (pIPAddress s') s')
    ∧ (∀ l, l ∉ ls ++ ls_new → states m' !! l = states m !! l).
Proof.
  intros Hwf Hreg Hfuel Hd. unfold ProcessMulticastGroupChanges.
  destruct (mark_leave_pending_sets fuel (states m) (m_pMulticastGroupStates m)
              (m_pMulticastGroupStates m) ls Hwf ltac:(lia))
    as (h1 & -> & Hm1 & Hset1 & Hout1).
  cbn [mbind result_bind].
  assert (match last ls with Some l => Some l | None => m_pMulticastGroupStates m end
          = last ls) as ->.
  { destruct (last ls) eqn:E; [done|]. apply last_None in E. by subst. }
  assert (∀ l, l ∈ ls → is_Some (states m !! l)) as Hex
    by (intros l Hin; by eapply chain_lookup).
  destruct (reconcile_groups_flags fuel now c gls fuel
              (NetConfig.m_pMulticastGroups c) (set_states h1 m) ls Hreg
              ltac:(lia))
    as (m' & ls_new & -> & Hc' & Hd' & Hsent & Hclk & Htk & Hlen & Hnone
        & Hold & Hnew & Hout).
  { simpl. by eapply chain_marks. }
  { lia. }
  { simpl. by eapply distinct_addresses_marks. }
  simpl in *. exists m', ls_new. split_and!; try done.
  - intros Hall. apply Hnone. intros lg g Hin Hlg.
    eapply has_session_same; [|by apply (Hall lg g)].
    intros l s Hinl Hl. destruct (Hm1 l s Hl) as (s1 & ? & (? & _) & _). eauto.
  - intros l s Hin Hl. destruct (Hm1 l s Hl) as (s1 & Hl1 & Hs1 & _).
    destruct (Hold l s1 Hin Hl1) as (s' & Hl' & Hs' & Hb').
    assert (pIPAddress s1 = pIPAddress s) as Hip1 by apply Hs1.
    exists s'. split; [done|]. split; [by eapply same_session_trans|].
    rewrite Hip1 in Hb'. rewrite (Hset1 l s1 Hin Hl1) in Hb'.
    destruct Hb' as [[Hmem ->]|[Hnm ->]]; [|done].
    split; [done|]. intros Hnm. by destruct Hnm.
  - intros l Hin. destruct (Hnew l Hin) as (Hnone1 & Hs). split; [|done].
    rewrite <- Hout1; [done|]. intros Hinl. destruct (Hex l Hinl) as [s Hs0].
    destruct (Hm1 l s Hs0) as (? & ? & _). congruence.
  - intros l Hnin. rewrite Hout by done. apply Hout1.
    intros Hin. apply Hnin. apply elem_of_app. by left.
Qed.

(** X14.  On an intact engine whose sessions have pairwise distinct
    addresses and an intact registry, the reconciliation step leaves
    [bLeavePending] set on exactly the sessions whose address is no longer
    in the registry: for every session that was in the list,
    [bLeavePending] is TRUE afterwards if and only if no registry entry has
    its address. *)
Theorem reconciliation_flags_removed_groups (fuel : nat)
    (c : NetConfig.CNetConfig) (gls : list loc) (now : Z)
    (m : CIGMPHandler) (ls : list loc) :
  IGMP.wf m ls → NetConfig.wf c gls → (length ls + length gls < fuel)%nat →
  distinct_addresses (states m) ls →
  ∃ m',
    ProcessMulticastGroupChanges fuel c now m = Done m'
    ∧ ∀ l s, l ∈ ls → states m !! l = Some s →
        ∃ s', states m' !! l = Some s'
              ∧ pIPAddress s' = pIPAddress s
              ∧ (bLeavePending s' = true ↔ ¬ is_member c gls (pIPAddress s)).
Proof.
  intros Hwf Hreg Hfuel Hd.
  destruct (ProcessMulticastGroupChanges_flags fuel c gls now m ls Hwf Hreg Hfuel Hd)
    as (m' & ls_new & Heq & _ & _ & _ & _ & _ & _ & _ & Hold & _).
  exists m'. split; [done|]. intros l s Hin Hl.
  destruct (Hold l s Hin Hl) as (s' & ? & (? & _) & ?). eauto.
Qed.

Lemma distinct_addresses_AB : distinct_addresses (states engine_AB) [1%positive; 2%positive].
Proof.
  intros l1 l2 s1 s2 Hin1 Hin2 Hl1 Hl2 Hip.
  cells; try done; vm_compute in Hl1; vm_compute in Hl2;
    injection Hl1 as <-; injection Hl2 as <-; discriminate.
Qed.

Lemma reconciliation_flags_removed_groups_witness :
  ∃ m',
    ProcessMulticastGroupChanges 4 registry_A 200 engine_AB = Done m'
    ∧ ∀ l s, l ∈ [1%positive; 2%positive] → states engine_AB !! l = Some s →
        ∃ s', states m' !! l = Some s'
              ∧ pIPAddress s' = pIPAddress s
              ∧ (bLeavePending s' = true
                 ↔ ¬ is_member registry_A [1%positive] (pIPAddress s)).
Proof.
  apply (reconciliation_flags_removed_groups 4 registry_A [1%positive] 200
           engine_AB [1%positive; 2%positive]).
  - vm_compute. eauto 10.
  - vm_compute. eauto.
  - simpl. lia.
  - exact distinct_addresses_AB.
Defined.

(** X15.  Reconciliation never gives a group a second session: on an intact
    engine whose sessions have pairwise distinct addresses, the session list
    after the step is intact, again has pairwise distinct addresses, and
    holds a session for every registry entry's address. *)
Theorem reconciliation_keeps_addresses_distinct (fuel : nat)
    (c : NetConfig.CNetConfig) (gls : list loc) (now : Z)
    (m : CIGMPHandler) (ls : list loc) :
  IGMP.wf m ls → NetConfig.wf c gls → (length ls + length gls < fuel)%nat →
  distinct_addresses (states m) ls →
  ∃ m' ls',
    ProcessMulticastGroupChanges fuel c now m = Done m'
    ∧ IGMP.wf m' ls'
    ∧ distinct_addresses (states m') ls'
    ∧ ∀ lg g, lg ∈ gls → NetConfig.groups c !! lg = Some g →
        has_session (states m') ls' (NetConfig.pIPAddress g).
Proof.
  intros Hwf Hreg Hfuel Hd.
  destruct (ProcessMulticastGroupChanges_flags fuel c gls now m ls Hwf Hreg Hfuel Hd)
    as (m' & ls_new & Heq & Hwf' & Hd' & _).
  destruct (ProcessMulticastGroupChanges_spec fuel c gls now m ls Hwf Hreg Hfuel)
    as (m2 & ls_new2 & Heq2 & Hwf2 & _ & _ & Hgroups).
  rewrite Heq in Heq2. injection Heq2 as <-.
  pose proof (chain_inj _ _ _ _ _ Hwf' Hwf2) as Hls.
  exists m', (ls ++ ls_new). split_and!; try done.
  intros lg g Hin Hlg. destruct (Hgroups lg g Hin Hlg) as (l & s & Hinl & Hl & Hip & _).
  exists l, s. rewrite Hls. done.
Qed.

Lemma reconciliation_keeps_addresses_distinct_witness :
  ∃ m' ls',
    ProcessMulticastGroupChanges 4 registry_A_hosts 200 engine_A = Done m'
    ∧ IGMP.wf m' ls'
    ∧ distinct_addresses (states m') ls'
    ∧ ∀ lg g, lg ∈ [1%positive; 2%positive] →
        NetConfig.groups registry_A_hosts !! lg = Some g →
        has_session (states m') ls' (NetConfig.pIPAddress g).
Proof.
  apply (reconciliation_keeps_addresses_distinct 4 registry_A_hosts
           [1%positive; 2%positive] 200 engine_A [1%positive]).
  - vm_compute. eauto 10.
  - vm_compute. eauto 10.
  - simpl. lia.
  - intros l1 l2 s1 s2 Hin1 Hin2 _ _ _. by cells.
Defined.

(** X16.  Reconciliation is silent and bounded: on an intact engine with
    distinct session addresses it sends no message and leaves the clock as
    it is, and it creates at most as many sessions as the registry has
    entries.  When every registry entry's address already has a session, it
    creates none and draws no random number (the generator's state is
    unchanged). *)
Theorem reconciliation_is_silent_and_bounded (fuel : nat)
    (c : NetConfig.CNetConfig) (gls : list loc) (now : Z)
    (m : CIGMPHandler) (ls : list loc) :
  IGMP.wf m ls → NetConfig.wf c gls → (length ls + length gls < fuel)%nat →
  distinct_addresses (states m) ls →
  ∃ m' ls_new,
    ProcessMulticastGroupChanges fuel c now m = Done m'
    ∧ IGMP.wf m' (ls ++ ls_new)
    ∧ sent m' = sent m
    ∧ m_nTimestampMs m' = m_nTimestampMs m
    ∧ m_nLastTicksMs m' = m_nLastTicksMs m
    ∧ (length ls_new ≤ length gls)%nat
    ∧ ((∀ lg g, lg ∈ gls → NetConfig.groups c !! lg = Some g →
          has_session (states m) ls (NetConfig.pIPAddress g)) →
         ls_new = [] ∧ rand_a m' = rand_a m).
Proof.
  intros Hwf Hreg Hfuel Hd.
  destruct (ProcessMulticastGroupChanges_flags fuel c gls now m ls Hwf Hreg Hfuel Hd)
    as (m' & ls_new & Heq & Hwf' & _ & Hsent & Hclk & Htk & Hlen & Hnone & _).
  by exists m', ls_new.
Qed.

Lemma reconciliation_is_silent_and_bounded_witness :
  ∃ m' ls_new,
    ProcessMulticastGroupChanges 4 registry_A 200 engine_AB = Done m'
    ∧ IGMP.wf m' ([1%positive; 2%positive] ++ ls_new)
    ∧ sent m' = sent engine_AB
    ∧ m_nTimestampMs m' = m_nTimestampMs engine_AB
    ∧ m_nLastTicksMs m' = m_nLastTicksMs engine_AB
    ∧ (length ls_new ≤ length [1%positive])%nat
    ∧ ((∀ lg g, lg ∈ [1%positive] → NetConfig.groups registry_A !! lg = Some g →
          has_session (states engine_AB) [1%positive; 2%positive]
                      (NetConfig.pIPAddress g)) →
         ls_new = [] ∧ rand_a m' = rand_a engine_AB).
Proof.
  apply (reconciliation_is_silent_and_bounded 4 registry_A [1%positive] 200
           engine_AB [1%positive; 2%positive]).
  - vm_compute. eauto 10.
  - vm_compute. eauto.
  - simpl. lia.
  - exact distinct_addresses_AB.
Defined.

(** * The engine at rest *)

Lemma chain_head {N} (next : N → ptr) (h : gmap loc N) p ls :
  chain next h p ls → p = head ls.
Proof. destruct ls; simpl; [done|]. by intros [-> _]. Qed.

Lemma chain_next_agree {N} (next : N → ptr) (h h' : gmap loc N) p ls l n n' :
  chain next h p ls → chain next h' p ls →
  l ∈ ls → h !! l = Some n → h' !! l = Some n' → next n = next n'.
Proof.
  revert p. induction ls as [|l0 ls IH]; intros p Hc Hc' Hin Hl Hl'.
  - by apply elem_of_nil in Hin.
  - simpl in Hc, Hc'. destruct Hc as (-> & x & Hx & Hc).
    destruct Hc' as (_ & x' & Hx' & Hc').
    apply elem_of_cons in Hin as [->|Hin].
    + simplify_eq. rewrite (chain_head _ _ _ _ Hc), (chain_head _ _ _ _ Hc'). done.
    + assert (next x = next x') as Hnx
        by (by rewrite (chain_head _ _ _ _ Hc), (chain_head _ _ _ _ Hc')).
      rewrite <- Hnx in Hc'. by eapply IH.
Qed.

(** Nothing due, nobody leaving: the flush changes nothing. *)
Lemma flush_loop_at_rest now :
  ∀ ls fuel p pPrev m,
  chain pNext (states m) p ls → (length ls < fuel)%nat →
  (∀ l s, l ∈ ls → states m !! l = Some s →
     bLeavePending s = false ∧ is_due now s = false) →
  SendPendingReportsAndLeaves_loop fuel now p pPrev m = Done m.
Proof.
  induction ls as [|l ls IH]; intros fuel p pPrev m Hc Hlen Hrest;
    (destruct fuel as [|fuel]; [simpl in Hlen; lia|]); simpl in Hc.
  - by subst.
  - destruct Hc as (-> & s & Hl & Hc). cbn [SendPendingReportsAndLeaves_loop].
    rewrite (deref_Some _ _ _ Hl). cbn [mbind result_bind].
    destruct (Hrest l s ltac:(left) Hl) as [Hb Hdue].
    unfold flush_session. rewrite Hb. unfold is_due in Hdue. rewrite Hdue.
    cbn [mbind result_bind]. rewrite (deref_Some _ _ _ Hl). cbn [mbind result_bind].
    apply IH; [done|simpl in Hlen; lia|].
    intros l0 s0 Hin0. apply Hrest. by right.
Qed.

(** In sync and nothing marked: reconciliation changes nothing. *)
Lemma ProcessMulticastGroupChanges_at_rest fuel c gls now m ls :
  IGMP.wf m ls → NetConfig.wf c gls → (length ls + length gls < fuel)%nat →
  distinct_addresses (states m) ls → in_sync c gls m ls →
  (∀ l s, l ∈ ls → states m !! l = Some s → bLeavePending s = false) →
  ProcessMulticastGroupChanges fuel c now m = Done m.
Proof.
  intros Hwf Hreg Hfuel Hd [Hall Hmem] Hnl.
  destruct (ProcessMulticastGroupChanges_flags fuel c gls now m ls Hwf Hreg Hfuel Hd)
    as (m' & ls_new & -> & Hwf' & _ & Hsent & Hclk & Htk & _ & Hnone & Hold & _ & Hout).
  destruct (Hnone Hall) as [-> Hra]. rewrite app_nil_r in *.
  f_equal.
  assert (states m' = states m) as Hst.
  { apply map_eq. intros l. destruct (decide (l ∈ ls)) as [Hin|Hnin]; [|by apply Hout].
    destruct (chain_lookup _ _ _ _ _ Hwf Hin) as [s Hl].
    destruct (Hold l s Hin Hl) as (s' & Hl' & (Hip & Hn & Hnext & Hlast) & Hb).
    rewrite Hl, Hl'. f_equal.
    assert (pNext s' = pNext s) as Hpn.
    { unfold IGMP.wf in *.
      rewrite (chain_head _ _ _ _ Hwf') in Hwf'. rewrite (chain_head _ _ _ _ Hwf) in Hwf.
      by eapply (chain_next_agree pNext (states m') (states m)). }
    assert (bLeavePending s' = false) as Hb'.
    { destruct (bLeavePending s') eqn:E; [|done].
      destruct (proj1 Hb eq_refl). by eapply Hmem. }
    rewrite <- (Hnl l s Hin Hl) in Hb'.
    destruct s, s'. simpl in *. by subst. }
  assert (m_pMulticastGroupStates m' = m_pMulticastGroupStates m) as Hhd.
  { unfold IGMP.wf in *.
    by rewrite (chain_head _ _ _ _ Hwf'), (chain_head _ _ _ _ Hwf). }
  destruct m, m'. simpl in *. by subst.
Qed.

(** X17.  An engine at rest stays at rest: when the session list is
    intact with distinct addresses, registry and sessions name the same
    groups, every session is idle and not leaving, and the queue is empty,
    [Process] completes, sends nothing, and changes nothing but the clock
    ([m_nTimestampMs] advanced by the elapsed milliseconds, [m_nLastTicksMs]
    set to the tick read). *)
Theorem idle_engine_is_quiescent (fuel : nat) (HZ ticks : Z)
    (c : NetConfig.CNetConfig) (gls : list loc) (m : CIGMPHandler)
    (ls : list loc) :
  IGMP.wf m ls → NetConfig.wf c gls → (length ls + length gls < fuel)%nat →
  distinct_addresses (states m) ls → in_sync c gls m ls → all_idle m ls →
  HZ ≠ 0 →
  Process fuel HZ ticks c [] m
  = Done (set_clock
            (wrap64 (m_nTimestampMs m
                     + wrap32 (wrap32 (ticks - m_nLastTicksMs m) * 1000) / HZ))
            ticks m).
Proof.
  intros Hwf Hreg Hfuel Hd Hsync Hidle HHZ. unfold Process, advance_clock.
  destruct (Z.eqb_spec HZ 0) as [|_]; [done|]. cbn [mbind result_bind].
  set (m0 := set_clock _ ticks m).
  assert (states m0 = states m) as Hst by done.
  rewrite (ProcessMulticastGroupChanges_at_rest fuel c gls _ m0 ls); try done.
  - cbn [mbind result_bind drain_queue]. unfold SendPendingReportsAndLeaves.
    apply (flush_loop_at_rest _ ls); [done|lia|].
    intros l s Hin Hl. destruct (Hidle l s Hin Hl) as [Hb Hn].
    split; [done|]. unfold is_due. by rewrite Hn.
  - intros l s Hin Hl. by apply (Hidle l s Hin Hl).
Qed.

Lemma idle_engine_is_quiescent_witness :
  Process 5 100 600 registry_AB [] engine_idle
  = Done (set_clock
            (wrap64 (m_nTimestampMs engine_idle
                     + wrap32 (wrap32 (600 - m_nLastTicksMs engine_idle) * 1000) / 100))
            600 engine_idle).
Proof.
  apply (idle_engine_is_quiescent 5 100 600 registry_AB [1%positive; 2%positive]
           engine_idle [1%positive; 2%positive]).
  - vm_compute. eauto 10.
  - vm_compute. eauto 10.
  - simpl. lia.
  - intros l1 l2 s1 s2 Hin1 Hin2 Hl1 Hl2 Hip.
    cells; try done; vm_compute in Hl1; vm_compute in Hl2;
      injection Hl1 as <-; injection Hl2 as <-; discriminate.
  - split.
    + intros lg g Hin Hlg. cells; vm_compute in Hlg; injection Hlg as <-.
      * exists 1%positive, (mkState group_A 0 false 0 0 (Some 2%positive)).
        split_and!; [by left|done|done].
      * exists 2%positive, (mkState group_B 0 false 0 0 None).
        split_and!; [by right; left|done|done].
    + intros l s Hin Hl. cells; vm_compute in Hl; injection Hl as <-.
      * exists 1%positive, (entry group_A (Some 2%positive)).
        split_and!; [by left|done|done].
      * exists 2%positive, (entry group_B None).
        split_and!; [by right; left|done|done].
  - intros l s Hin Hl. by cells; vm_compute in Hl; injection Hl as <-.
  - done.
Defined.

(** * The timer flush with removals *)









(** ** The messages of the timer flush *)

Lemma build_message_verifies t ip :
  is_u8 t → 0 < t → ip_valid ip →
  length (build_message t ip) = 8%nat
  ∧ Forall is_u8 (build_message t ip)
  ∧ SimpleCalculate (build_message t ip) = CHECKSUM_OK
  ∧ hdr_nType (build_message t ip) = t
  ∧ hdr_Parameter (build_message t ip) = CopyTo ip.
Proof.
  intros Ht Hpos (H0 & H1 & H2 & H3). destruct ip as [a b c d]. simpl in *.
  unfold is_u8 in *. change (2 ^ 8) with 256 in *.
  unfold build_message, TIGMPHeader, CopyTo, CHECKSUM_OK. simpl.
  change (0 / 256) with 0. change (0 mod 256) with 0.
  unfold hdr_nType, hdr_Parameter. unfold SimpleCalculate. cbn [sum16].
  set (s := t * 256 + 0 + (0 * 256 + 0 + (a * 256 + b + (c * 256 + d + 0)))).
  set (k := Z.land (Z.lnot (fold16 s)) 65535).
  assert (0 ≤ k < 65536) as Hk.
  { subst k. rewrite (land_FFFF _). Z.div_mod_to_equations. lia. }
  split_and!; try done.
  - repeat apply Forall_cons_2; try apply Forall_nil_2;
      unfold is_u8; change (2 ^ 8) with 256;
      try lia; Z.div_mod_to_equations; lia.
  - replace (t * 256 + 0 + (k / 256 * 256 + k mod 256
                            + (a * 256 + b + (c * 256 + d + 0))))
      with (s + k) by (subst s; Z.div_mod_to_equations; lia).
    subst k. apply checksum_complement. subst s. lia.
Qed.

(** X19.  The Leave and the Report that the timer flush builds for a session
    with a byte-valued address are sent to the group itself and are eight
    bytes that verify: the checksum routine over the message as sent gives
    [CHECKSUM_OK], the group field is the session's address, and the type
    byte is the Leave type for the one and the Version 2 Report type for the
    other. *)
Theorem flush_messages_verify (s : MulticastGroupState) (d : Datagram) :
  ip_valid (pIPAddress s) →
  d = leave_for s ∨ d = report_for s →
  dest d = pIPAddress s
  ∧ length (payload d) = sizeof_TIGMPHeader
  ∧ Forall is_u8 (payload d)
  ∧ SimpleCalculate (payload d) = CHECKSUM_OK
  ∧ hdr_Parameter (payload d) = CopyTo (pIPAddress s)
  ∧ (d = leave_for s → hdr_nType (payload d) = IGMP_TYPE_LEAVE_GROUP_V2)
  ∧ (d = report_for s → hdr_nType (payload d) = IGMP_TYPE_MEMBERSHIP_REPORT_V2).
Proof.
  intros Hip Hd.
  destruct (build_message_verifies IGMP_TYPE_MEMBERSHIP_REPORT_V2
              (pIPAddress s)) as (Hr1 & Hr2 & Hr3 & Hr4 & Hr5);
    [by unfold is_u8|done|done|].
  destruct (build_message_verifies IGMP_TYPE_LEAVE_GROUP_V2
              (pIPAddress s)) as (Hl1 & Hl2 & Hl3 & Hl4 & Hl5);
    [by unfold is_u8|done|done|].
  split_and!.
  - by destruct Hd as [-> | ->].
  - by destruct Hd as [-> | ->].
  - by destruct Hd as [-> | ->].
  - by destruct Hd as [-> | ->].
  - by destruct Hd as [-> | ->].
  - by intros ->.
  - by intros ->.
Qed.

Lemma flush_messages_verify_witness :
  dest leave_A = pIPAddress (mkState group_A 2 true 395 0 None)
  ∧ length (payload leave_A) = sizeof_TIGMPHeader
  ∧ Forall is_u8 (payload leave_A)
  ∧ SimpleCalculate (payload leave_A) = CHECKSUM_OK
  ∧ hdr_Parameter (payload leave_A)
    = CopyTo (pIPAddress (mkState group_A 2 true 395 0 None))
  ∧ (leave_A = leave_for (mkState group_A 2 true 395 0 None) →
     hdr_nType (payload leave_A) = IGMP_TYPE_LEAVE_GROUP_V2)
  ∧ (leave_A = report_for (mkState group_A 2 true 395 0 None) →
     hdr_nType (payload leave_A) = IGMP_TYPE_MEMBERSHIP_REPORT_V2).
Proof.
  apply (flush_messages_verify (mkState group_A 2 true 395 0 None) leave_A).
  - unfold ip_valid, is_u8. simpl. lia.
  - left. vm_compute. reflexivity.
Defined.

(** ** The receive loop *)

Lemma handle_packet_not_general fuel c ls pkt m :
  NetConfig.wf c ls → (length ls < fuel)%nat → not_general pkt →
  (answered c ls pkt
   ∧ handle_packet fuel c pkt m = Done (SendWithOptions (reply_to pkt) m))
  ∨ (¬ answered c ls pkt ∧ handle_packet fuel c pkt m = Done m).
Proof.
  intros Hwf Hlen Hng. unfold handle_packet, answered, dropped.
  destruct (IsEnabledMulticastGroup_member fuel c ls
              (DestinationAddress pkt) Hwf Hlen) as (b & -> & Hb).
  destruct (IsEnabledMulticastGroup_member fuel c ls
              (ip_of_bytes (hdr_Parameter (Buffer pkt))) Hwf Hlen)
    as (b' & -> & Hb').
  cbn [mbind result_bind].
  destruct b; cbn [negb].
  2:{ right. split; [|done]. intros (Hnd & _). apply Hnd. right. left.
      intros Hm. apply Hb in Hm. done. }
  destruct (Nat.ltb_spec (length (Buffer pkt)) sizeof_TIGMPHeader) as [Hlt|Hge].
  { right. split; [|done]. intros (Hnd & _). apply Hnd. left.
    unfold sizeof_TIGMPHeader in Hlt. lia. }
  destruct (Z.eqb_spec (SimpleCalculate (Buffer pkt)) CHECKSUM_OK) as [Hck|Hck];
    cbn [negb].
  2:{ right. split; [|done]. intros (Hnd & _). apply Hnd. by right; right. }
  destruct (Z.eqb_spec (hdr_nType (Buffer pkt)) IGMP_TYPE_MEMBERSHIP_QUERY)
    as [Hty|Hty].
  2:{ right. split; [|done]. by intros (_ & ? & _). }
  destruct Hng as [Hng|Hng]; [done|]. rewrite Hng.
  destruct b'.
  - left. split; [|done]. split_and!; [|done|by apply Hb'].
    intros [Hshort|[Hnm|Hbad]]; [|by apply Hnm, Hb|done].
    unfold sizeof_TIGMPHeader in Hge. lia.
  - right. split; [|done]. intros (_ & _ & Hm). apply Hb' in Hm. done.
Qed.

(** X20.  With the registry intact, a frame that is not a general query is
    handled without touching any session: when it is a Membership Query
    that passes the checks and names a member group, exactly one message is
    sent, to the frame's source, with as many bytes as the frame had; in
    every other case (also a valid frame of another type, or a query naming
    a group that is not a member) the engine is left exactly as it was. *)
Theorem frame_without_general_query (fuel : nat) (c : NetConfig.CNetConfig)
    (ls : list loc) (pkt : Packet) (m : CIGMPHandler) :
  NetConfig.wf c ls → (length ls < fuel)%nat → not_general pkt →
  ∃ m',
    handle_packet fuel c pkt m = Done m'
    ∧ states m' = states m
    ∧ m_pMulticastGroupStates m' = m_pMulticastGroupStates m
    ∧ m_nTimestampMs m' = m_nTimestampMs m
    ∧ rand_a m' = rand_a m
    ∧ (answered c ls pkt → sent m' = sent m ++ [reply_to pkt]
                            ∧ dest (reply_to pkt) = SourceAddress pkt
                            ∧ length (payload (reply_to pkt)) = length (Buffer pkt))
    ∧ (¬ answered c ls pkt → m' = m).
Proof.
  intros Hwf Hlen Hng.
  destruct (handle_packet_not_general fuel c ls pkt m Hwf Hlen Hng)
    as [[Ha ->]|[Hna ->]].
  - eexists. split_and!; try done.
    intros _. split_and!; try done.
    unfold reply_to, specific_query_reply, set_nChecksum, set_nType. simpl.
    by rewrite !length_insert.
  - exists m. by split_and!.
Qed.

Lemma frame_without_general_query_witness :
  ∃ m',
    handle_packet 2 registry_A foreign_report engine_A = Done m'
    ∧ states m' = states engine_A
    ∧ m_pMulticastGroupStates m' = m_pMulticastGroupStates engine_A
    ∧ m_nTimestampMs m' = m_nTimestampMs engine_A
    ∧ rand_a m' = rand_a engine_A
    ∧ (answered registry_A [1%positive] foreign_report →
         sent m' = sent engine_A ++ [reply_to foreign_report]
         ∧ dest (reply_to foreign_report) = SourceAddress foreign_report
         ∧ length (payload (reply_to foreign_report))
           = length (Buffer foreign_report))
    ∧ (¬ answered registry_A [1%positive] foreign_report → m' = engine_A).
Proof.
  apply (frame_without_general_query 2 registry_A [1%positive]).
  - vm_compute. eauto.
  - simpl. lia.
  - left. vm_compute. discriminate.
Defined.

Lemma drain_queue_not_general fuel c ls :
  NetConfig.wf c ls → (length ls < fuel)%nat →
  ∀ queue m, Forall not_general queue →
  ∃ m' msgs,
    drain_queue fuel c queue m = Done m'
    ∧ states m' = states m
    ∧ m_pMulticastGroupStates m' = m_pMulticastGroupStates m
    ∧ m_nTimestampMs m' = m_nTimestampMs m
    ∧ m_nLastTicksMs m' = m_nLastTicksMs m
    ∧ rand_a m' = rand_a m
    ∧ sent m' = sent m ++ msgs
    ∧ replies_to c ls queue msgs.
Proof.
  intros Hwf Hlen. induction queue as [|pkt queue IH]; intros m Hq.
  { exists m, []. rewrite app_nil_r. by split_and!. }
  apply Forall_cons in Hq as [Hng Hq]. cbn [drain_queue].
  destruct (handle_packet_not_general fuel c ls pkt m Hwf Hlen Hng)
    as [[Ha ->]|[Hna ->]]; cbn [mbind result_bind].
  - destruct (IH (SendWithOptions (reply_to pkt) m) Hq)
      as (m' & msgs & -> & ? & ? & ? & ? & ? & Hsent & Hrep).
    exists m', (reply_to pkt :: msgs). split_and!; try done.
    + rewrite Hsent. simpl. by rewrite <- app_assoc.
    + simpl. left. eauto.
  - destruct (IH m Hq) as (m' & msgs & -> & ? & ? & ? & ? & ? & Hsent & Hrep).
    exists m', msgs. split_and!; try done. simpl. by right.
Qed.

(** X21.  With the registry intact, the receive loop over a queue that
    holds no general query drains the whole queue and touches neither the
    sessions nor the clock nor the seed of the delay generator; what it
    sends is the replies to the answered frames, one each, in the order of
    the queue. *)
Theorem receive_loop_without_general_query (fuel : nat)
    (c : NetConfig.CNetConfig) (ls : list loc) (queue : list Packet)
    (m : CIGMPHandler) :
  NetConfig.wf c ls → (length ls < fuel)%nat → Forall not_general queue →
  ∃ m' msgs,
    drain_queue fuel c queue m = Done m'
    ∧ states m' = states m
    ∧ m_pMulticastGroupStates m' = m_pMulticastGroupStates m
    ∧ m_nTimestampMs m' = m_nTimestampMs m
    ∧ m_nLastTicksMs m' = m_nLastTicksMs m
    ∧ rand_a m' = rand_a m
    ∧ sent m' = sent m ++ msgs
    ∧ replies_to c ls queue msgs.
Proof. intros Hwf Hlen Hq. by apply drain_queue_not_general. Qed.

Lemma receive_loop_without_general_query_witness :
  ∃ m' msgs,
    drain_queue 2 registry_A [foreign_report; specific_query_12] engine_A = Done m'
    ∧ states m' = states engine_A
    ∧ m_pMulticastGroupStates m' = m_pMulticastGroupStates engine_A
    ∧ m_nTimestampMs m' = m_nTimestampMs engine_A
    ∧ m_nLastTicksMs m' = m_nLastTicksMs engine_A
    ∧ rand_a m' = rand_a engine_A
    ∧ sent m' = sent engine_A ++ msgs
    ∧ replies_to registry_A [1%positive] [foreign_report; specific_query_12] msgs.
Proof.
  apply (receive_loop_without_general_query 2 registry_A [1%positive]).
  - vm_compute. eauto.
  - simpl. lia.
  - repeat apply Forall_cons_2; try apply Forall_nil_2.
    + left. vm_compute. discriminate.
    + right. vm_compute. reflexivity.
Defined.

(** ** The report-all pass with a session that is not idle *)

Lemma ReportAll_loop_hangs now d :
  0 ≤ d < 2 ^ 32 - 1 →
  ∀ ls fuel p m l s,
  chain pNext (states m) p ls →
  l ∈ ls → states m !! l = Some s → nReportsPending s ≠ 0 →
  ProcessMulticastGroupReportAll_loop fuel now d p m = Timeout.
Proof.
  intros Hd. induction ls as [|l0 ls IH]; intros fuel p m l s Hc Hin Hl Hn.
  { by apply elem_of_nil in Hin. }
  destruct fuel as [|fuel]; [done|].
  pose proof (chain_NoDup _ _ _ _ Hc) as Hnd.
  apply NoDup_cons in Hnd as [Hnin _].
  simpl in Hc. destruct Hc as (-> & s0 & Hl0 & Hc).
  destruct (Z.eq_dec (nReportsPending s0) 0) as [Hz|Hnz].
  2:{ by apply (ProcessMulticastGroupReportAll_loop_stuck _ _ _ _ s0). }
  cbn [ProcessMulticastGroupReportAll_loop].
  rewrite (deref_Some _ _ _ Hl0). cbn [mbind result_bind].
  rewrite Hz. cbn [Z.eqb].
  destruct (rand_bounded (rand_a m) d Hd) as (r & -> & Hr).
  cbn [mbind result_bind].
  apply elem_of_cons in Hin as [->|Hin]; [congruence|].
  apply (IH fuel _ _ l s); [|done| |done].
  - eapply chain_ext; [exact Hc|]. intros l1 Hin1. simpl.
    rewrite lookup_insert_ne; [done|]. by intros ->.
  - simpl. rewrite lookup_insert_ne; [done|]. by intros ->.
Qed.

(** X22.  [ProcessMulticastGroupReportAll] on an intact list of which some
    session has reports pending never returns: the pass reschedules the
    idle sessions before that session and then stays on it, whatever the
    amount of fuel. *)
Theorem ReportAll_hangs_on_pending_session (fuel : nat) (now d : Z)
    (m : CIGMPHandler) (ls : list loc) (l : loc) (s : MulticastGroupState) :
  IGMP.wf m ls → 0 ≤ d < 2 ^ 32 - 1 →
  l ∈ ls → states m !! l = Some s → nReportsPending s ≠ 0 →
  ProcessMulticastGroupReportAll fuel now d m = Timeout.
Proof.
  intros Hwf Hd Hin Hl Hn.
  by apply (ReportAll_loop_hangs now d Hd ls fuel _ m l s).
Qed.

Lemma ReportAll_hangs_on_pending_session_witness :
  ProcessMulticastGroupReportAll 1000 5000 10000
    (set_states (<[ 2%positive := mkState group_B 1 false 5100 0 None ]>
                   (states engine_idle)) engine_idle)
  = Timeout.
Proof.
  apply (ReportAll_hangs_on_pending_session 1000 5000 10000 _
           [1%positive; 2%positive] 2%positive
           (mkState group_B 1 false 5100 0 None)).
  - vm_compute. eauto 10.
  - lia.
  - apply elem_of_cons. right. apply elem_of_cons. by left.
  - vm_compute. reflexivity.
  - simpl. lia.
Defined.

(** ** The clock *)

(** X23.  The millisecond clock survives the wrap of the 32-bit tick
    counter: when [d] ticks have passed since the last call, with
    [d * 1000] below [2 ^ 32], the clock advances by [d * 1000 / HZ] also
    when the counter has wrapped in between; the stored tick count is the
    new reading, and sessions, seed and messages sent are untouched. *)
Theorem clock_survives_tick_wrap (HZ d : Z) (m : CIGMPHandler) :
  0 < HZ →
  0 ≤ m_nLastTicksMs m < 2 ^ 32 →
  0 ≤ d → d * 1000 < 2 ^ 32 →
  0 ≤ m_nTimestampMs m → m_nTimestampMs m + d * 1000 / HZ < 2 ^ 64 →
  ∃ m',
    advance_clock HZ (wrap32 (m_nLastTicksMs m + d)) m = Done m'
    ∧ m_nTimestampMs m' = m_nTimestampMs m + d * 1000 / HZ
    ∧ m_nLastTicksMs m' = wrap32 (m_nLastTicksMs m + d)
    ∧ states m' = states m
    ∧ m_pMulticastGroupStates m' = m_pMulticastGroupStates m
    ∧ rand_a m' = rand_a m
    ∧ sent m' = sent m.
Proof.
  intros HHZ Hlast Hd Hd1000 Hclock Hwrap. unfold advance_clock.
  destruct (Z.eqb_spec HZ 0) as [->|_]; [lia|].
  eexists. split; [done|]. simpl. split_and!; try done.
  assert (wrap32 (wrap32 (m_nLastTicksMs m + d) - m_nLastTicksMs m) = d) as ->.
  { unfold wrap32. rewrite Zminus_mod_idemp_l.
    replace (m_nLastTicksMs m + d - m_nLastTicksMs m) with d by lia.
    apply Z.mod_small. lia. }
  unfold wrap32. rewrite (Z.mod_small (d * 1000)) by lia.
  unfold wrap64. apply Z.mod_small.
  assert (0 ≤ d * 1000 / HZ) by (apply Z.div_pos; lia). lia.
Qed.

Lemma clock_survives_tick_wrap_witness :
  ∃ m',
    advance_clock 100 (wrap32 (m_nLastTicksMs (set_clock 5000 4294967291 engine_idle) + 10))
      (set_clock 5000 4294967291 engine_idle) = Done m'
    ∧ m_nTimestampMs m'
      = m_nTimestampMs (set_clock 5000 4294967291 engine_idle) + 10 * 1000 / 100
    ∧ m_nLastTicksMs m'
      = wrap32 (m_nLastTicksMs (set_clock 5000 4294967291 engine_idle) + 10)
    ∧ states m' = states (set_clock 5000 4294967291 engine_idle)
    ∧ m_pMulticastGroupStates m'
      = m_pMulticastGroupStates (set_clock 5000 4294967291 engine_idle)
    ∧ rand_a m' = rand_a (set_clock 5000 4294967291 engine_idle)
    ∧ sent m' = sent (set_clock 5000 4294967291 engine_idle).
Proof.
  apply (clock_survives_tick_wrap 100 10 (set_clock 5000 4294967291 engine_idle));
    unfold set_clock, engine_idle; cbn [m_nLastTicksMs m_nTimestampMs];
    try lia.
  change (10 * 1000 / 100) with 100. lia.
Defined.

(** ** The checksum of the replies to queries *)

Lemma sum16_bound_two bs :
  (Forall is_u8 bs → 0 ≤ 2 * sum16 bs ≤ 65535 * (Z.of_nat (length bs) + 1))
  ∧ (∀ a, is_u8 a → Forall is_u8 bs →
       0 ≤ 2 * sum16 (a :: bs) ≤ 65535 * (Z.of_nat (length (a :: bs)) + 1)).
Proof.
  unfold is_u8. change (2 ^ 8) with 256.
  induction bs as [|b bs [IH1 IH2]].
  - split; [simpl; lia|]. intros a Ha _. simpl. lia.
  - split.
    + intros [Hb Hbs]%Forall_cons. by apply IH2.
    + intros a Ha [Hb Hbs]%Forall_cons. specialize (IH1 Hbs).
      cbn [sum16 length]. lia.
Qed.

Lemma sum16_bound bs :
  Forall is_u8 bs → 0 ≤ 2 * sum16 bs ≤ 65535 * (Z.of_nat (length bs) + 1).
Proof. apply sum16_bound_two. Qed.

(** The folded sum is [0xFFFF] exactly for the positive multiples of
    [0xFFFF]. *)
Lemma fold16_FFFF x :
  0 < x < 2 ^ 32 → fold16 x = 0xFFFF ↔ x mod 0xFFFF = 0.
Proof.
  intros Hx. destruct (fold16_spec x) as (Hf & (k & Hk & Hxk) & Hpos); [lia|].
  specialize (Hpos ltac:(lia)). change 0xFFFF with 65535 in *.
  split.
  - intros Heq. rewrite Hxk, Heq. Z.div_mod_to_equations. lia.
  - intros Hmod. rewrite Hxk in Hmod. Z.div_mod_to_equations. lia.
Qed.

(** X24.  The reply that [Process] builds in place for a query naming a
    member group verifies exactly when the bytes of the frame beyond the
    8-byte header add up to zero in one's complement arithmetic: the
    checksum is computed over the header alone and the whole frame is sent.
    In particular the reply to a query of exactly 8 bytes verifies. *)
Theorem specific_reply_verifies_iff (b : list Z) :
  Forall is_u8 b →
  (sizeof_TIGMPHeader ≤ length b)%nat → Z.of_nat (length b) < 2 ^ 16 →
  SimpleCalculate (specific_query_reply b) = CHECKSUM_OK
  ↔ sum16 (drop sizeof_TIGMPHeader b) mod 0xFFFF = 0.
Proof.
  intros Hb Hlen Hmax. unfold sizeof_TIGMPHeader in *.
  do 8 (destruct b as [|? b]; [simpl in Hlen; lia|]).
  repeat match goal with H : Forall _ (_ :: _) |- _ =>
    apply Forall_cons in H as [? H] end.
  pose proof (sum16_bound b Hb) as Hsum.
  assert (Z.of_nat (length b) < 65536 - 8) as Hlb.
  { cbn [length] in Hmax. change (2 ^ 16) with 65536 in Hmax. lia. }
  unfold is_u8 in *. change (2 ^ 8) with 256 in *.
  unfold specific_query_reply, set_nChecksum, set_nType, sizeof_TIGMPHeader,
    IGMP_TYPE_MEMBERSHIP_REPORT_V2, CHECKSUM_OK.
  cbn [take drop list_insert insert]. change (0 / 256) with 0.
  change (0 mod 256) with 0.
  rewrite take_0, drop_0.
  unfold SimpleCalculate at 1. unfold SimpleCalculate. cbn [sum16].
  set (s := 22 * 256 + z0 + (0 * 256 + 0 + (z3 * 256 + z4 + (z5 * 256 + z6 + 0)))).
  set (c := Z.land (Z.lnot (fold16 s)) 65535).
  set (T := sum16 b) in *.
  destruct (fold16_spec s) as (Hf & (k & Hk & Hsk) & Hfpos);
    [subst s; change (2 ^ 32) with 4294967296; lia|].
  specialize (Hfpos ltac:(subst s; lia)).
  assert (c = 65535 - fold16 s) as Hc by (by apply complement16).
  change 0xFFFF with 65535 in *.
  assert (0 ≤ c < 65536) as Hcr by lia.
  replace (22 * 256 + z0 + (c / 256 * 256 + c mod 256
                            + (z3 * 256 + z4 + (z5 * 256 + z6 + T))))
    with (s + c + T) by (subst s; Z.div_mod_to_equations; lia).
  assert (0 < s + c + T < 2 ^ 32) as Hx.
  { change (2 ^ 32) with 4294967296. subst s. lia. }
  destruct (fold16_spec (s + c + T)) as (Hf' & _ & _); [lia|].
  rewrite complement16 by done. change 0xFFFF with 65535 in *.
  transitivity (fold16 (s + c + T) = 65535); [lia|].
  rewrite (fold16_FFFF _ Hx). change 0xFFFF with 65535.
  replace (s + c + T) with (T + (k + 1) * 65535) by lia.
  by rewrite Z.mod_add by lia.
Qed.

Lemma specific_reply_verifies_iff_witness :
  SimpleCalculate (specific_query_reply (Buffer specific_query_12)) = CHECKSUM_OK
  ↔ sum16 (drop sizeof_TIGMPHeader (Buffer specific_query_12)) mod 0xFFFF = 0.
Proof.
  apply (specific_reply_verifies_iff (Buffer specific_query_12)).
  - repeat apply Forall_cons_2; try apply Forall_nil_2; unfold is_u8; lia.
  - simpl. unfold sizeof_TIGMPHeader. lia.
  - simpl. lia.
Defined.

(** X25.  The reply of the earlier handler that the same source file holds
    verifies for every frame: type set to Version 1 Report, checksum
    computed over the [nLength] bytes that are sent. *)
Theorem v1_reply_always_verifies (b : list Z) :
  Forall is_u8 b →
  (sizeof_TIGMPHeader ≤ length b)%nat → Z.of_nat (length b) < 2 ^ 16 →
  length (v1_query_reply b) = length b
  ∧ hdr_nType (v1_query_reply b) = IGMP_TYPE_MEMBERSHIP_REPORT_V1
  ∧ drop 4 (v1_query_reply b) = drop 4 b
  ∧ SimpleCalculate (v1_query_reply b) = CHECKSUM_OK.
Proof.
  intros Hb Hlen Hmax. unfold sizeof_TIGMPHeader in *.
  do 4 (destruct b as [|? b]; [simpl in Hlen; lia|]).
  repeat match goal with H : Forall _ (_ :: _) |- _ =>
    apply Forall_cons in H as [? H] end.
  pose proof (sum16_bound b Hb) as Hsum.
  assert (Z.of_nat (length b) < 65536 - 4) as Hlb.
  { cbn [length] in Hmax. change (2 ^ 16) with 65536 in Hmax. lia. }
  unfold is_u8 in *. change (2 ^ 8) with 256 in *.
  unfold v1_query_reply, set_nChecksum, set_nType,
    IGMP_TYPE_MEMBERSHIP_REPORT_V1, CHECKSUM_OK, hdr_nType.
  cbn [take drop list_insert insert length]. change (0 / 256) with 0.
  change (0 mod 256) with 0.
  split_and!; try done.
  unfold SimpleCalculate at 1. unfold SimpleCalculate. cbn [sum16].
  set (s := 18 * 256 + z0 + (0 * 256 + 0 + sum16 b)).
  set (c := Z.land (Z.lnot (fold16 s)) 65535).
  replace (18 * 256 + z0 + (c / 256 * 256 + c mod 256 + sum16 b))
    with (s + c) by (subst s; Z.div_mod_to_equations; lia).
  subst c. apply checksum_complement.
  change (2 ^ 31) with 2147483648. subst s. lia.
Qed.

Lemma v1_reply_always_verifies_witness :
  length (v1_query_reply (Buffer specific_query_12))
  = length (Buffer specific_query_12)
  ∧ hdr_nType (v1_query_reply (Buffer specific_query_12))
    = IGMP_TYPE_MEMBERSHIP_REPORT_V1
  ∧ drop 4 (v1_query_reply (Buffer specific_query_12))
    = drop 4 (Buffer specific_query_12)
  ∧ SimpleCalculate (v1_query_reply (Buffer specific_query_12)) = CHECKSUM_OK.
Proof.
  apply (v1_reply_always_verifies (Buffer specific_query_12)).
  - repeat apply Forall_cons_2; try apply Forall_nil_2; unfold is_u8; lia.
  - simpl. unfold sizeof_TIGMPHeader. lia.
  - simpl. lia.
Defined.

(** * One call of [Process] in the steady state *)

Lemma in_sync_AB :
  in_sync registry_AB [1%positive; 2%positive] engine_AB [1%positive; 2%positive].
Proof.
  split.
  - intros lg g Hin Hlg. cells; vm_compute in Hlg; injection Hlg as <-.
    + exists 1%positive, (mkState group_A 2 false 395 0 (Some 2%positive)).
      split_and!; [by left|done|done].
    + exists 2%positive, (mkState group_B 2 false 492 0 None).
      split_and!; [by right; left|done|done].
  - intros l s Hin Hl. cells; vm_compute in Hl; injection Hl as <-.
    + exists 1%positive, (entry group_A (Some 2%positive)).
      split_and!; [by left|done|done].
    + exists 2%positive, (entry group_B None).
      split_and!; [by right; left|done|done].
Qed.

(** X26.  One call of [Process] in the steady state: the session list is
    intact with distinct addresses, registry and sessions name the same
    groups, no session is leaving, and the queue holds no general query.
    The call completes and leaves the list intact over the same cells; the
    clock is advanced to [now]; what it sends is first the replies to the
    answered frames of the queue, in order, then one Report for each
    session that is due at [now], in list order; every session is as the
    flush leaves it, and no cell outside the list is touched. *)
Theorem Process_in_steady_state (fuel : nat) (HZ ticks now : Z)
    (c : NetConfig.CNetConfig) (gls : list loc) (queue : list Packet)
    (m : CIGMPHandler) (ls : list loc) (ss : list MulticastGroupState) :
  IGMP.wf m ls → NetConfig.wf c gls → (length ls + length gls < fuel)%nat →
  distinct_addresses (states m) ls → in_sync c gls m ls →
  Forall2 (λ l s, states m !! l = Some s) ls ss →
  Forall (λ s, bLeavePending s = false ∧ 0 ≤ nReportsPending s < 2 ^ 32) ss →
  Forall not_general queue →
  HZ ≠ 0 →
  now = wrap64 (m_nTimestampMs m
                + wrap32 (wrap32 (ticks - m_nLastTicksMs m) * 1000) / HZ) →
  now + 1000 < 2 ^ 64 →
  ∃ m' msgs,
    Process fuel HZ ticks c queue m = Done m'
    ∧ IGMP.wf m' ls
    ∧ m_nTimestampMs m' = now
    ∧ m_nLastTicksMs m' = ticks
    ∧ replies_to c gls queue msgs
    ∧ sent m' = sent m ++ msgs ++ map report_for (List.filter (is_due now) ss)
    ∧ Forall2 (λ l s, ∃ s', states m' !! l = Some s' ∧ flushed now s s') ls ss
    ∧ (∀ l, l ∉ ls → states m' !! l = states m !! l).
Proof.
  intros Hwf Hreg Hfuel Hd Hsync Hss Hok Hq HHZ Hnow Hwrap.
  unfold Process, advance_clock.
  destruct (Z.eqb_spec HZ 0) as [|_]; [done|]. cbn [mbind result_bind].
  rewrite <- Hnow. set (m0 := set_clock now ticks m).
  assert (states m0 = states m) as Hst by done.
  assert (∀ l s, l ∈ ls → states m !! l = Some s → bLeavePending s = false)
    as Hnl.
  { intros l s Hin Hl. apply list_elem_of_lookup in Hin as [i Hi].
    destruct (Forall2_lookup_l _ _ _ _ _ Hss Hi) as (s0 & Hi' & Hl0).
    assert (s0 = s) as -> by congruence.
    by destruct (proj1 (Forall_lookup _ _) Hok i s Hi'). }
  rewrite (ProcessMulticastGroupChanges_at_rest fuel c gls _ m0 ls); try done.
  cbn [mbind result_bind].
  destruct (drain_queue_not_general fuel c gls Hreg ltac:(lia) queue m0 Hq)
    as (m1 & msgs & -> & Hst1 & Hhd1 & Hclk1 & Htk1 & _ & Hsent1 & Hrep).
  cbn [mbind result_bind]. unfold SendPendingReportsAndLeaves.
  assert (0 ≤ now) as Hpos.
  { rewrite Hnow. unfold wrap64. apply Z.mod_pos_bound. lia. }
  rewrite Hclk1. change (m_nTimestampMs m0) with now.
  destruct (flush_loop_no_leave now Hpos Hwrap ls ss fuel
              (m_pMulticastGroupStates m1) None m1)
    as (m' & -> & Hc' & Hhead & Hclock & Hticks & Hsent & Hin' & Hout' & _);
    [by rewrite Hst1, Hhd1|lia|by rewrite Hst1|done|].
  exists m', msgs. split_and!; try done.
  - unfold IGMP.wf. by rewrite Hhead.
  - by rewrite Hclock, Hclk1.
  - by rewrite Hticks, Htk1.
  - rewrite Hsent, Hsent1. by rewrite <- app_assoc.
  - intros l Hnin. by rewrite Hout', Hst1.
Qed.

Lemma Process_in_steady_state_witness :
  ∃ m' msgs,
    Process 5 100 50 registry_AB [foreign_report; specific_query_12] engine_AB
    = Done m'
    ∧ IGMP.wf m' [1%positive; 2%positive]
    ∧ m_nTimestampMs m' = 500
    ∧ m_nLastTicksMs m' = 50
    ∧ replies_to registry_AB [1%positive; 2%positive]
        [foreign_report; specific_query_12] msgs
    ∧ sent m' = sent engine_AB ++ msgs
                ++ map report_for
                     (List.filter (is_due 500)
                        [mkState group_A 2 false 395 0 (Some 2%positive);
                         mkState group_B 2 false 492 0 None])
    ∧ Forall2 (λ l s, ∃ s', states m' !! l = Some s' ∧ flushed 500 s s')
        [1%positive; 2%positive]
        [mkState group_A 2 false 395 0 (Some 2%positive);
         mkState group_B 2 false 492 0 None]
    ∧ (∀ l, l ∉ [1%positive; 2%positive] → states m' !! l = states engine_AB !! l).
Proof.
  apply (Process_in_steady_state 5 100 50 500 registry_AB [1%positive; 2%positive]
           [foreign_report; specific_query_12] engine_AB [1%positive; 2%positive]).
  - vm_compute. eauto 10.
  - vm_compute. eauto 10.
  - simpl. lia.
  - exact distinct_addresses_AB.
  - exact in_sync_AB.
  - repeat constructor.
  - repeat constructor; simpl; lia.
  - repeat apply Forall_cons_2; try apply Forall_nil_2.
    + left. vm_compute. discriminate.
    + right. vm_compute. reflexivity.
  - lia.
  - vm_compute. reflexivity.
  - lia.
Defined.
